(** * MagicaVoxel VOX importer: a shallow embedding of [io_scene_vox.py]

    The development follows the source file top to bottom: the small
    numeric and container layer Python provides ([int]/[float] values,
    insertion-ordered dictionaries, exceptions), then [Vec3] and
    [VoxelObject] with the mesh extraction of [generate], the chunk reader
    ([read_chunk], [read_content], [read_dict]), the scene-graph resolver
    ([solve_scene_graph]), the rotation decoder ([parse_rotation_matrix],
    [rotation_to_euler]) and the parsing loop of [import_vox].

    Calls into the host application ([bpy]) are output only and are left
    out; the geometry handed to [mesh.from_pydata] is what [generate]
    returns here. *)

From Stdlib Require Import ZArith List Lia Bool Reals Lra.
From Stdlib.Strings Require Import String Ascii Byte.
From stdpp Require Import base decidable option list gmap.
Import ListNotations.

Local Open Scope Z_scope.

(** ** Exceptions and results *)

(** The exceptions the modelled code can raise. *)
Inductive exn : Set :=
| AssertionError      (* a failed [assert] *)
| StructError         (* [struct.error]: buffer of the wrong size *)
| ValueError
| KeyError
| IndexError
| TypeError
| UnboundLocalError
| UnicodeDecodeError
| RecursionError.

Inductive result (A : Type) : Type :=
| Ok (a : A)
| Raise (e : exn).
Arguments Ok {A} a.
Arguments Raise {A} e.

#[global] Instance result_ret : MRet result := fun A a => Ok a.
#[global] Instance result_bind : MBind result := fun A B k r =>
  match r with
  | Ok a => k a
  | Raise e => Raise e
  end.

Definition assert (b : bool) : result unit :=
  if b then Ok tt else Raise AssertionError.

Definition is_ok {A} (r : result A) : bool :=
  match r with Ok _ => true | Raise _ => false end.

(** ** Python numbers

    A coordinate of a rotation is the [int] 0 the objects start with or a
    [float] computed by [math.atan2].  Floats are modelled by the real
    numbers: rounding is not part of the model. *)
Inductive pynum : Type :=
| PyInt (i : Z)
| PyFloat (r : R).

Definition to_float (a : pynum) : R :=
  match a with PyInt i => IZR i | PyFloat r => r end.

(** [a + b] with Python's promotion of [int] to [float]. *)
Definition py_add (a b : pynum) : pynum :=
  match a, b with
  | PyInt i, PyInt j => PyInt (i + j)
  | _, _ => PyFloat (to_float a + to_float b)%R
  end.

(** [sum(pair)] for a two-element tuple: [(0 + a) + b]. *)
Definition py_sum_pair (p : pynum * pynum) : pynum :=
  py_add (py_add (PyInt 0) (fst p)) (snd p).

(** ** Insertion-ordered dictionaries

    A Python [dict] iterates in insertion order, and assigning to a key that
    is already present keeps the key's place. *)
Module Dict.
Section Dict.
Context {K V : Type} `{EqDecision K}.

Definition t := list (K * V).

Definition empty : t := [].

Fixpoint get (k : K) (d : t) : option V :=
  match d with
  | [] => None
  | (k', v) :: d' => if decide (k' = k) then Some v else get k d'
  end.

(** [d[k] = v] *)
Fixpoint set (k : K) (v : V) (d : t) : t :=
  match d with
  | [] => [(k, v)]
  | (k', v') :: d' =>
      if decide (k' = k) then (k', v) :: d' else (k', v') :: set k v d'
  end.

(** [k in d] *)
Definition mem (k : K) (d : t) : bool :=
  match get k d with Some _ => true | None => false end.

Definition keys (d : t) : list K := map fst d.
End Dict.
Arguments t : clear implicits.
End Dict.

(** ** [Vec3] *)

Record Vec3 (A : Type) : Type := mkVec3 { vx : A; vy : A; vz : A }.
Arguments mkVec3 {A} _ _ _.
Arguments vx {A} _.
Arguments vy {A} _.
Arguments vz {A} _.

Definition as_tup {A} (v : Vec3 A) : A * A * A := (vx v, vy v, vz v).

(** [Vec3._index]: the packed key of a position. *)
Definition _index (p : Vec3 Z) : Z := vx p + vy p * 256 + vz p * 256 * 256.

(** ** [VoxelObject] *)

(** One entry of the voxel list of an [XYZI] chunk: [(x, y, z, color)]. *)
Definition voxel : Type := Z * Z * Z * Z.

Record VoxelObject : Type := mkVoxelObject {
  size : Vec3 Z;
  voxels : Dict.t Z (Vec3 Z * Z);
  used_colors : list Z;
  position : Vec3 Z;
  rotation : Vec3 pynum
}.

(** [x in l] on a list of integers. *)
Definition py_in (c : Z) (l : list Z) : bool := existsb (Z.eqb c) l.

(** The body of the [for vox in Voxels] loop of [__init__]. *)
Definition init_step (st : Dict.t Z (Vec3 Z * Z) * list Z) (vox : voxel)
  : Dict.t Z (Vec3 Z * Z) * list Z :=
  let '(vs, used) := st in
  let '(x, y, z, c) := vox in
  let pos := mkVec3 x y z in
  let vs' := Dict.set (_index pos) (pos, c) vs in
  (vs', if negb (py_in c used) then used ++ [c] else used).

(** [VoxelObject.__init__] *)
Definition VoxelObject_init (Voxels : list voxel) (Size : Vec3 Z) : VoxelObject :=
  let '(vs, used) := fold_left init_step Voxels (Dict.empty, []) in
  {| size := Size;
     voxels := vs;
     used_colors := used;
     position := mkVec3 0 0 0;
     rotation := mkVec3 (PyInt 0) (PyInt 0) (PyInt 0) |}.

(** [VoxelObject.getVox] *)
Definition getVox (self : VoxelObject) (pos : Vec3 Z) : Z :=
  let key := _index pos in
  if Dict.mem key (voxels self) then
    match Dict.get key (voxels self) with
    | Some (_, c) => c
    | None => 0
    end
  else 0.

(** [VoxelObject.compareVox]: is the cell [b] occupied? *)
Definition compareVox (self : VoxelObject) (colA : Z) (b : Vec3 Z) : bool :=
  let colB := getVox self b in
  if colB =? 0 then false else true.

(** *** Mesh extraction: the geometry built by [generate] *)

Definition vertex : Type := Z * Z * Z.
Definition face : Type := list Z.

Record mesh : Type := mkMesh { verts : list vertex; faces : list face }.

Definition len {A} (l : list A) : Z := Z.of_nat (length l).

(** Four [verts.append] followed by the [faces.append] of their indices. *)
Definition add_quad (m : mesh) (a b c d : vertex) : mesh :=
  let vs := verts m ++ [a] ++ [b] ++ [c] ++ [d] in
  {| verts := vs;
     faces := faces m ++ [[len vs - 4; len vs - 3; len vs - 2; len vs - 1]] |}.

(** The six neighbour tests made for one voxel of the current colour. *)
Definition emit_voxel (self : VoxelObject) (pos : Vec3 Z) (colID : Z) (m : mesh) : mesh :=
  let '(x, y, z) := as_tup pos in
  let m := if negb (compareVox self colID (mkVec3 (x + 1) y z))
           then add_quad m (x + 1, y, z) (x + 1, y + 1, z) (x + 1, y + 1, z + 1) (x + 1, y, z + 1)
           else m in
  let m := if negb (compareVox self colID (mkVec3 x (y + 1) z))
           then add_quad m (x + 1, y + 1, z) (x + 1, y + 1, z + 1) (x, y + 1, z + 1) (x, y + 1, z)
           else m in
  let m := if negb (compareVox self colID (mkVec3 x y (z + 1)))
           then add_quad m (x, y, z + 1) (x, y + 1, z + 1) (x + 1, y + 1, z + 1) (x + 1, y, z + 1)
           else m in
  let m := if negb (compareVox self colID (mkVec3 (x - 1) y z))
           then add_quad m (x, y, z) (x, y + 1, z) (x, y + 1, z + 1) (x, y, z + 1)
           else m in
  let m := if negb (compareVox self colID (mkVec3 x (y - 1) z))
           then add_quad m (x, y, z) (x, y, z + 1) (x + 1, y, z + 1) (x + 1, y, z)
           else m in
  let m := if negb (compareVox self colID (mkVec3 x y (z - 1)))
           then add_quad m (x, y, z) (x + 1, y, z) (x + 1, y + 1, z) (x, y + 1, z)
           else m in
  m.

(** The body of [for key in self.voxels] for the colour [Col]. *)
Definition mesh_step (self : VoxelObject) (Col : Z) (m : mesh)
    (entry : Z * (Vec3 Z * Z)) : mesh :=
  let '(_, (pos, colID)) := entry in
  if negb (colID =? Col) then m (* continue *)
  else emit_voxel self pos colID m.

(** The [verts] and [faces] passed to [mesh.from_pydata] for colour [Col]. *)
Definition mesh_of_color (self : VoxelObject) (Col : Z) : mesh :=
  fold_left (mesh_step self Col) (voxels self) {| verts := []; faces := [] |}.

(** [VoxelObject.generate], restricted to the geometry: [None] is the early
    [return] for an empty object, otherwise one mesh per used colour, in the
    order of [used_colors]. *)
Definition generate (self : VoxelObject) : option (list (Z * mesh)) :=
  if len (used_colors self) =? 0 then None
  else Some (map (fun Col => (Col, mesh_of_color self Col)) (used_colors self)).

(** The quads of a mesh: every face with its indices resolved in [verts]. *)
Definition quad_of (m : mesh) (f : face) : list (option vertex) :=
  map (fun i => if i <? 0 then None else nth_error (verts m) (Z.to_nat i)) f.

Definition quads (m : mesh) : list (list (option vertex)) :=
  map (quad_of m) (faces m).

(** All quads produced for an object, over all its colours. *)
Definition all_quads (self : VoxelObject) : list (list (option vertex)) :=
  match generate self with
  | None => []
  | Some ms => concat (map (fun cm => quads (snd cm)) ms)
  end.

Definition all_verts (self : VoxelObject) : list vertex :=
  match generate self with
  | None => []
  | Some ms => concat (map (fun cm => verts (snd cm)) ms)
  end.

(** ** Bytes and [struct.unpack] *)

#[global] Instance byte_eq_dec : EqDecision byte := Byte.byte_eq_dec.

Abbreviation bytes := (list byte).

(** A bytes literal, [b'...']. *)
Definition B (s : string) : bytes := list_byte_of_string s.

Definition byte_val (b : byte) : Z := Z.of_N (Byte.to_N b).

(** The unsigned value of a little-endian byte string. *)
Fixpoint le_unsigned (bs : bytes) : Z :=
  match bs with
  | [] => 0
  | b :: bs' => byte_val b + 256 * le_unsigned bs'
  end.

(** Format [i]: a signed 32-bit little-endian integer. *)
Definition int32 (bs : bytes) : Z :=
  let u := le_unsigned bs in
  if u <? 2 ^ 31 then u else u - 2 ^ 32.

(** [struct.unpack] raises [struct.error] unless the buffer has exactly the
    size the format describes. *)
Definition sized (n : nat) (bs : bytes) : result bytes :=
  if Nat.eqb (length bs) n then Ok bs else Raise StructError.

(** Python slices [b[i:j]] on a buffer of known size. *)
Definition sub (i n : nat) (bs : bytes) : bytes := firstn n (skipn i bs).

(** ['<i'] *)
Definition unpack_i (bs : bytes) : result Z :=
  bs ← sized 4 bs; Ok (int32 bs).

(** ['<ii'] *)
Definition unpack_ii (bs : bytes) : result (Z * Z) :=
  bs ← sized 8 bs; Ok (int32 (sub 0 4 bs), int32 (sub 4 4 bs)).

(** ['<3i'] *)
Definition unpack_3i (bs : bytes) : result (Z * Z * Z) :=
  bs ← sized 12 bs;
  Ok (int32 (sub 0 4 bs), int32 (sub 4 4 bs), int32 (sub 8 4 bs)).

(** ['<4i'] *)
Definition unpack_4i (bs : bytes) : result (Z * Z * Z * Z) :=
  bs ← sized 16 bs;
  Ok (int32 (sub 0 4 bs), int32 (sub 4 4 bs), int32 (sub 8 4 bs), int32 (sub 12 4 bs)).

(** ['<4B'] *)
Definition unpack_4B (bs : bytes) : result (Z * Z * Z * Z) :=
  bs ← sized 4 bs;
  match map byte_val bs with
  | [a; b; c; d] => Ok (a, b, c, d)
  | _ => Raise StructError
  end.

(** ['<4c'], joined again into one bytes value. *)
Definition unpack_4c (bs : bytes) : result bytes := sized 4 bs.

(** ['<4ci'] *)
Definition unpack_4ci (bs : bytes) : result (bytes * Z) :=
  bs ← sized 8 bs; Ok (sub 0 4 bs, int32 (sub 4 4 bs)).

(** ['<4cii'] *)
Definition unpack_4cii (bs : bytes) : result (bytes * Z * Z) :=
  bs ← sized 12 bs; Ok (sub 0 4 bs, int32 (sub 4 4 bs), int32 (sub 8 4 bs)).

(** ['<' + str(n) + 'c'], joined: for a negative [n] the format string is
    malformed, which is a [struct.error] too. *)
Definition unpack_nc (n : Z) (bs : bytes) : result bytes :=
  if n <? 0 then Raise StructError else sized (Z.to_nat n) bs.

(** ** The input file

    A binary file opened for reading: its whole content and the position of
    the next byte to read. *)
Record stream : Type := mkStream { data : bytes; tell : nat }.

Definition file_size (f : stream) : nat := length (data f).

Definition remaining (f : stream) : bytes := skipn (tell f) (data f).

(** [file.read(n)] of a buffered reader: up to [n] bytes, all the rest for
    [n = -1], and a [ValueError] for any other negative [n]. *)
Definition file_read (f : stream) (n : Z) : result (bytes * stream) :=
  if n <? -1 then Raise ValueError
  else
    let out := if n =? -1 then remaining f else firstn (Z.to_nat n) (remaining f) in
    Ok (out, {| data := data f; tell := (tell f + length out)%nat |}).

(** [read_chunk] *)
Definition read_chunk (buffer : stream) : result (bytes * bytes * stream) :=
  '(hdr, buffer) ← file_read buffer 12;
  '(name, h_size, h_children) ← unpack_4cii hdr;
  '(content, buffer) ← file_read buffer h_size;
  Ok (name, content, buffer).

(** ** Chunk payloads

    A payload is a [bytearray] that the decoders consume from the left; the
    functions below return the payload that is left over. *)

(** The number of elements of the slice [content[:size]]. *)
Definition slice_len (content : bytes) (size : Z) : nat :=
  if 0 <=? size then Z.to_nat size else Z.to_nat (len content + size).

(** [read_content]: [out = content[:size]; del content[:size]] *)
Definition read_content (content : bytes) (size : Z) : bytes * bytes :=
  let n := slice_len content size in
  (firstn n content, skipn n content).

(** [struct.unpack('<i', read_content(content, 4))] *)
Definition read_int (content : bytes) : result (Z * bytes) :=
  let '(out, content) := read_content content 4 in
  v ← unpack_i out; Ok (v, content).

(** [b"".join(struct.unpack('<' + str(n) + 'c', read_content(content, n)))] *)
Definition read_chars (content : bytes) (n : Z) : result (bytes * bytes) :=
  let '(out, content) := read_content content n in
  v ← unpack_nc n out; Ok (v, content).

(** The body of [for _ in range(dict_size)] in [read_dict]. *)
Fixpoint read_dict_entries (n : nat) (dict : Dict.t bytes bytes) (content : bytes)
  : result (Dict.t bytes bytes * bytes) :=
  match n with
  | O => Ok (dict, content)
  | S n' =>
      '(key_bytes, content) ← read_int content;
      '(key, content) ← read_chars content key_bytes;
      '(value_bytes, content) ← read_int content;
      '(value, content) ← read_chars content value_bytes;
      read_dict_entries n' (Dict.set key value dict) content
  end.

(** [read_dict] *)
Definition read_dict (content : bytes) : result (Dict.t bytes bytes * bytes) :=
  '(dict_size, content) ← read_int content;
  read_dict_entries (Z.to_nat dict_size) Dict.empty content.

(** Sequencing a loop body that may raise over the elements of a list. *)
Fixpoint foldM {A S : Type} (f : S -> A -> result S) (l : list A) (s : S) : result S :=
  match l with
  | [] => Ok s
  | a :: l' => s ← f s a; foldM f l' s
  end.

(** Running a loop body [n] times, [for _ in range(n)]. *)
Fixpoint repeatM {S : Type} (f : S -> result S) (n : nat) (s : S) : result S :=
  match n with
  | O => Ok s
  | S n' => s ← f s; repeatM f n' s
  end.

(** ** Python sequences: indexing and slicing *)

(** The position [l[i]] refers to, with negative indices counted from the
    end; [IndexError] outside of the list. *)
Definition py_index (n : nat) (i : Z) : result nat :=
  if (0 <=? i) && (i <? Z.of_nat n) then Ok (Z.to_nat i)
  else if (- Z.of_nat n <=? i) && (i <? 0) then Ok (Z.to_nat (Z.of_nat n + i))
  else Raise IndexError.

(** [l[i]] *)
Definition get_item {A} (l : list A) (i : Z) : result A :=
  k ← py_index (length l) i;
  match nth_error l k with
  | Some a => Ok a
  | None => Raise IndexError
  end.

(** [l[i] = v] *)
Definition set_item {A} (l : list A) (i : Z) (v : A) : result (list A) :=
  k ← py_index (length l) i; Ok (<[k := v]> l).

(** [m[i][j] = v] for a list of lists: the row is shared, so the update is
    seen through [m]. *)
Definition set_item2 {A} (m : list (list A)) (i j : Z) (v : A) : result (list (list A)) :=
  row ← get_item m i;
  row ← set_item row j v;
  set_item m i row.

(** The bound of a slice, clipped to the sequence. *)
Definition clip (n : nat) (i : Z) : nat :=
  if i <? 0 then Z.to_nat (Z.of_nat n + i) else Nat.min (Z.to_nat i) n.

(** [l[i:j]] *)
Definition slice {A} (l : list A) (i j : Z) : list A :=
  let a := clip (length l) i in
  let b := clip (length l) j in
  firstn (b - a) (skipn a l).

(** [l[i:]] *)
Definition slice_from {A} (l : list A) (i : Z) : list A :=
  skipn (clip (length l) i) l.

(** [l.remove(x)]: drops the first occurrence, [ValueError] if there is none. *)
Fixpoint list_remove (x : Z) (l : list Z) : result (list Z) :=
  match l with
  | [] => Raise ValueError
  | y :: l' => if y =? x then Ok l' else l' ← list_remove x l'; Ok (y :: l')
  end.

(** ** The scene graph *)

(** A transform node, [[child_id, translation, rotation]]. *)
Abbreviation transform_node := (Z * Vec3 Z * list pynum)%type.

Definition set_placement (model : VoxelObject) (rot : Vec3 pynum) (pos : Vec3 Z)
  : VoxelObject :=
  {| size := size model;
     voxels := voxels model;
     used_colors := used_colors model;
     position := pos;
     rotation := rot |}.

(** [Vec3] applied to an unpacked sequence: exactly three arguments, a
    [TypeError] otherwise. *)
Definition Vec3_of_list {A} (l : list A) : result (Vec3 A) :=
  match l with
  | [a; b; c] => Ok (mkVec3 a b c)
  | _ => Raise TypeError
  end.

Section SceneGraph.
Variable transforms : gmap Z transform_node.
Variable groups : gmap Z (list Z).
Variable shapes : gmap Z (list Z).
Variable models : gmap Z VoxelObject.

(** The body of [for model_id in shapes[current_id]]. *)
Definition place_model (current_location : Vec3 Z) (current_rotation : list pynum)
    (transformed_models : list VoxelObject) (model_id : Z)
  : result (list VoxelObject) :=
  match models !! model_id with
  | None => Raise KeyError
  | Some model =>
      rot ← Vec3_of_list current_rotation;
      Ok (transformed_models ++ [set_placement model rot current_location])
  end.

(** [traverse_scene_graph], the closure of [solve_scene_graph].  The list
    it appends to is threaded through; [depth] is the number of nested
    calls the interpreter still allows, and running out of it is the
    [RecursionError] of a graph that is too deep or cyclic. *)
Fixpoint traverse_scene_graph (depth : nat)
    (current_location : Vec3 Z) (current_rotation : list pynum) (current_id : Z)
    (transformed_models : list VoxelObject) : result (list VoxelObject) :=
  match depth with
  | O => Raise RecursionError
  | S depth' =>
      match transforms !! current_id with
      | Some (child_id, new_location, new_rotation) =>
          let current_location :=
            mkVec3 (vx current_location + vx new_location)
                   (vy current_location + vy new_location)
                   (vz current_location + vz new_location) in
          let current_rotation :=
            map py_sum_pair (combine new_rotation current_rotation) in
          traverse_scene_graph depth' current_location current_rotation child_id
            transformed_models
      | None =>
          match groups !! current_id with
          | Some children =>
              foldM (fun acc child_id =>
                       traverse_scene_graph depth' current_location current_rotation
                         child_id acc)
                    children transformed_models
          | None =>
              match shapes !! current_id with
              | Some model_ids =>
                  foldM (place_model current_location current_rotation)
                        model_ids transformed_models
              | None => Ok transformed_models
              end
          end
      end
  end.

(** [solve_scene_graph] *)
Definition solve_scene_graph (depth : nat) : result (list VoxelObject) :=
  if negb (bool_decide (is_Some (transforms !! 0))) then Raise ValueError
  else
    traverse_scene_graph depth (mkVec3 0 0 0) [PyInt 0; PyInt 0; PyInt 0] 0 [].
End SceneGraph.

(** ** Rotation bytes *)

Local Open Scope char_scope.

Fixpoint pos_digits (p : positive) : list ascii :=
  match p with
  | xH => ["1"]
  | xO p' => pos_digits p' ++ ["0"]
  | xI p' => pos_digits p' ++ ["1"]
  end.

(** [bin(n)] *)
Definition bin (n : Z) : list ascii :=
  match n with
  | Z0 => ["0"; "b"; "0"]
  | Zpos p => ["0"; "b"] ++ pos_digits p
  | Zneg p => ["-"; "0"; "b"] ++ pos_digits p
  end.

(** [s.zfill(width)]: zeros are inserted after a leading sign. *)
Definition zfill (width : nat) (s : list ascii) : list ascii :=
  let pad := repeat "0" (width - length s) in
  match s with
  | c :: s' =>
      if (Ascii.eqb c "+" || Ascii.eqb c "-")%bool then c :: pad ++ s' else pad ++ s
  | [] => pad
  end.

Definition bit_value (c : ascii) : result Z :=
  if Ascii.eqb c "0" then Ok 0
  else if Ascii.eqb c "1" then Ok 1
  else Raise ValueError.

(** [int(s, 2)] on the strings it is given here, two characters out of
    [0], [1] and [b]: the value of two binary digits, and a [ValueError] as
    soon as a [b] is among them. *)
Definition int_base2 (s : list ascii) : result Z :=
  match s with
  | [] => Raise ValueError
  | _ => foldM (fun acc c => d ← bit_value c; Ok (2 * acc + d)) s 0
  end.

Local Close Scope char_scope.

Definition sign_of (c : ascii) : Z := if Ascii.eqb c "1"%char then -1 else 1.

(** [parse_rotation_matrix], on the integer [int(byte)]. *)
Definition parse_rotation_matrix (byte : Z) : result (list (list Z)) :=
  let rotation_matrix := [[0; 0; 0]; [0; 0; 0]; [0; 0; 0]] in
  let open_rows := [0; 1; 2] in
  let byte_string := zfill 8 (slice_from (bin byte) 2) in
  first_row_coord ← int_base2 (slice_from byte_string (-2));
  second_row_coord ← int_base2 (slice byte_string (-4) (-2));
  open_rows ← list_remove first_row_coord open_rows;
  open_rows ← list_remove second_row_coord open_rows;
  third_row_coord ← get_item open_rows 0;
  c ← get_item byte_string (-5);
  rotation_matrix ← set_item2 rotation_matrix 0 first_row_coord (sign_of c);
  c ← get_item byte_string (-6);
  rotation_matrix ← set_item2 rotation_matrix 1 second_row_coord (sign_of c);
  c ← get_item byte_string (-7);
  rotation_matrix ← set_item2 rotation_matrix 2 third_row_coord (sign_of c);
  Ok rotation_matrix.

(** [math.atan2] on the reals: the angle of the point [(x, y)] in
    [(-pi, pi]], and 0 at the origin. *)
Definition atan2 (y x : R) : R :=
  if Rlt_dec 0 x then atan (y / x)
  else if Rlt_dec x 0 then
    (if Rle_dec 0 y then atan (y / x) + PI else atan (y / x) - PI)%R
  else if Rlt_dec 0 y then (PI / 2)%R
  else if Rlt_dec y 0 then (- (PI / 2))%R
  else 0%R.

(** [matrix[i][j]] *)
Definition entry (matrix : list (list Z)) (i j : Z) : result Z :=
  row ← get_item matrix i; get_item row j.

(** [rotation_to_euler] *)
Definition rotation_to_euler (matrix : list (list Z)) : result (R * R * R) :=
  m21 ← entry matrix 2 1;
  m22 ← entry matrix 2 2;
  let x := atan2 (IZR m21) (IZR m22) in
  m20 ← entry matrix 2 0;
  m21 ← entry matrix 2 1;
  m22 ← entry matrix 2 2;
  let y := atan2 (IZR (-1 * m20)) (sqrt (IZR (m21 ^ 2 + m22 ^ 2))) in
  m10 ← entry matrix 1 0;
  m00 ← entry matrix 0 0;
  let z := atan2 (IZR m10) (IZR m00) in
  Ok (x, y, z).

(** ** [import_vox]: reading the file *)

(** The builtins of Python the decoders call on the texts of a file: their
    results are whatever the interpreter computes. *)
Class PyBuiltins : Type := {
  (** the type [str] *)
  pystr : Type;
  (** [b.decode('utf-8')] *)
  decode_utf8 : bytes -> result pystr;
  (** [s.split()] *)
  str_split : pystr -> list pystr;
  (** [int(s)] for a [str] *)
  int_of_str : pystr -> result Z;
  (** [int(b)] for a [bytes] *)
  int_of_bytes : bytes -> result Z;
  (** [float(b)] for a [bytes] *)
  float_of_bytes : bytes -> result R
}.

(** A material, [[roughness, metallic, glass, emission, specular, flux]]. *)
Abbreviation material := (list R).

(** What the parsing loop of [import_vox] has built so far.  [pending_size]
    is the local variable [size], unbound until the first [SIZE] chunk. *)
Record scene : Type := mkScene {
  models : gmap Z VoxelObject;
  mod_id : Z;
  transforms : gmap Z transform_node;
  groups : gmap Z (list Z);
  shapes : gmap Z (list Z);
  palette : list (list R);
  materials : list material;
  pending_size : option (Vec3 Z)
}.

Definition default_material : material := [(1 / 2)%R; 0%R; 0%R; 0%R; 0%R; 0%R].

Definition initial_scene : scene :=
  {| models := ∅; mod_id := 0; transforms := ∅; groups := ∅; shapes := ∅;
     palette := [];
     materials := repeat default_material 255;
     pending_size := None |}.

Definition bytes_eqb (a b : bytes) : bool := bool_decide (a = b).

Section ImportVox.
Context `{PyBuiltins}.

(** [SIZE] *)
Definition chunk_SIZE (content : bytes) (sc : scene) : result scene :=
  let '(out, content) := read_content content 12 in
  '(x, y, z) ← unpack_3i out;
  Ok {| models := models sc; mod_id := mod_id sc; transforms := transforms sc;
        groups := groups sc; shapes := shapes sc; palette := palette sc;
        materials := materials sc;
        pending_size := Some (mkVec3 x y z) |}.

(** The body of [for voxel in range(num_voxels)]. *)
Definition read_voxel (st : list voxel * bytes) : result (list voxel * bytes) :=
  let '(voxels, content) := st in
  let '(out, content) := read_content content 4 in
  voxel_data ← unpack_4B out;
  Ok (voxels ++ [voxel_data], content).

(** [XYZI] *)
Definition chunk_XYZI (content : bytes) (sc : scene) : result scene :=
  '(num_voxels, content) ← read_int content;
  '(voxels, content) ← repeatM read_voxel (Z.to_nat num_voxels) ([], content);
  match pending_size sc with
  | None => Raise UnboundLocalError
  | Some size =>
      let model := VoxelObject_init voxels size in
      Ok {| models := <[mod_id sc := model]> (models sc);
            mod_id := mod_id sc + 1;
            transforms := transforms sc;
            groups := groups sc; shapes := shapes sc; palette := palette sc;
            materials := materials sc;
            pending_size := pending_size sc |}
  end.

(** The body of [for key in frames] of an [nTRN] chunk, on the node
    [transforms[id]]. *)
Definition frame_key (node : transform_node) (kv : bytes * bytes)
  : result transform_node :=
  let '(child_id, translation, rot) := node in
  let '(key, value) := kv in
  if bytes_eqb key (B "_r") then
    byte ← int_of_bytes value;
    matrix ← parse_rotation_matrix byte;
    '(ex, ey, ez) ← rotation_to_euler matrix;
    Ok (child_id, translation, [PyFloat ex; PyFloat ey; PyFloat ez])
  else if bytes_eqb key (B "_t") then
    text ← decode_utf8 value;
    let value := str_split text in
    v0 ← get_item value 0; tx ← int_of_str v0;
    v1 ← get_item value 1; ty ← int_of_str v1;
    v2 ← get_item value 2; tz ← int_of_str v2;
    Ok (child_id, mkVec3 tx ty tz, rot)
  else Ok node.

(** [nTRN] *)
Definition chunk_nTRN (content : bytes) (sc : scene) : result scene :=
  '(id, content) ← read_int content;
  '(_, content) ← read_dict content;
  let '(out, content) := read_content content 16 in
  '(child_id, _, _, _) ← unpack_4i out;
  let node : transform_node :=
    (child_id, mkVec3 0 0 0, [PyInt 0; PyInt 0; PyInt 0]) in
  '(frames, content) ← read_dict content;
  node ← foldM frame_key frames node;
  Ok {| models := models sc; mod_id := mod_id sc;
        transforms := <[id := node]> (transforms sc);
        groups := groups sc; shapes := shapes sc; palette := palette sc;
        materials := materials sc;
        pending_size := pending_size sc |}.

(** The body of the loops reading child ids. *)
Definition read_child (st : list Z * bytes) : result (list Z * bytes) :=
  let '(children, content) := st in
  '(c, content) ← read_int content;
  Ok (children ++ [c], content).

(** [nGRP] *)
Definition chunk_nGRP (content : bytes) (sc : scene) : result scene :=
  '(id, content) ← read_int content;
  '(_, content) ← read_dict content;
  '(num_child, content) ← read_int content;
  '(children, content) ← repeatM read_child (Z.to_nat num_child) ([], content);
  Ok {| models := models sc; mod_id := mod_id sc; transforms := transforms sc;
        groups := <[id := children]> (groups sc);
        shapes := shapes sc; palette := palette sc;
        materials := materials sc;
        pending_size := pending_size sc |}.

(** The body of [for _ in range(num_models)]. *)
Definition read_model_ref (st : list Z * bytes) : result (list Z * bytes) :=
  let '(model_ids, content) := st in
  '(m, content) ← read_int content;
  '(_, content) ← read_dict content;
  Ok (model_ids ++ [m], content).

(** [nSHP] *)
Definition chunk_nSHP (content : bytes) (sc : scene) : result scene :=
  '(id, content) ← read_int content;
  '(_, content) ← read_dict content;
  '(num_models, content) ← read_int content;
  '(model_ids, content) ← repeatM read_model_ref (Z.to_nat num_models) ([], content);
  Ok {| models := models sc; mod_id := mod_id sc; transforms := transforms sc;
        groups := groups sc;
        shapes := <[id := model_ids]> (shapes sc);
        palette := palette sc;
        materials := materials sc;
        pending_size := pending_size sc |}.

(** The body of [for _ in range(255)] of an [RGBA] chunk. *)
Definition read_color (st : list (list R) * bytes) : result (list (list R) * bytes) :=
  let '(palette, content) := st in
  let '(out, content) := read_content content 4 in
  '(r, g, b, a) ← unpack_4B out;
  let colors := map (fun col => (IZR col / 255)%R) [r; g; b; a] in
  Ok (palette ++ [colors], content).

(** [RGBA] *)
Definition chunk_RGBA (content : bytes) (sc : scene) : result scene :=
  '(palette, content) ← repeatM read_color 255 (palette sc, content);
  Ok {| models := models sc; mod_id := mod_id sc; transforms := transforms sc;
        groups := groups sc; shapes := shapes sc;
        palette := palette;
        materials := materials sc;
        pending_size := pending_size sc |}.

(** The body of [for key in mat_dict] of a [MATL] chunk: the state is the
    material table and the current [mat_type]. *)
Definition matl_key (id : Z) (st : list material * bytes) (kv : bytes * bytes)
  : result (list material * bytes) :=
  let '(materials, mat_type) := st in
  let '(key, value) := kv in
  mat ← get_item materials (id - 1);
  let mat_type := if bytes_eqb key (B "_type") then value else mat_type in
  if bytes_eqb key (B "_rough") then
    v ← float_of_bytes value;
    materials ← set_item2 materials (id - 1) 0 v;
    Ok (materials, mat_type)
  else if bytes_eqb key (B "_metal") then
    if bytes_eqb mat_type (B "_metal") then
      v ← float_of_bytes value;
      materials ← set_item2 materials (id - 1) 1 v;
      Ok (materials, mat_type)
    else Ok (materials, mat_type)
  else if bytes_eqb key (B "_alpha") && bytes_eqb mat_type (B "_glass") then
    v ← float_of_bytes value;
    materials ← set_item2 materials (id - 1) 2 v;
    Ok (materials, mat_type)
  else if bytes_eqb key (B "_emit") && bytes_eqb mat_type (B "_emit") then
    v ← float_of_bytes value;
    materials ← set_item2 materials (id - 1) 3 v;
    materials ← set_item2 materials (id - 1) 5 1%R;
    Ok (materials, mat_type)
  else if bytes_eqb key (B "_flux") then
    v ← float_of_bytes value;
    materials ← set_item2 materials (id - 1) 5 v;
    Ok (materials, mat_type)
  else if bytes_eqb key (B "_sp") then
    v ← float_of_bytes value;
    materials ← set_item2 materials (id - 1) 4 (v - 1)%R;
    Ok (materials, mat_type)
  else Ok (materials, mat_type).

(** [MATL]: the material table after the chunk. *)
Definition matl_table (content : bytes) (materials : list material)
  : result (list material) :=
  '(id, content) ← read_int content;
  if 255 <? id then Ok materials (* continue *)
  else
    '(mat_dict, content) ← read_dict content;
    '(materials, _) ← foldM (matl_key id) mat_dict (materials, B "_diffuse");
    Ok materials.

Definition chunk_MATL (content : bytes) (sc : scene) : result scene :=
  materials ← matl_table content (materials sc);
  Ok {| models := models sc; mod_id := mod_id sc; transforms := transforms sc;
        groups := groups sc; shapes := shapes sc; palette := palette sc;
        materials := materials;
        pending_size := pending_size sc |}.

(** The dispatch on the chunk's name; other chunks are passed over. *)
Definition handle_chunk (name content : bytes) (sc : scene) : result scene :=
  if bytes_eqb name (B "SIZE") then chunk_SIZE content sc
  else if bytes_eqb name (B "XYZI") then chunk_XYZI content sc
  else if bytes_eqb name (B "nTRN") then chunk_nTRN content sc
  else if bytes_eqb name (B "nGRP") then chunk_nGRP content sc
  else if bytes_eqb name (B "nSHP") then chunk_nSHP content sc
  else if bytes_eqb name (B "RGBA") then chunk_RGBA content sc
  else if bytes_eqb name (B "MATL") then chunk_MATL content sc
  else Ok sc.

(** [while file.tell() < file_size], for at most [fuel] chunks; [None] when
    the bound is reached with input left. *)
Fixpoint parse_chunks (fuel : nat) (file : stream) (sc : scene)
  : option (result scene) :=
  if Nat.ltb (tell file) (file_size file) then
    match fuel with
    | O => None
    | S fuel' =>
        match read_chunk file with
        | Raise e => Some (Raise e)
        | Ok (name, content, file) =>
            match handle_chunk name content sc with
            | Raise e => Some (Raise e)
            | Ok sc => parse_chunks fuel' file sc
            end
        end
    end
  else Some (Ok sc).

(** The header of the file: magic, version and the [MAIN] chunk. *)
Definition read_header (file : stream) : result stream :=
  '(hdr, file) ← file_read file 8;
  '(magic, version) ← unpack_4ci hdr;
  _ ← assert (bytes_eqb magic (B "VOX ") && (version =? 150));
  '(hdr, file) ← file_read file 4;
  main ← unpack_4c hdr;
  _ ← assert (bytes_eqb main (B "MAIN"));
  '(hdr, file) ← file_read file 8;
  '(N, M) ← unpack_ii hdr;
  _ ← assert (N =? 0);
  Ok file.

(** The [with open(path, 'rb')] block of [import_vox] on a file with the
    content [buf].  Every chunk takes at least its 12 header bytes, so the
    length of the file bounds the number of chunks. *)
Definition parse_vox (buf : bytes) : option (result scene) :=
  match read_header {| data := buf; tell := 0 |} with
  | Raise e => Some (Raise e)
  | Ok file => parse_chunks (length buf) file initial_scene
  end.
End ImportVox.

(** ** The face table of the specification

    The six directions and, for each, the four corners of the face as
    offsets from the voxel's minimum corner, in winding order. *)
Inductive direction : Set := PX | PY | PZ | NX | NY | NZ.

Definition face_offsets (d : direction) : list vertex :=
  match d with
  | PX => [(1, 0, 0); (1, 1, 0); (1, 1, 1); (1, 0, 1)]
  | PY => [(1, 1, 0); (1, 1, 1); (0, 1, 1); (0, 1, 0)]
  | PZ => [(0, 0, 1); (0, 1, 1); (1, 1, 1); (1, 0, 1)]
  | NX => [(0, 0, 0); (0, 1, 0); (0, 1, 1); (0, 0, 1)]
  | NY => [(0, 0, 0); (0, 0, 1); (1, 0, 1); (1, 0, 0)]
  | NZ => [(0, 0, 0); (1, 0, 0); (1, 1, 0); (0, 1, 0)]
  end.

(** The quad of face [d] of the voxel whose minimum corner is [(x, y, z)]. *)
Definition voxel_quad (x y z : Z) (d : direction) : list (option vertex) :=
  map (fun '(ox, oy, oz) => Some (x + ox, y + oy, z + oz)) (face_offsets d).

(** ** Reference descriptions of a voxel list

    What a voxel list says, independently of how [__init__] walks it. *)

Definition color_of (vox : voxel) : Z := let '(_, _, _, c) := vox in c.

Definition key_of (vox : voxel) : Z := let '(x, y, z, _) := vox in _index (mkVec3 x y z).

Definition entry_of (vox : voxel) : Vec3 Z * Z :=
  let '(x, y, z, c) := vox in (mkVec3 x y z, c).

(** The distinct elements of a list in the order of their first occurrence. *)
Fixpoint first_seen (l : list Z) : list Z :=
  match l with
  | [] => []
  | c :: l' => c :: List.filter (fun c' => negb (c' =? c)) (first_seen l')
  end.

(** The last entry of a voxel list that has the packed key [k]. *)
Fixpoint last_entry (k : Z) (Voxels : list voxel) : option (Vec3 Z * Z) :=
  match Voxels with
  | [] => None
  | vox :: rest =>
      match last_entry k rest with
      | Some e => Some e
      | None => if key_of vox =? k then Some (entry_of vox) else None
      end
  end.

(** The two components of the state of the loop of [__init__], taken apart:
    the used colours and the mapping. *)
Definition add_color (used : list Z) (c : Z) : list Z :=
  if negb (py_in c used) then used ++ [c] else used.

Definition store_voxel (vs : Dict.t Z (Vec3 Z * Z)) (vox : voxel) :=
  Dict.set (key_of vox) (entry_of vox) vs.

(** ** Reachability in a scene graph

    The nodes the traversal goes through: from a transform node to its child,
    from a group node to each of its children.  A node id is looked up in
    [transforms] first and in [groups] second, as the traversal does. *)
Section Reach.
Variable transforms : gmap Z transform_node.
Variable groups : gmap Z (list Z).

Definition edge (a b : Z) : Prop :=
  match transforms !! a with
  | Some (child_id, _, _) => b = child_id
  | None =>
      match groups !! a with
      | Some children => In b children
      | None => False
      end
  end.

Inductive reach : Z -> Z -> Prop :=
| reach_here a : reach a a
| reach_step a b c : edge a b -> reach b c -> reach a c.
End Reach.

(** Component-wise sum of two vectors of integers. *)
Definition vec_add (a b : Vec3 Z) : Vec3 Z :=
  mkVec3 (vx a + vx b) (vy a + vy b) (vz a + vz b).

Definition no_rotation : list pynum := [PyInt 0; PyInt 0; PyInt 0].

(** The nested transforms of the specification's example:
    [{0: (1, (1,0,0), (0,0,0)), 1: (2, (0,2,0), (0,0,0))}] and [{2: [0]}]. *)
Definition nested_transforms : gmap Z transform_node :=
  <[0 := (1, mkVec3 1 0 0, no_rotation)]>
    (<[1 := (2, mkVec3 0 2 0, no_rotation)]> ∅).

Definition nested_shapes : gmap Z (list Z) := <[2 := [0]]> ∅.

(** A root whose child, node 1, is in none of the three mappings. *)
Definition dangling_transforms : gmap Z transform_node :=
  <[0 := (1, mkVec3 0 0 0, no_rotation)]> ∅.

(** ** The layout of a rotation byte, as the specification words it

    Bits 0-1 and bits 2-3 select the column of the non-zero entry of rows 0
    and 1, the remaining column goes to row 2, and bits 4, 5 and 6 are the
    signs of the three rows. *)
Definition selector1 (byte : Z) : Z := Z.land byte 3.
Definition selector2 (byte : Z) : Z := Z.land (Z.shiftr byte 2) 3.

Definition row_sign (byte : Z) (bit : Z) : Z :=
  if Z.testbit byte bit then -1 else 1.

(** The row whose only non-zero entry is [s], in column [col]. *)
Definition unit_row (col s : Z) : list Z :=
  map (fun j => if j =? col then s else 0) [0; 1; 2].

Definition signed_permutation_of (byte : Z) : list (list Z) :=
  let a := selector1 byte in
  let b := selector2 byte in
  [unit_row a (row_sign byte 4);
   unit_row b (row_sign byte 5);
   unit_row (3 - a - b) (row_sign byte 6)].

(** A line of three entries with exactly one [1] or [-1] and zeros elsewhere. *)
Definition signed_unit_line (l : list Z) : bool :=
  Nat.eqb (length l) 3
  && forallb (fun v => (v =? 0) || (v =? 1) || (v =? -1)) l
  && Nat.eqb (length (List.filter (fun v => negb (v =? 0)) l)) 1.

Definition column (M : list (list Z)) (j : nat) : list Z :=
  map (fun row => nth j row 0) M.

(** A 3x3 matrix with exactly one [1] or [-1] in every row and every column. *)
Definition is_signed_permutation (M : list (list Z)) : bool :=
  Nat.eqb (length M) 3
  && forallb signed_unit_line M
  && forallb (fun j => signed_unit_line (column M j)) [0%nat; 1%nat; 2%nat].

Definition well_formed_selectors (byte : Z) : bool :=
  (selector1 byte <? 3) && (selector2 byte <? 3)
  && negb (selector1 byte =? selector2 byte).

Definition matrix_eqb (M N : list (list Z)) : bool :=
  bool_decide (M = N).

(** The check made for each of the 256 bytes. *)
Definition rotation_byte_check (byte : Z) : bool :=
  match parse_rotation_matrix byte with
  | Ok M =>
      well_formed_selectors byte
      && matrix_eqb M (signed_permutation_of byte)
      && is_signed_permutation M
  | Raise e =>
      negb (well_formed_selectors byte)
      && match e with ValueError => true | _ => false end
  end.

Definition all_bytes : list Z := map Z.of_nat (seq 0 256).

Definition identity_matrix : list (list Z) := [[1; 0; 0]; [0; 1; 0]; [0; 0; 1]].

(** ** Sample inputs of the chunk reader *)

(** The header of a [SIZE] chunk that declares 12 bytes of payload,
    followed by 3 bytes only. *)
Definition truncated_chunk : stream :=
  {| data := B "SIZE" ++ [x0c; x00; x00; x00] ++ [x00; x00; x00; x00]
             ++ [x02; x00; x00];
     tell := 0 |}.

(** ** A minimal file

    Magic and version 150, the [MAIN] header, one [SIZE] chunk (2, 2, 2) and
    one [XYZI] chunk with the 8 voxels of that cube, all of colour 1. *)
Definition minimal_vox : bytes :=
  B "VOX " ++ [x96; x00; x00; x00]
  ++ B "MAIN" ++ [x00; x00; x00; x00] ++ [x48; x00; x00; x00]
  ++ B "SIZE" ++ [x0c; x00; x00; x00] ++ [x00; x00; x00; x00]
  ++ [x02; x00; x00; x00] ++ [x02; x00; x00; x00] ++ [x02; x00; x00; x00]
  ++ B "XYZI" ++ [x24; x00; x00; x00] ++ [x00; x00; x00; x00]
  ++ [x08; x00; x00; x00]
  ++ [x00; x00; x00; x01] ++ [x01; x00; x00; x01]
  ++ [x00; x01; x00; x01] ++ [x01; x01; x00; x01]
  ++ [x00; x00; x01; x01] ++ [x01; x00; x01; x01]
  ++ [x00; x01; x01; x01] ++ [x01; x01; x01; x01].

Definition cube_voxels : list voxel :=
  [(0, 0, 0, 1); (1, 0, 0, 1); (0, 1, 0, 1); (1, 1, 0, 1);
   (0, 0, 1, 1); (1, 0, 1, 1); (0, 1, 1, 1); (1, 1, 1, 1)].

Definition cube_grid : VoxelObject := VoxelObject_init cube_voxels (mkVec3 2 2 2).

Definition position_of (vox : voxel) : Vec3 Z := fst (entry_of vox).

(** ** Payloads of [MATL] chunks *)

(** The material ids 0, 255 and 256 as they stand at the head of a payload. *)
Definition id_0 : bytes := [x00; x00; x00; x00].
Definition id_255 : bytes := [xff; x00; x00; x00].
Definition id_256 : bytes := [x00; x01; x00; x00].

(** The dictionary [{b'_rough': b'0.1'}]. *)
Definition rough_dict : bytes :=
  [x01; x00; x00; x00]
  ++ [x06; x00; x00; x00] ++ B "_rough"
  ++ [x03; x00; x00; x00] ++ B "0.1".

(** The material table [import_vox] starts with. *)
Definition default_materials : list material := repeat default_material 255.

(** One interpretation of the builtins, for instantiating statements that
    assume a result of theirs: every text reads as the number one tenth,
    and no text is an integer. *)
Definition sample_builtins : PyBuiltins :=
  {| pystr := bytes;
     decode_utf8 := fun b => Ok b;
     str_split := fun s => [s];
     int_of_str := fun _ => Raise ValueError;
     int_of_bytes := fun _ => Raise ValueError;
     float_of_bytes := fun _ => Ok (1 / 10)%R |}.

(** ** The faces of a voxel, direction by direction *)

Definition all_directions : list direction := [PX; PY; PZ; NX; NY; NZ].

(** The cell next to [pos] in direction [d]. *)
Definition neighbour (pos : Vec3 Z) (d : direction) : Vec3 Z :=
  let '(x, y, z) := as_tup pos in
  match d with
  | PX => mkVec3 (x + 1) y z
  | PY => mkVec3 x (y + 1) z
  | PZ => mkVec3 x y (z + 1)
  | NX => mkVec3 (x - 1) y z
  | NY => mkVec3 x (y - 1) z
  | NZ => mkVec3 x y (z - 1)
  end.

(** The quad [generate] appends for the face [d] of the voxel at [pos]. *)
Definition add_face (m : mesh) (pos : Vec3 Z) (d : direction) : mesh :=
  let '(x, y, z) := as_tup pos in
  match d with
  | PX => add_quad m (x + 1, y, z) (x + 1, y + 1, z) (x + 1, y + 1, z + 1) (x + 1, y, z + 1)
  | PY => add_quad m (x + 1, y + 1, z) (x + 1, y + 1, z + 1) (x, y + 1, z + 1) (x, y + 1, z)
  | PZ => add_quad m (x, y, z + 1) (x, y + 1, z + 1) (x + 1, y + 1, z + 1) (x + 1, y, z + 1)
  | NX => add_quad m (x, y, z) (x, y + 1, z) (x, y + 1, z + 1) (x, y, z + 1)
  | NY => add_quad m (x, y, z) (x, y, z + 1) (x + 1, y, z + 1) (x + 1, y, z)
  | NZ => add_quad m (x, y, z) (x + 1, y, z) (x + 1, y + 1, z) (x, y + 1, z)
  end.

(** One of the six [if not self.compareVox(...)] blocks. *)
Definition emit_face (self : VoxelObject) (pos : Vec3 Z) (colID : Z)
    (m : mesh) (d : direction) : mesh :=
  if negb (compareVox self colID (neighbour pos d)) then add_face m pos d else m.

(** The directions in which the voxel at [pos] has no occupied neighbour. *)
Definition exposed (self : VoxelObject) (pos : Vec3 Z) (colID : Z) : list direction :=
  List.filter (fun d => negb (compareVox self colID (neighbour pos d))) all_directions.

(** The quads of the exposed faces of one entry of the mapping, when it has
    the colour [Col]. *)
Definition entry_quads (self : VoxelObject) (Col : Z) (e : Z * (Vec3 Z * Z))
  : list (list (option vertex)) :=
  let '(_, (pos, colID)) := e in
  if colID =? Col
  then map (voxel_quad (vx pos) (vy pos) (vz pos)) (exposed self pos colID)
  else [].

(** Every index of every face refers to a vertex of the mesh. *)
Definition wf_mesh (m : mesh) : Prop :=
  Forall (Forall (fun i => 0 <= i < len (verts m))) (faces m).

(** ** Shapes used to describe the meshes and the grids *)

(** The faces of a mesh of [n] quads that share no vertex: the quad [k] owns
    the vertices [4k] to [4k + 3]. *)
Definition quad_faces (n : nat) : list face :=
  map (fun k => let i := Z.of_nat k in [4 * i; 4 * i + 1; 4 * i + 2; 4 * i + 3])
      (seq 0 n).

(** The faces of a mesh are those of separate quads, four vertices each. *)
Definition separate_quads (m : mesh) : Prop :=
  faces m = quad_faces (length (faces m))
  /\ length (verts m) = (4 * length (faces m))%nat.

(** The number of entries of the mapping that have the colour [Col]. *)
Definition count_color (self : VoxelObject) (Col : Z) : nat :=
  length (List.filter (fun e : Z * (Vec3 Z * Z) => snd (snd e) =? Col) (voxels self)).

(** A coordinate that fits the byte it is read from. *)
Definition byte_coord (v : Z) : Prop := 0 <= v < 256.

Definition byte_position (p : Vec3 Z) : Prop :=
  byte_coord (vx p) /\ byte_coord (vy p) /\ byte_coord (vz p).

(** ** Packing, the inverse of the unpacking the reader does

    What [struct.pack] writes for the formats the reader unpacks; the reader
    itself never packs, these are the files it is given. *)

(** The byte with the value [u mod 256]. *)
Definition byte_of (u : Z) : byte :=
  match Byte.of_N (Z.to_N (u mod 256)) with
  | Some b => b
  | None => x00
  end.

(** [struct.pack('<i', n)] *)
Definition pack_i (n : Z) : bytes :=
  let u := n mod 2 ^ 32 in
  [byte_of u; byte_of (u / 2 ^ 8); byte_of (u / 2 ^ 16); byte_of (u / 2 ^ 24)].

Definition int32_range (n : Z) : Prop := - 2 ^ 31 <= n < 2 ^ 31.

(** A byte string behind its length, as keys and values stand in a
    dictionary. *)
Definition pack_bytes (b : bytes) : bytes := pack_i (len b) ++ b.

Definition pack_entry (kv : bytes * bytes) : bytes :=
  pack_bytes (fst kv) ++ pack_bytes (snd kv).

(** A dictionary on the wire: the number of entries, then the entries. *)
Definition pack_dict (entries : list (bytes * bytes)) : bytes :=
  pack_i (len entries) ++ flat_map pack_entry entries.

(** The [dict] that successive assignments [dict[key] = value] build. *)
Definition dict_of_entries (entries : list (bytes * bytes)) : Dict.t bytes bytes :=
  fold_left (fun d kv => Dict.set (fst kv) (snd kv) d) entries Dict.empty.

Definition short_entry (kv : bytes * bytes) : Prop :=
  len (fst kv) < 2 ^ 31 /\ len (snd kv) < 2 ^ 31.

(** A chunk on the wire: name, payload length, children length 0, payload. *)
Definition pack_chunk (name payload : bytes) : bytes :=
  name ++ pack_i (len payload) ++ pack_i 0 ++ payload.

(** ** The payload of an [XYZI] chunk *)

(** The four bytes of a voxel, [x, y, z, colour]. *)
Definition voxel_bytes (v : byte * byte * byte * byte) : bytes :=
  let '(a, b, c, d) := v in [a; b; c; d].

(** The voxel they are unpacked to. *)
Definition voxel_of (v : byte * byte * byte * byte) : voxel :=
  let '(a, b, c, d) := v in (byte_val a, byte_val b, byte_val c, byte_val d).

(** ** The shape of a scene *)

(** The models have the ids 0, 1, ... up to [mod_id], without a gap. *)
Definition consecutive_ids (sc : scene) : Prop :=
  forall i, is_Some (models sc !! i) <-> 0 <= i < mod_id sc.

(** A table of 255 materials of 6 values each. *)
Definition material_table (t : list material) : Prop :=
  length t = 255%nat /\ Forall (fun m => length m = 6%nat) t.

(** A colour of four components between 0 and 1. *)
Definition unit_color (c : list R) : Prop :=
  length c = 4%nat /\ Forall (fun v => (0 <= v <= 1)%R) c.

(** Two objects with the same voxels, colours and size: they differ by
    their placement at most. *)
Definition same_voxel_data (a b : VoxelObject) : Prop :=
  voxels a = voxels b /\ used_colors a = used_colors b /\ size a = size b.

(** The translation of an object by [delta]. *)
Definition shift (delta : Vec3 Z) (model : VoxelObject) : VoxelObject :=
  {| size := size model;
     voxels := voxels model;
     used_colors := used_colors model;
     position := vec_add delta (position model);
     rotation := rotation model |}.

(** The scene read from the minimal file. *)
Definition minimal_scene : scene :=
  {| models := <[0 := cube_grid]> ∅; mod_id := 1;
     transforms := ∅; groups := ∅; shapes := ∅; palette := [];
     materials := default_materials;
     pending_size := Some (mkVec3 2 2 2) |}.

(** The translation by [delta] of what a traversal returns. *)
Definition shift_result (delta : Vec3 Z) (r : result (list VoxelObject))
  : result (list VoxelObject) :=
  match r with
  | Ok l => Ok (map (shift delta) l)
  | Raise e => Raise e
  end.

(** An instance is one of the models, placed. *)
Definition placed_model (models : gmap Z VoxelObject) (inst : VoxelObject) : Prop :=
  exists m model, models !! m = Some model /\ same_voxel_data inst model.

(** A root that is its own child. *)
Definition looping_transforms : gmap Z transform_node :=
  <[0 := (0, mkVec3 1 0 0, no_rotation)]> ∅.

(** ** Comparing the outcomes of the rotation decoder *)

Definition same_outcome (a b : result (list (list Z))) : bool :=
  match a, b with
  | Ok M, Ok N => matrix_eqb M N
  | Raise ValueError, Raise ValueError => true
  | Raise IndexError, Raise IndexError => true
  | _, _ => false
  end.

(** Bit 7 of a byte makes no difference to the matrix. *)
Definition bit7_check (byte : Z) : bool :=
  same_outcome (parse_rotation_matrix (byte + 128)) (parse_rotation_matrix byte).

Definition low_bytes : list Z := map Z.of_nat (seq 0 128).

(** ** The payloads of the scene-graph chunks *)

(** A model reference of an [nSHP] chunk: the model id and its attributes. *)
Definition pack_model_ref (ref : Z * list (bytes * bytes)) : bytes :=
  pack_i (fst ref) ++ pack_dict (snd ref).

Definition short_dict (entries : list (bytes * bytes)) : Prop :=
  len entries < 2 ^ 31 /\ Forall short_entry entries.

(** A key of a frame dictionary that [import_vox] acts on. *)
Definition frame_attribute (key : bytes) : bool :=
  bytes_eqb key (B "_r") || bytes_eqb key (B "_t").

(** The node an [nTRN] chunk stores before it looks at the frame. *)
Definition unplaced (child_id : Z) : transform_node :=
  (child_id, mkVec3 0 0 0, [PyInt 0; PyInt 0; PyInt 0]).

(** ** Whole files *)

(** The file header [import_vox] accepts, with the children size [M]. *)
Definition vox_header (M : Z) : bytes :=
  B "VOX " ++ pack_i 150 ++ B "MAIN" ++ pack_i 0 ++ pack_i M.

(** A chunk that can be written: a name of 4 bytes and a payload whose
    length fits the header field. *)
Definition well_formed_chunk (c : bytes * bytes) : Prop :=
  length (fst c) = 4%nat /\ len (snd c) < 2 ^ 31.

Definition pack_chunks (chunks : list (bytes * bytes)) : bytes :=
  flat_map (fun c => pack_chunk (fst c) (snd c)) chunks.

(** A file: the header, then the chunks one after the other. *)
Definition pack_file (M : Z) (chunks : list (bytes * bytes)) : bytes :=
  vox_header M ++ pack_chunks chunks.

(** The chunks handled in their order, up to the first that raises. *)
Definition handle_chunks `{PyBuiltins} (chunks : list (bytes * bytes)) (sc : scene)
  : result scene :=
  foldM (fun sc c => handle_chunk (fst c) (snd c) sc) chunks sc.

(** A file of one model: header, [SIZE] chunk and [XYZI] chunk. *)
Definition one_model_file (M x y z : Z) (vs : list (byte * byte * byte * byte)) : bytes :=
  pack_file M [(B "SIZE", pack_i x ++ pack_i y ++ pack_i z);
               (B "XYZI", pack_i (len vs) ++ flat_map voxel_bytes vs)].

(** The scene with that model alone. *)
Definition one_model_scene (x y z : Z) (vs : list (byte * byte * byte * byte)) : scene :=
  {| models := <[0 := VoxelObject_init (map voxel_of vs) (mkVec3 x y z)]> ∅;
     mod_id := 1;
     transforms := ∅; groups := ∅; shapes := ∅; palette := [];
     materials := default_materials;
     pending_size := Some (mkVec3 x y z) |}.

(** The record of the material table a [MATL] chunk with the id [id]
    writes to, for the ids that have one. *)
Definition addressed_record (id : Z) : nat :=
  if 1 <=? id then Z.to_nat (id - 1) else Z.to_nat (id + 254).

(** * Properties *)

(** ** Dictionaries *)

Section DictFacts.
Context {K V : Type} `{EqDecision K}.
Implicit Types (d : Dict.t K V) (k : K) (v : V).

Lemma dict_get_set_eq k v d : Dict.get k (Dict.set k v d) = Some v.
Proof.
  induction d as [|[k' v'] d IH]; simpl.
  - rewrite decide_True; auto.
  - destruct (decide (k' = k)) as [E|N]; simpl.
    + rewrite decide_True; auto.
    + rewrite decide_False; auto.
Qed.

Lemma dict_get_set_ne k k' v d :
  k <> k' -> Dict.get k' (Dict.set k v d) = Dict.get k' d.
Proof.
  intros Hne. induction d as [|[k0 v0] d IH]; simpl.
  - rewrite decide_False; auto.
  - destruct (decide (k0 = k)) as [E|N]; simpl.
    + subst k0. rewrite !decide_False; auto.
    + destruct (decide (k0 = k')); auto.
Qed.

Lemma dict_mem_get k d :
  Dict.mem k d = true <-> is_Some (Dict.get k d).
Proof.
  unfold Dict.mem. destruct (Dict.get k d) as [v|]; split; intros Hx.
  - exists v; reflexivity.
  - reflexivity.
  - discriminate.
  - destruct Hx; discriminate.
Qed.
End DictFacts.

(** ** The voxel grid *)

(** [getVox] is the stored colour, and 0 for a key that is not stored. *)
Lemma getVox_get self pos :
  getVox self pos =
  match Dict.get (_index pos) (voxels self) with
  | Some (_, c) => c
  | None => 0
  end.
Proof.
  unfold getVox, Dict.mem.
  destruct (Dict.get (_index pos) (voxels self)) as [[? ?]|]; reflexivity.
Qed.

Lemma compareVox_get self colA b :
  compareVox self colA b =
  match Dict.get (_index b) (voxels self) with
  | Some (_, c) => negb (c =? 0)
  | None => false
  end.
Proof.
  unfold compareVox. rewrite getVox_get.
  destruct (Dict.get (_index b) (voxels self)) as [[? c]|]; reflexivity.
Qed.

(** Deciding the equality of two packed keys that differ by a constant. *)
Ltac key_ne := unfold _index; simpl; lia.

Ltac decide_keys :=
  repeat first
    [ rewrite decide_True by key_ne
    | rewrite decide_False by key_ne ].

(** ** Mesh extraction *)

(** C3: a grid with a single voxel, whatever its place and colour, yields one
    mesh of 24 vertices and 6 quads, and the quads are the six faces of the
    specification's table, in the order +X, +Y, +Z, -X, -Y, -Z and with its
    windings. *)
Theorem single_voxel_six_quads (x y z c : Z) (sz : Vec3 Z) :
  let self := VoxelObject_init [(x, y, z, c)] sz in
  (exists m, generate self = Some [(c, m)]
             /\ length (verts m) = 24%nat /\ length (faces m) = 6%nat)
  /\ length (all_verts self) = 24%nat
  /\ length (all_quads self) = 6%nat
  /\ all_quads self = map (voxel_quad x y z) [PX; PY; PZ; NX; NY; NZ].
Proof.
  intros self.
  assert (Hg : generate self =
               Some [(c, mesh_of_color self c)]) by reflexivity.
  assert (Hm : mesh_of_color self c =
    {| verts := [(x + 1, y, z); (x + 1, y + 1, z); (x + 1, y + 1, z + 1); (x + 1, y, z + 1);
                 (x + 1, y + 1, z); (x + 1, y + 1, z + 1); (x, y + 1, z + 1); (x, y + 1, z);
                 (x, y, z + 1); (x, y + 1, z + 1); (x + 1, y + 1, z + 1); (x + 1, y, z + 1);
                 (x, y, z); (x, y + 1, z); (x, y + 1, z + 1); (x, y, z + 1);
                 (x, y, z); (x, y, z + 1); (x + 1, y, z + 1); (x + 1, y, z);
                 (x, y, z); (x + 1, y, z); (x + 1, y + 1, z); (x, y + 1, z)];
       faces := [[0; 1; 2; 3]; [4; 5; 6; 7]; [8; 9; 10; 11];
                 [12; 13; 14; 15]; [16; 17; 18; 19]; [20; 21; 22; 23]] |}).
  { unfold mesh_of_color, self, VoxelObject_init. simpl.
    rewrite Z.eqb_refl. simpl.
    unfold emit_voxel. simpl.
    rewrite !compareVox_get. simpl.
    decide_keys. simpl. reflexivity. }
  split; [|split; [|split]].
  - eexists. split; [exact Hg|]. rewrite Hm. simpl. auto.
  - unfold all_verts. rewrite Hg. simpl. rewrite Hm. reflexivity.
  - unfold all_quads. rewrite Hg. simpl. rewrite Hm. reflexivity.
  - unfold all_quads. rewrite Hg. simpl. rewrite Hm.
    unfold quads, voxel_quad. simpl.
    rewrite !Z.add_0_r. reflexivity.
Qed.

(** ** Mesh extraction, one face at a time *)

Lemma quad_of_app m (extra : list vertex) f :
  Forall (fun i => 0 <= i < len (verts m)) f ->
  quad_of {| verts := verts m ++ extra; faces := faces m |} f = quad_of m f.
Proof.
  intros Hf. unfold quad_of. apply map_ext_in. intros i Hi. cbn [verts].
  rewrite List.Forall_forall in Hf. specialize (Hf i Hi). unfold len in Hf.
  destruct (i <? 0); [reflexivity|].
  apply nth_error_app1. lia.
Qed.

Lemma quad_of_verts m m' f : verts m = verts m' -> quad_of m f = quad_of m' f.
Proof. intros Hv. unfold quad_of. rewrite Hv. reflexivity. Qed.

Lemma nth_error_after {A} (l l' : list A) k :
  nth_error (l ++ l') (length l + k) = nth_error l' k.
Proof. rewrite nth_error_app2 by lia. f_equal. lia. Qed.

(** A quad that is added comes last, and leaves the earlier quads as they
    were. *)
Lemma add_quad_quads m a b c d :
  wf_mesh m ->
  quads (add_quad m a b c d) = quads m ++ [[Some a; Some b; Some c; Some d]]
  /\ wf_mesh (add_quad m a b c d).
Proof.
  intros Hwf. unfold wf_mesh in *. split.
  - unfold quads, add_quad. cbn [faces]. rewrite map_app. f_equal.
    + apply map_ext_in. intros f Hf. rewrite List.Forall_forall in Hwf.
      rewrite (quad_of_verts _ {| verts := verts m ++ [a; b; c; d]; faces := faces m |})
        by reflexivity.
      apply quad_of_app. apply Hwf. exact Hf.
    + unfold quad_of, len. cbn [map verts].
      rewrite !length_app. cbn [length Nat.add].
      set (n := length (verts m)).
      replace (Z.of_nat (n + 4)%nat - 4) with (Z.of_nat (n + 0)) by lia.
      replace (Z.of_nat (n + 4)%nat - 3) with (Z.of_nat (n + 1)) by lia.
      replace (Z.of_nat (n + 4)%nat - 2) with (Z.of_nat (n + 2)) by lia.
      replace (Z.of_nat (n + 4)%nat - 1) with (Z.of_nat (n + 3)) by lia.
      rewrite !(proj2 (Z.ltb_ge _ _)) by lia.
      rewrite !Nat2Z.id. unfold n.
      rewrite !nth_error_after. reflexivity.
  - unfold add_quad. cbn [faces verts]. apply List.Forall_app. split.
    + eapply List.Forall_impl; [|exact Hwf]. intros f Hf.
      eapply List.Forall_impl; [|exact Hf]. intros i Hi. cbn beta in *.
      unfold len in *. rewrite length_app. lia.
    + repeat constructor; unfold len; rewrite !length_app; cbn [length]; lia.
Qed.

Lemma face_corners x y z d m :
  wf_mesh m ->
  quads (add_face m (mkVec3 x y z) d) = quads m ++ [voxel_quad x y z d]
  /\ wf_mesh (add_face m (mkVec3 x y z) d).
Proof.
  intros Hwf.
  destruct d; cbn [add_face as_tup vx vy vz];
    (split; [rewrite (proj1 (add_quad_quads _ _ _ _ _ Hwf)); f_equal;
             unfold voxel_quad; cbn [map face_offsets]; rewrite !Z.add_0_r; reflexivity
            | apply (proj2 (add_quad_quads _ _ _ _ _ Hwf)) ]).
Qed.

Lemma emit_face_quads self pos colID m d :
  wf_mesh m ->
  quads (emit_face self pos colID m d)
  = quads m ++ (if negb (compareVox self colID (neighbour pos d))
                then [voxel_quad (vx pos) (vy pos) (vz pos) d] else [])
  /\ wf_mesh (emit_face self pos colID m d).
Proof.
  intros Hwf. unfold emit_face.
  destruct (negb (compareVox self colID (neighbour pos d))).
  - destruct pos as [x y z]. apply face_corners. exact Hwf.
  - rewrite app_nil_r. split; [reflexivity | exact Hwf].
Qed.

(** The six tests of [generate] are one test per direction, in the order of
    [all_directions]. *)
Lemma emit_voxel_fold self pos colID m :
  emit_voxel self pos colID m = fold_left (emit_face self pos colID) all_directions m.
Proof. destruct pos as [x y z]. reflexivity. Qed.

Lemma emit_faces_quads self pos colID ds : forall m,
  wf_mesh m ->
  quads (fold_left (emit_face self pos colID) ds m)
  = quads m ++ map (voxel_quad (vx pos) (vy pos) (vz pos))
                   (List.filter (fun d => negb (compareVox self colID (neighbour pos d))) ds)
  /\ wf_mesh (fold_left (emit_face self pos colID) ds m).
Proof.
  induction ds as [|d ds IH]; intros m Hwf; cbn [fold_left List.filter].
  - rewrite app_nil_r. split; [reflexivity | exact Hwf].
  - destruct (emit_face_quads self pos colID m d Hwf) as [Hq Hwf'].
    destruct (IH _ Hwf') as [Hq' Hwf'']. split; [|exact Hwf''].
    rewrite Hq', Hq, <- app_assoc. f_equal.
    destruct (negb (compareVox self colID (neighbour pos d))); reflexivity.
Qed.

(** A voxel contributes one quad for each direction in which its neighbour
    is not occupied, with the corners of the face table. *)
Lemma emit_voxel_quads self pos colID m :
  wf_mesh m ->
  quads (emit_voxel self pos colID m)
  = quads m ++ map (voxel_quad (vx pos) (vy pos) (vz pos)) (exposed self pos colID)
  /\ wf_mesh (emit_voxel self pos colID m).
Proof.
  intros Hwf. rewrite emit_voxel_fold. apply emit_faces_quads. exact Hwf.
Qed.

Lemma mesh_steps_quads self Col entries : forall m,
  wf_mesh m ->
  quads (fold_left (mesh_step self Col) entries m)
  = quads m ++ flat_map (entry_quads self Col) entries.
Proof.
  induction entries as [|[k [pos colID]] entries IH]; intros m Hwf;
    cbn [fold_left flat_map].
  - rewrite app_nil_r. reflexivity.
  - unfold mesh_step at 2. unfold entry_quads at 1.
    destruct (colID =? Col); cbn [negb].
    + destruct (emit_voxel_quads self pos colID m Hwf) as [Hq Hwf'].
      rewrite (IH _ Hwf'), Hq, <- app_assoc. reflexivity.
    + rewrite (IH _ Hwf). reflexivity.
Qed.

(** The quads of a colour are the exposed faces of the voxels of that colour,
    voxel after voxel in the order of the mapping: no face is merged with
    another, and no face towards an occupied cell is emitted. *)
Lemma mesh_of_color_quads self Col :
  quads (mesh_of_color self Col) = flat_map (entry_quads self Col) (voxels self).
Proof.
  unfold mesh_of_color. rewrite mesh_steps_quads; [reflexivity|].
  constructor.
Qed.

(** In a grid whose mapping holds two voxels of a colour other than 0, a cell
    is occupied exactly when its packed key is one of the two keys. *)
Lemma compareVox_pair self kA pA kB pB c colA b :
  voxels self = [(kA, (pA, c)); (kB, (pB, c))] -> c <> 0 ->
  compareVox self colA b = (kA =? _index b) || (kB =? _index b).
Proof.
  intros Hv Hc. rewrite compareVox_get, Hv. cbn [Dict.get].
  assert (Hc0 : negb (c =? 0) = true) by (apply negb_true_iff, Z.eqb_neq, Hc).
  destruct (decide (kA = _index b)) as [->|Na].
  - rewrite Z.eqb_refl. exact Hc0.
  - rewrite (proj2 (Z.eqb_neq _ _) Na). cbn [orb].
    destruct (decide (kB = _index b)) as [->|Nb].
    + rewrite Z.eqb_refl. exact Hc0.
    + rewrite (proj2 (Z.eqb_neq _ _) Nb). reflexivity.
Qed.

(** Deciding the comparisons of packed keys left in a goal. *)
Ltac eqb_keys :=
  repeat first
    [ rewrite Z.eqb_refl
    | rewrite (proj2 (Z.eqb_eq _ _)) by key_ne
    | rewrite (proj2 (Z.eqb_neq _ _)) by key_ne ].

Ltac pair_exposed Hv Hc :=
  unfold exposed, all_directions; cbn [List.filter neighbour as_tup vx vy vz];
  rewrite !(compareVox_pair _ _ _ _ _ _ _ _ Hv Hc);
  eqb_keys; reflexivity.

(** The faces left of two voxels of colour [c], [(x, y, z)] and its neighbour
    [(x + 1, y, z)]: all but the +X face of the first and the -X face of the
    second. *)
Lemma pair_exposed_faces self (x y z c : Z) :
  c <> 0 ->
  voxels self = [(_index (mkVec3 x y z), (mkVec3 x y z, c));
                 (_index (mkVec3 (x + 1) y z), (mkVec3 (x + 1) y z, c))]
  \/ voxels self = [(_index (mkVec3 (x + 1) y z), (mkVec3 (x + 1) y z, c));
                    (_index (mkVec3 x y z), (mkVec3 x y z, c))] ->
  exposed self (mkVec3 x y z) c = [PY; PZ; NX; NY; NZ]
  /\ exposed self (mkVec3 (x + 1) y z) c = [PX; PY; PZ; NY; NZ].
Proof.
  intros Hc [Hv|Hv]; split; pair_exposed Hv Hc.
Qed.

(** The mesh of the only colour of a grid made of the two voxels, listed in
    this order. *)
Lemma two_voxels_mesh (x y z c : Z) (sz : Vec3 Z) :
  c <> 0 ->
  let self := VoxelObject_init [(x, y, z, c); (x + 1, y, z, c)] sz in
  generate self = Some [(c, mesh_of_color self c)]
  /\ quads (mesh_of_color self c) =
     map (voxel_quad x y z) [PY; PZ; NX; NY; NZ]
     ++ map (voxel_quad (x + 1) y z) [PX; PY; PZ; NY; NZ].
Proof.
  intros Hc self.
  assert (Hv : voxels self =
               [(_index (mkVec3 x y z), (mkVec3 x y z, c));
                (_index (mkVec3 (x + 1) y z), (mkVec3 (x + 1) y z, c))]).
  { unfold self, VoxelObject_init. simpl.
    rewrite decide_False by key_ne. reflexivity. }
  assert (Hu : used_colors self = [c]).
  { unfold self, VoxelObject_init. simpl. rewrite Z.eqb_refl. reflexivity. }
  split.
  - unfold generate. rewrite Hu. reflexivity.
  - destruct (pair_exposed_faces self x y z c Hc (or_introl Hv)) as [Ha Hb].
    rewrite mesh_of_color_quads, Hv. cbn [flat_map entry_quads vx vy vz].
    rewrite Z.eqb_refl, Ha, Hb, app_nil_r. reflexivity.
Qed.

(** The same grid built from the two voxels listed in the other order. *)
Lemma two_voxels_mesh_rev (x y z c : Z) (sz : Vec3 Z) :
  c <> 0 ->
  let self := VoxelObject_init [(x + 1, y, z, c); (x, y, z, c)] sz in
  generate self = Some [(c, mesh_of_color self c)]
  /\ quads (mesh_of_color self c) =
     map (voxel_quad (x + 1) y z) [PX; PY; PZ; NY; NZ]
     ++ map (voxel_quad x y z) [PY; PZ; NX; NY; NZ].
Proof.
  intros Hc self.
  assert (Hv : voxels self =
               [(_index (mkVec3 (x + 1) y z), (mkVec3 (x + 1) y z, c));
                (_index (mkVec3 x y z), (mkVec3 x y z, c))]).
  { unfold self, VoxelObject_init. simpl.
    rewrite decide_False by key_ne. reflexivity. }
  assert (Hu : used_colors self = [c]).
  { unfold self, VoxelObject_init. simpl. rewrite Z.eqb_refl. reflexivity. }
  split.
  - unfold generate. rewrite Hu. reflexivity.
  - destruct (pair_exposed_faces self x y z c Hc (or_intror Hv)) as [Ha Hb].
    rewrite mesh_of_color_quads, Hv. cbn [flat_map entry_quads vx vy vz].
    rewrite Z.eqb_refl, Ha, Hb, app_nil_r. reflexivity.
Qed.

(** C2: two voxels of one colour (a colour id, so not 0) that are adjacent
    along +X, in either order of the voxel list, yield exactly 10 quads: the
    five faces of each voxel other than the face they share.  Neither the +X
    face of the first nor the -X face of the second is emitted, and every
    quad is the unit face of one voxel. *)
Theorem adjacent_pair_ten_quads (x y z c : Z) (sz : Vec3 Z) (Voxels : list voxel) :
  c <> 0 ->
  Voxels = [(x, y, z, c); (x + 1, y, z, c)]
  \/ Voxels = [(x + 1, y, z, c); (x, y, z, c)] ->
  let self := VoxelObject_init Voxels sz in
  length (all_quads self) = 10%nat
  /\ Permutation (all_quads self)
       (map (voxel_quad x y z) [PY; PZ; NX; NY; NZ]
        ++ map (voxel_quad (x + 1) y z) [PX; PY; PZ; NY; NZ])
  /\ ~ In (voxel_quad x y z PX) (all_quads self)
  /\ ~ In (voxel_quad (x + 1) y z NX) (all_quads self).
Proof.
  intros Hc HV self.
  assert (Hq : Permutation (all_quads self)
       (map (voxel_quad x y z) [PY; PZ; NX; NY; NZ]
        ++ map (voxel_quad (x + 1) y z) [PX; PY; PZ; NY; NZ])).
  { unfold all_quads, self. destruct HV as [-> | ->].
    - destruct (two_voxels_mesh x y z c sz Hc) as [-> Hm]. simpl.
      rewrite app_nil_r, Hm. reflexivity.
    - destruct (two_voxels_mesh_rev x y z c sz Hc) as [-> Hm]. simpl.
      rewrite app_nil_r, Hm. apply Permutation_app_comm. }
  split; [|split; [exact Hq|split]].
  - rewrite (Permutation_length Hq). reflexivity.
  - intros Hin. apply (Permutation_in _ Hq) in Hin.
    unfold voxel_quad in Hin. simpl in Hin.
    repeat (destruct Hin as [Hin | Hin]; [injection Hin; intros; lia|]).
    exact Hin.
  - intros Hin. apply (Permutation_in _ Hq) in Hin.
    unfold voxel_quad in Hin. simpl in Hin.
    repeat (destruct Hin as [Hin | Hin]; [injection Hin; intros; lia|]).
    exact Hin.
Qed.

Lemma adjacent_pair_ten_quads_witness :
  length (all_quads (VoxelObject_init [(0, 0, 0, 1); (1, 0, 0, 1)] (mkVec3 2 1 1)))
  = 10%nat.
Proof.
  refine (proj1 (adjacent_pair_ten_quads 0 0 0 1 (mkVec3 2 1 1) _ _ _)).
  - lia.
  - left. reflexivity.
Defined.

(** ** Construction of the grid *)

Lemma py_in_In c l : py_in c l = true <-> In c l.
Proof.
  unfold py_in. rewrite existsb_exists. split.
  - intros (x & Hx & E). apply Z.eqb_eq in E. subst. exact Hx.
  - intros Hc. exists c. split; [exact Hc | apply Z.eqb_refl].
Qed.

Lemma py_in_app c l1 l2 : py_in c (l1 ++ l2) = py_in c l1 || py_in c l2.
Proof. unfold py_in. apply existsb_app. Qed.

Lemma init_fold_split Voxels vs used :
  fold_left init_step Voxels (vs, used) =
  (fold_left store_voxel Voxels vs, fold_left add_color (map color_of Voxels) used).
Proof.
  revert vs used. induction Voxels as [|[[[x y] z] c] rest IH]; intros vs used.
  - reflexivity.
  - simpl. rewrite <- IH. reflexivity.
Qed.

Lemma VoxelObject_init_fields Voxels sz :
  voxels (VoxelObject_init Voxels sz) = fold_left store_voxel Voxels Dict.empty
  /\ used_colors (VoxelObject_init Voxels sz) = fold_left add_color (map color_of Voxels) [].
Proof.
  unfold VoxelObject_init. rewrite init_fold_split. split; reflexivity.
Qed.

Lemma filter_filter_in (used : list Z) c l :
  py_in c used = true ->
  List.filter (fun c' => negb (py_in c' used)) (List.filter (fun c' => negb (c' =? c)) l)
  = List.filter (fun c' => negb (py_in c' used)) l.
Proof.
  intros Hc. induction l as [|a l IH]; simpl; [reflexivity|].
  destruct (a =? c) eqn:E; simpl.
  - apply Z.eqb_eq in E. subst a. rewrite Hc. simpl. exact IH.
  - destruct (py_in a used); simpl; rewrite IH; reflexivity.
Qed.

Lemma filter_app_in (used : list Z) c l :
  List.filter (fun c' => negb (py_in c' (used ++ [c]))) l
  = List.filter (fun c' => negb (py_in c' used)) (List.filter (fun c' => negb (c' =? c)) l).
Proof.
  induction l as [|a l IH]; simpl; [reflexivity|].
  rewrite py_in_app. simpl. rewrite orb_false_r.
  destruct (a =? c) eqn:E; simpl.
  - rewrite orb_true_r. simpl. exact IH.
  - rewrite orb_false_r. destruct (py_in a used); simpl; rewrite IH; reflexivity.
Qed.

(** The colours collected by the loop, started from any list [used]. *)
Lemma add_color_fold cs used :
  fold_left add_color cs used
  = used ++ List.filter (fun c' => negb (py_in c' used)) (first_seen cs).
Proof.
  revert used. induction cs as [|c cs IH]; intros used; simpl.
  - rewrite app_nil_r. reflexivity.
  - rewrite IH. unfold add_color. destruct (py_in c used) eqn:E; simpl.
    + rewrite filter_filter_in by exact E. reflexivity.
    + rewrite <- app_assoc. simpl. rewrite filter_app_in. reflexivity.
Qed.

Lemma filter_id_true {A} (l : list A) : List.filter (fun _ => true) l = l.
Proof. induction l as [|a l IH]; simpl; [|rewrite IH]; reflexivity. Qed.

Lemma used_colors_first_seen Voxels sz :
  used_colors (VoxelObject_init Voxels sz) = first_seen (map color_of Voxels).
Proof.
  destruct (VoxelObject_init_fields Voxels sz) as [_ ->].
  rewrite add_color_fold. simpl. apply filter_id_true.
Qed.

Lemma first_seen_In c l : In c (first_seen l) <-> In c l.
Proof.
  induction l as [|a l IH]; simpl; [tauto|].
  rewrite List.filter_In, IH, negb_true_iff, Z.eqb_neq.
  destruct (Z.eq_dec a c); [subst|]; intuition.
Qed.

Lemma first_seen_NoDup l : List.NoDup (first_seen l).
Proof.
  induction l as [|a l IH]; simpl; constructor.
  - rewrite List.filter_In, negb_true_iff, Z.eqb_neq. intros [_ Hne]. auto.
  - apply List.NoDup_filter. exact IH.
Qed.

(** What the mapping holds for a key after the loop, started from [vs]. *)
Lemma store_voxel_fold Voxels vs k :
  Dict.get k (fold_left store_voxel Voxels vs)
  = match last_entry k Voxels with
    | Some e => Some e
    | None => Dict.get k vs
    end.
Proof.
  revert vs. induction Voxels as [|vox rest IH]; intros vs; simpl.
  - reflexivity.
  - rewrite IH. destruct (last_entry k rest); [reflexivity|].
    unfold store_voxel. destruct (key_of vox =? k) eqn:E.
    + apply Z.eqb_eq in E. subst k. apply dict_get_set_eq.
    + apply Z.eqb_neq in E. apply dict_get_set_ne. exact E.
Qed.

Lemma voxels_last_entry Voxels sz k :
  Dict.get k (voxels (VoxelObject_init Voxels sz)) = last_entry k Voxels.
Proof.
  destruct (VoxelObject_init_fields Voxels sz) as [-> _].
  rewrite store_voxel_fold. destruct (last_entry k Voxels); reflexivity.
Qed.

Lemma last_entry_In k Voxels e :
  last_entry k Voxels = Some e ->
  exists vox, In vox Voxels /\ key_of vox = k /\ entry_of vox = e.
Proof.
  induction Voxels as [|vox rest IH]; simpl; [discriminate|].
  destruct (last_entry k rest) as [e'|].
  - intros Heq. destruct (IH Heq) as (v & Hin & Hk & He). exists v. auto.
  - destruct (key_of vox =? k) eqn:E; [|discriminate].
    intros [= <-]. apply Z.eqb_eq in E. exists vox. auto.
Qed.

Lemma last_entry_is_Some vox Voxels :
  In vox Voxels -> is_Some (last_entry (key_of vox) Voxels).
Proof.
  induction Voxels as [|v rest IH]; simpl; [tauto|].
  intros [-> | Hin].
  - destruct (last_entry (key_of vox) rest); [eexists; reflexivity|].
    rewrite Z.eqb_refl. eexists; reflexivity.
  - destruct (IH Hin) as [e ->]. eexists; reflexivity.
Qed.

(** C9, as the code has it: [__init__] stores every entry of the voxel list
    under its packed key, an entry of colour 0 like any other, the last entry
    of a key replacing the earlier ones; a lookup yields the colour of that
    last entry, hence 0 where it has colour 0 and where there is none.  The
    used colours are the colour ids of the list, 0 among them when an entry
    has it, each once and in first-seen order.  When no entry has colour 0,
    no stored entry has colour 0 and all used colours are non-zero. *)
Theorem init_stores_every_entry (Voxels : list voxel) (sz : Vec3 Z) :
  let self := VoxelObject_init Voxels sz in
  (forall k, Dict.get k (voxels self) = last_entry k Voxels)
  /\ (forall vox, In vox Voxels -> Dict.mem (key_of vox) (voxels self) = true)
  /\ (forall pos, getVox self pos =
        match last_entry (_index pos) Voxels with Some (_, c) => c | None => 0 end)
  /\ used_colors self = first_seen (map color_of Voxels)
  /\ List.NoDup (used_colors self)
  /\ (forall c, In c (used_colors self) <-> exists vox, In vox Voxels /\ color_of vox = c)
  /\ ((forall vox, In vox Voxels -> color_of vox <> 0) ->
      (forall k p c, Dict.get k (voxels self) = Some (p, c) -> c <> 0)
      /\ Forall (fun c => c <> 0) (used_colors self)).
Proof.
  intros self. unfold self.
  split; [|split; [|split; [|split; [|split; [|split]]]]].
  - intros k. apply voxels_last_entry.
  - intros vox Hin. apply dict_mem_get. rewrite voxels_last_entry.
    apply last_entry_is_Some. exact Hin.
  - intros pos. rewrite getVox_get, voxels_last_entry. reflexivity.
  - apply used_colors_first_seen.
  - rewrite used_colors_first_seen. apply first_seen_NoDup.
  - intros c. rewrite used_colors_first_seen, first_seen_In, in_map_iff.
    split; intros (v & H1 & H2); exists v; auto.
  - intros Hnz. split.
    + intros k p c Hget. rewrite voxels_last_entry in Hget.
      destruct (last_entry_In _ _ _ Hget) as (v & Hin & _ & He).
      specialize (Hnz v Hin). destruct v as [[[x y] z] c']. simpl in *.
      injection He as _ <-. exact Hnz.
    + apply List.Forall_forall. intros c Hc.
      rewrite used_colors_first_seen, first_seen_In, in_map_iff in Hc.
      destruct Hc as (v & <- & Hin). apply Hnz. exact Hin.
Qed.

Lemma init_stores_every_entry_witness :
  Dict.mem 0 (voxels (VoxelObject_init [(0, 0, 0, 0)] (mkVec3 1 1 1))) = true.
Proof.
  refine (proj1 (proj2 (init_stores_every_entry [(0, 0, 0, 0)] (mkVec3 1 1 1)))
            (0, 0, 0, 0) _).
  left. reflexivity.
Defined.

(** C9 as stated fails: a voxel list with an entry of colour 0 leaves that
    entry in the mapping and 0 in the used colours. *)
Lemma color_zero_is_stored :
  ~ (forall (Voxels : list voxel) (sz : Vec3 Z),
       (forall k p c, Dict.get k (voxels (VoxelObject_init Voxels sz)) = Some (p, c) -> c <> 0)
       /\ Forall (fun c => c <> 0) (used_colors (VoxelObject_init Voxels sz))).
Proof.
  intros Hall.
  destruct (Hall [(0, 0, 0, 0)] (mkVec3 1 1 1)) as [Hstored _].
  apply (Hstored 0 (mkVec3 0 0 0) 0); reflexivity.
Qed.

(** ** Scene-graph resolution *)

Lemma foldM_raises {A S} (f : S -> A -> result S) (l : list A) (a : A) :
  In a l -> (forall s, is_ok (f s a) = false) ->
  forall s, is_ok (foldM f l s) = false.
Proof.
  induction l as [|b l IH]; simpl; [tauto|].
  intros [-> | Hin] Hf s.
  - specialize (Hf s). destruct (f s a); [discriminate | reflexivity].
  - destruct (f s b) as [s'|e]; simpl; [apply IH; assumption | reflexivity].
Qed.

Section SceneGraphFacts.
Variable transforms : gmap Z transform_node.
Variable groups : gmap Z (list Z).
Variable shapes : gmap Z (list Z).
Variable models : gmap Z VoxelObject.


(** An id that is in none of the three mappings is passed over. *)
Lemma traverse_dangling depth loc rot id acc :
  transforms !! id = None -> groups !! id = None -> shapes !! id = None ->
  traverse_scene_graph transforms groups shapes models (S depth) loc rot id acc
  = Ok acc.
Proof.
  intros Ht Hg Hs. cbn [traverse_scene_graph]. rewrite Ht, Hg, Hs. reflexivity.
Qed.

Lemma place_model_missing loc rot acc m :
  models !! m = None -> place_model models loc rot acc m = Raise KeyError.
Proof. intros Hm. unfold place_model. rewrite Hm. reflexivity. Qed.

(** A shape node on the way that refers to a model that does not exist
    makes the traversal raise, wherever it is started above that node. *)
Lemma traverse_missing_model id' ids m :
  transforms !! id' = None -> groups !! id' = None ->
  shapes !! id' = Some ids -> In m ids -> models !! m = None ->
  forall depth id, reach transforms groups id id' ->
  forall loc rot acc,
    is_ok (traverse_scene_graph transforms groups shapes models depth
             loc rot id acc) = false.
Proof.
  intros Ht Hg Hs Hin Hm.
  induction depth as [|depth IH]; intros id Hr loc rot acc; [reflexivity|].
  simpl.
  destruct (transforms !! id) as [[[child t] r]|] eqn:Et.
  - inversion Hr as [a|a b c He Hr']; subst.
    + congruence.
    + unfold edge in He. rewrite Et in He. subst b. apply IH. exact Hr'.
  - destruct (groups !! id) as [children|] eqn:Eg.
    + inversion Hr as [a|a b c He Hr']; subst.
      * congruence.
      * unfold edge in He. rewrite Et, Eg in He.
        apply (foldM_raises _ children b He).
        intros s. apply IH. exact Hr'.
    + inversion Hr as [a|a b c He Hr']; subst.
      * rewrite Hs. apply (foldM_raises _ ids m Hin).
        intros s. rewrite place_model_missing by exact Hm. reflexivity.
      * unfold edge in He. rewrite Et, Eg in He. destruct He.
Qed.
End SceneGraphFacts.

Lemma py_sum_pair_int (r a : Z) : py_sum_pair (PyInt r, PyInt a) = PyInt (r + a).
Proof. reflexivity. Qed.


(** A shape node appends its models in their order, each placed at the
    accumulated position with the accumulated rotation. *)
Lemma place_model_present (models : gmap Z VoxelObject) loc a b c acc m model :
  models !! m = Some model ->
  place_model models loc [a; b; c] acc m
  = Ok (acc ++ [{| size := size model; voxels := voxels model;
                   used_colors := used_colors model;
                   position := loc; rotation := mkVec3 a b c |}]).
Proof. intros Hm. unfold place_model. rewrite Hm. reflexivity. Qed.






(** C6: when node 0 is not among the transform nodes, resolution raises
    (the [ValueError] of the explicit check) whatever the other mappings
    and the recursion depth are, and so returns no list of instances. *)
Theorem absent_root_raises
    (transforms : gmap Z transform_node) (groups shapes : gmap Z (list Z))
    (models : gmap Z VoxelObject) (depth : nat) :
  transforms !! 0 = None ->
  solve_scene_graph transforms groups shapes models depth = Raise ValueError
  /\ (forall l, solve_scene_graph transforms groups shapes models depth <> Ok l).
Proof.
  intros H0. unfold solve_scene_graph. rewrite H0.
  rewrite bool_decide_false by (intros [? ?]; discriminate).
  split; [reflexivity | discriminate].
Qed.

Lemma absent_root_raises_witness :
  solve_scene_graph (<[1 := (2, mkVec3 0 2 0, no_rotation)]> ∅) ∅ nested_shapes ∅ 5
  = Raise ValueError.
Proof.
  refine (proj1 (absent_root_raises _ _ _ _ _ _)).
  reflexivity.
Defined.

(** The lookup of a model that is missing raises, once the models listed
    before it have been placed. *)
Lemma place_models_missing (models : gmap Z VoxelObject) loc a b c m post pre :
  Forall (fun m' => is_Some (models !! m')) pre -> models !! m = None ->
  forall acc,
    foldM (place_model models loc [a; b; c]) (pre ++ m :: post) acc = Raise KeyError.
Proof.
  intros Hpre Hm. induction Hpre as [|m' pre [model Hm'] _ IH]; intros acc;
    cbn [app foldM].
  - rewrite place_model_missing by exact Hm. reflexivity.
  - rewrite (place_model_present models loc a b c acc m' model Hm').
    cbn [mbind result_bind]. apply IH.
Qed.

(** C7, as the code has it: a shape node reached from the root that refers
    to a model id missing from the model table makes the resolution raise,
    at every recursion depth; the traversal of such a shape node itself,
    entered with a rotation of three components, raises the [KeyError] of
    the lookup once the models listed before the missing one are placed.  A
    child id that is in none of the transform, group and shape mappings is
    passed over without an error and without an instance. *)
Theorem missing_model_fatal_dangling_child_skipped
    (transforms : gmap Z transform_node) (groups shapes : gmap Z (list Z))
    (models : gmap Z VoxelObject) :
  (forall id ids m depth,
     reach transforms groups 0 id ->
     transforms !! id = None -> groups !! id = None ->
     shapes !! id = Some ids -> In m ids -> models !! m = None ->
     is_ok (solve_scene_graph transforms groups shapes models depth) = false)
  /\ (forall depth loc a b c id acc pre m post,
        transforms !! id = None -> groups !! id = None ->
        shapes !! id = Some (pre ++ m :: post) ->
        Forall (fun m' => is_Some (models !! m')) pre -> models !! m = None ->
        traverse_scene_graph transforms groups shapes models (S depth)
          loc [a; b; c] id acc
        = Raise KeyError)
  /\ (forall depth loc rot id acc,
        transforms !! id = None -> groups !! id = None -> shapes !! id = None ->
        traverse_scene_graph transforms groups shapes models (S depth) loc rot id acc
        = Ok acc).
Proof.
  split; [|split].
  - intros id ids m depth Hr Ht Hg Hs Hin Hm. unfold solve_scene_graph.
    destruct (negb _); [reflexivity|].
    apply (traverse_missing_model transforms groups shapes models id ids m); assumption.
  - intros depth loc a b c id acc pre m post Ht Hg Hs Hpre Hm.
    cbn [traverse_scene_graph]. rewrite Ht, Hg, Hs.
    apply place_models_missing; assumption.
  - intros. apply traverse_dangling; assumption.
Qed.

Lemma missing_model_fatal_dangling_child_skipped_witness :
  is_ok (solve_scene_graph nested_transforms ∅ nested_shapes ∅ 7) = false
  /\ traverse_scene_graph nested_transforms ∅ nested_shapes ∅ 1
       (mkVec3 1 2 0) no_rotation 2 []
     = Raise KeyError
  /\ traverse_scene_graph dangling_transforms ∅ ∅ ∅ 1 (mkVec3 0 0 0) no_rotation 1 []
     = Ok [].
Proof.
  split; [|split].
  - refine (proj1 (missing_model_fatal_dangling_child_skipped
                     nested_transforms ∅ nested_shapes ∅) 2 [0] 0 7%nat _ _ _ _ _ _);
      try reflexivity.
    + apply (reach_step _ _ 0 1 2); [reflexivity|].
      apply (reach_step _ _ 1 2 2); [reflexivity|].
      apply reach_here.
    + left. reflexivity.
  - refine (proj1 (proj2 (missing_model_fatal_dangling_child_skipped
                            nested_transforms ∅ nested_shapes ∅))
              0%nat (mkVec3 1 2 0) (PyInt 0) (PyInt 0) (PyInt 0) 2 [] [] 0 [] _ _ _ _ _);
      try reflexivity.
    constructor.
  - refine (proj2 (proj2 (missing_model_fatal_dangling_child_skipped
                            dangling_transforms ∅ ∅ ∅)) 0%nat _ _ _ _ _ _ _);
      reflexivity.
Defined.

(** C7 as stated fails: the child of the root below is in none of the three
    mappings, and the resolution returns the empty list of instances. *)
Lemma dangling_child_not_fatal :
  ~ (forall (transforms : gmap Z transform_node) (groups shapes : gmap Z (list Z))
            (models : gmap Z VoxelObject) (depth : nat) child t r,
       transforms !! 0 = Some (child, t, r) ->
       transforms !! child = None -> groups !! child = None ->
       shapes !! child = None ->
       is_ok (solve_scene_graph transforms groups shapes models depth) = false).
Proof.
  intros Hall.
  specialize (Hall dangling_transforms ∅ ∅ ∅ 10%nat 1 (mkVec3 0 0 0) no_rotation).
  assert (Hok : is_ok (solve_scene_graph dangling_transforms ∅ ∅ ∅ 10) = true)
    by (vm_compute; reflexivity).
  rewrite Hall in Hok; [discriminate| | | |]; reflexivity.
Qed.

(** ** Rotation bytes *)

Lemma in_all_bytes byte : 0 <= byte < 256 -> In byte all_bytes.
Proof.
  intros Hb. unfold all_bytes. apply in_map_iff.
  exists (Z.to_nat byte). split; [lia|]. apply in_seq. lia.
Qed.

Lemma all_bytes_checked : forallb rotation_byte_check all_bytes = true.
Proof. vm_compute. reflexivity. Qed.

Lemma rotation_byte_checked byte :
  0 <= byte < 256 -> rotation_byte_check byte = true.
Proof.
  intros Hb. pose proof all_bytes_checked as Hall.
  rewrite forallb_forall in Hall. apply Hall, in_all_bytes, Hb.
Qed.

(** A byte whose selectors coincide, or select column 3, is refused. *)
Lemma malformed_rotation_byte_raises byte :
  0 <= byte < 256 -> well_formed_selectors byte = false ->
  parse_rotation_matrix byte = Raise ValueError.
Proof.
  intros Hb Hw. pose proof (rotation_byte_checked byte Hb) as Hc.
  unfold rotation_byte_check in Hc. rewrite Hw in Hc.
  destruct (parse_rotation_matrix byte) as [M|e]; [discriminate|].
  destruct e; try discriminate. reflexivity.
Qed.

Lemma atan2_0_1 : atan2 0 1 = 0%R.
Proof.
  unfold atan2. destruct (Rlt_dec 0 1) as [_|Hn]; [|exfalso; lra].
  replace (0 / 1)%R with 0%R by field. apply atan_0.
Qed.

Lemma rotation_to_euler_identity :
  rotation_to_euler identity_matrix = Ok (0%R, 0%R, 0%R).
Proof.
  unfold rotation_to_euler, identity_matrix.
  change (entry [[1; 0; 0]; [0; 1; 0]; [0; 0; 1]] 2 1) with (Ok (A := Z) 0).
  change (entry [[1; 0; 0]; [0; 1; 0]; [0; 0; 1]] 2 2) with (Ok (A := Z) 1).
  change (entry [[1; 0; 0]; [0; 1; 0]; [0; 0; 1]] 2 0) with (Ok (A := Z) 0).
  change (entry [[1; 0; 0]; [0; 1; 0]; [0; 0; 1]] 1 0) with (Ok (A := Z) 0).
  change (entry [[1; 0; 0]; [0; 1; 0]; [0; 0; 1]] 0 0) with (Ok (A := Z) 1).
  cbn [mbind result_bind].
  change (-1 * 0) with 0. change (0 ^ 2 + 1 ^ 2) with 1.
  rewrite sqrt_1, atan2_0_1. reflexivity.
Qed.

(** C5: for a rotation byte whose two selector fields, bits 0-1 and bits 2-3,
    are distinct values among 0, 1 and 2, [parse_rotation_matrix] returns a
    3x3 matrix with exactly one 1 or -1 in each row and each column: row 0
    has it in the column of the first selector, row 1 in the column of the
    second, row 2 in the remaining column, with the signs given by bits 4, 5
    and 6.  The byte 0b00000100 gives the identity matrix, whose Euler
    angles are (0, 0, 0). *)
Theorem rotation_byte_signed_permutation :
  (forall byte : Z,
     0 <= byte < 256 ->
     selector1 byte < 3 -> selector2 byte < 3 -> selector1 byte <> selector2 byte ->
     parse_rotation_matrix byte = Ok (signed_permutation_of byte)
     /\ is_signed_permutation (signed_permutation_of byte) = true)
  /\ parse_rotation_matrix 4 = Ok identity_matrix
  /\ rotation_to_euler identity_matrix = Ok (0%R, 0%R, 0%R).
Proof.
  split; [|split].
  - intros byte Hb H1 H2 Hne.
    pose proof (rotation_byte_checked byte Hb) as Hc.
    unfold rotation_byte_check in Hc.
    destruct (parse_rotation_matrix byte) as [M|e].
    + apply andb_prop in Hc as [Hc Hp]. apply andb_prop in Hc as [_ He].
      unfold matrix_eqb in He. apply bool_decide_eq_true in He. subst M.
      split; [reflexivity | exact Hp].
    + apply andb_prop in Hc as [Hw _]. unfold well_formed_selectors in Hw.
      apply negb_true_iff in Hw. apply andb_false_iff in Hw as [Hw|Hw].
      * apply andb_false_iff in Hw as [Hw|Hw]; apply Z.ltb_ge in Hw; lia.
      * apply negb_false_iff, Z.eqb_eq in Hw. contradiction.
  - vm_compute. reflexivity.
  - apply rotation_to_euler_identity.
Qed.

Lemma rotation_byte_signed_permutation_witness :
  parse_rotation_matrix 100 = Ok [[1; 0; 0]; [0; -1; 0]; [0; 0; -1]].
Proof.
  refine (proj1 (proj1 rotation_byte_signed_permutation 100 _ _ _ _));
    vm_compute; try split; congruence.
Defined.

(** ** The chunk reader *)

Lemma sized_ok n bs : length bs = n -> sized n bs = Ok bs.
Proof. intros <-. unfold sized. rewrite Nat.eqb_refl. reflexivity. Qed.

Lemma sized_raise n bs : length bs <> n -> sized n bs = Raise StructError.
Proof.
  intros Hne. unfold sized. destruct (Nat.eqb_spec (length bs) n); [contradiction|reflexivity].
Qed.

(** Fewer than 12 bytes left: the header cannot be unpacked. *)
Lemma read_chunk_short_header (f : stream) :
  (length (remaining f) < 12)%nat -> read_chunk f = Raise StructError.
Proof.
  intros Hlen. unfold read_chunk, file_read.
  change (12 <? -1) with false. change (12 =? -1) with false.
  cbn [mbind result_bind]. unfold unpack_4cii.
  rewrite sized_raise; [reflexivity|].
  rewrite length_firstn. change (Z.to_nat 12) with 12%nat. lia.
Qed.

(** With a full header and a non-negative payload length, the payload is
    what is left of the file, cut at the declared length. *)
Lemma read_chunk_payload (f : stream) :
  (12 <= length (remaining f))%nat ->
  let hdr := firstn 12 (remaining f) in
  let h_size := int32 (sub 4 4 hdr) in
  0 <= h_size ->
  let content := firstn (Z.to_nat h_size) (skipn 12 (remaining f)) in
  read_chunk f
  = Ok (sub 0 4 hdr, content,
        {| data := data f; tell := (tell f + 12 + length content)%nat |}).
Proof.
  intros Hlen hdr h_size Hsz content. unfold read_chunk, file_read.
  change (12 <? -1) with false. change (12 =? -1) with false.
  cbn [mbind result_bind]. change (Z.to_nat 12) with 12%nat. fold hdr.
  unfold unpack_4cii.
  assert (Hh : length hdr = 12%nat) by (unfold hdr; rewrite length_firstn; lia).
  rewrite sized_ok by exact Hh. cbn [mbind result_bind]. fold h_size.
  destruct (h_size <? -1) eqn:E1; [apply Z.ltb_lt in E1; lia|].
  destruct (h_size =? -1) eqn:E2; [apply Z.eqb_eq in E2; lia|].
  cbn [mbind result_bind].
  assert (Hrem : remaining {| data := data f; tell := (tell f + length hdr)%nat |}
                 = skipn 12 (remaining f)).
  { unfold remaining. cbn [data tell]. rewrite Hh, skipn_skipn. f_equal. lia. }
  rewrite Hrem. cbn [data tell]. rewrite Hh. reflexivity.
Qed.

(** C8, as the code has it: [read_chunk] unpacks a 12-byte header (tag,
    payload length, children length) and raises when fewer than 12 bytes are
    left.  With a non-negative payload length it then returns the bytes that
    follow, up to the payload length: exactly that many when the file has
    them, and otherwise, without raising, the shorter rest of the file. *)
Theorem read_chunk_header_and_body (f : stream) :
  ((length (remaining f) < 12)%nat -> read_chunk f = Raise StructError)
  /\ ((12 <= length (remaining f))%nat ->
      let hdr := firstn 12 (remaining f) in
      let h_size := int32 (sub 4 4 hdr) in
      let rest := skipn 12 (remaining f) in
      0 <= h_size ->
      exists content f',
        read_chunk f = Ok (sub 0 4 hdr, content, f')
        /\ content = firstn (Z.to_nat h_size) rest
        /\ data f' = data f
        /\ tell f' = (tell f + 12 + length content)%nat
        /\ (h_size <= len rest -> len content = h_size)
        /\ (len rest < h_size -> content = rest)).
Proof.
  split; [apply read_chunk_short_header|].
  intros Hlen hdr h_size rest Hsz.
  pose proof (read_chunk_payload f Hlen Hsz) as Hrc.
  eexists _, _. split; [exact Hrc|].
  fold hdr h_size rest. unfold len.
  split; [reflexivity|]. split; [reflexivity|]. split; [reflexivity|]. split.
  - intros Hle. rewrite length_firstn. lia.
  - intros Hlt. apply firstn_all2. lia.
Qed.

Lemma read_chunk_header_and_body_witness :
  read_chunk {| data := B "SIZE"; tell := 0 |} = Raise StructError
  /\ is_ok (read_chunk truncated_chunk) = true.
Proof.
  split.
  - refine (proj1 (read_chunk_header_and_body _) _). vm_compute. lia.
  - destruct (proj2 (read_chunk_header_and_body truncated_chunk))
      as (content & f' & Hrc & _).
    + vm_compute. lia.
    + vm_compute. discriminate.
    + rewrite Hrc. reflexivity.
Defined.

(** C8 as stated fails: the chunk below declares 12 bytes of payload, the
    file ends after 3 of them, and [read_chunk] returns these 3. *)
Lemma truncated_body_is_returned :
  ~ (forall f : stream,
       (12 <= length (remaining f))%nat ->
       len (skipn 12 (remaining f)) < int32 (sub 4 4 (firstn 12 (remaining f))) ->
       is_ok (read_chunk f) = false).
Proof.
  intros Hall. specialize (Hall truncated_chunk).
  assert (Hok : read_chunk truncated_chunk
                = Ok (B "SIZE", [x02; x00; x00], {| data := data truncated_chunk; tell := 15 |}))
    by (vm_compute; reflexivity).
  rewrite Hok in Hall. simpl in Hall.
  assert (true = false); [|discriminate].
  apply Hall; vm_compute; [lia | reflexivity].
Qed.

(** ** Parsing a file *)

Lemma file_read_advances f n out f' :
  file_read f n = Ok (out, f') ->
  data f' = data f /\ tell f' = (tell f + length out)%nat.
Proof.
  unfold file_read. destruct (n <? -1); [discriminate|].
  intros [= <- <-]. split; reflexivity.
Qed.

Lemma sized_length n bs bs' : sized n bs = Ok bs' -> bs' = bs /\ length bs = n.
Proof.
  unfold sized. destruct (Nat.eqb_spec (length bs) n); [|discriminate].
  intros [= <-]. auto.
Qed.

(** A chunk that is read takes at least the 12 bytes of its header. *)
Lemma read_chunk_advances f name content f' :
  read_chunk f = Ok (name, content, f') ->
  data f' = data f /\ (tell f + 12 <= tell f')%nat.
Proof.
  unfold read_chunk.
  destruct (file_read f 12) as [[hdr f1]|] eqn:E1; [|discriminate].
  cbn [mbind result_bind]. unfold unpack_4cii.
  destruct (sized 12 hdr) as [hdr'|] eqn:E2; [|discriminate].
  cbn [mbind result_bind].
  destruct (file_read f1 _) as [[body f2]|] eqn:E3; [|discriminate].
  cbn [mbind result_bind]. intros [= <- <- <-].
  apply file_read_advances in E1 as [Hd1 Ht1].
  apply file_read_advances in E3 as [Hd2 Ht2].
  apply sized_length in E2 as [_ Hl].
  split; [congruence | lia].
Qed.

Section ParseFacts.
Context `{PyBuiltins}.

(** The bound on the number of chunks is never reached. *)
Lemma parse_chunks_total fuel : forall f sc,
  (file_size f - tell f <= fuel)%nat -> parse_chunks fuel f sc <> None.
Proof.
  induction fuel as [|fuel IH]; intros f sc Hle; simpl.
  - destruct (Nat.ltb_spec (tell f) (file_size f)); [lia | discriminate].
  - destruct (Nat.ltb_spec (tell f) (file_size f)); [|discriminate].
    destruct (read_chunk f) as [[[name content] f']|] eqn:Erc; [|discriminate].
    destruct (handle_chunk name content sc); [|discriminate].
    apply read_chunk_advances in Erc as [Hd Ht].
    apply IH. unfold file_size in *. rewrite Hd. lia.
Qed.

Lemma read_header_data f f' : read_header f = Ok f' -> data f' = data f.
Proof.
  unfold read_header.
  destruct (file_read f 8) as [[h1 f1]|] eqn:E1; [|discriminate].
  cbn [mbind result_bind].
  destruct (unpack_4ci h1) as [[magic version]|]; [|discriminate].
  cbn [mbind result_bind].
  destruct (assert _); [|discriminate]. cbn [mbind result_bind].
  destruct (file_read f1 4) as [[h2 f2]|] eqn:E2; [|discriminate].
  cbn [mbind result_bind].
  destruct (unpack_4c h2); [|discriminate]. cbn [mbind result_bind].
  destruct (assert _); [|discriminate]. cbn [mbind result_bind].
  destruct (file_read f2 8) as [[h3 f3]|] eqn:E3; [|discriminate].
  cbn [mbind result_bind].
  destruct (unpack_ii h3) as [[N M]|]; [|discriminate].
  cbn [mbind result_bind].
  destruct (assert _); [|discriminate]. cbn [mbind result_bind].
  intros [= <-].
  apply file_read_advances in E1 as [Hd1 _].
  apply file_read_advances in E2 as [Hd2 _].
  apply file_read_advances in E3 as [Hd3 _].
  congruence.
Qed.

(** Parsing always ends: with the parsed scene or with an exception. *)
Lemma parse_vox_total buf : exists r, parse_vox buf = Some r.
Proof.
  unfold parse_vox.
  destruct (read_header _) as [f|e] eqn:Eh; [|eexists; reflexivity].
  apply read_header_data in Eh. cbn [data] in Eh.
  destruct (parse_chunks (length buf) f initial_scene) as [r|] eqn:Ep;
    [eexists; reflexivity|].
  exfalso. revert Ep. apply parse_chunks_total.
  unfold file_size. rewrite Eh. lia.
Qed.

(** C1: parsing the minimal file succeeds and yields one model, at id 0,
    built from the 8 voxels and the size (2, 2, 2); its [getVox] is 1 at
    each of the 8 listed positions, 0 at (3, 3, 3), and at any position it
    is 1 when the packed key of the position is stored and 0 when it is
    not. *)
Theorem minimal_file_grid :
  (exists sc, parse_vox minimal_vox = Some (Ok sc)
              /\ models sc = <[0 := cube_grid]> ∅
              /\ models sc !! 0 = Some cube_grid
              /\ mod_id sc = 1)
  /\ size cube_grid = mkVec3 2 2 2
  /\ Forall (fun vox => getVox cube_grid (position_of vox) = 1) cube_voxels
  /\ getVox cube_grid (mkVec3 3 3 3) = 0
  /\ Dict.mem (_index (mkVec3 3 3 3)) (voxels cube_grid) = false
  /\ (forall pos, getVox cube_grid pos
                  = if Dict.mem (_index pos) (voxels cube_grid) then 1 else 0).
Proof.
  split; [|split; [|split; [|split; [|split]]]].
  - exists {| models := <[0 := cube_grid]> ∅; mod_id := 1;
              transforms := ∅; groups := ∅; shapes := ∅; palette := [];
              materials := default_materials;
              pending_size := Some (mkVec3 2 2 2) |}.
    split; [vm_compute; reflexivity|].
    cbn [models mod_id]. split; [reflexivity|].
    split; [apply lookup_insert_eq | reflexivity].
  - reflexivity.
  - repeat constructor.
  - reflexivity.
  - reflexivity.
  - intros pos. unfold getVox.
    destruct (Dict.mem (_index pos) (voxels cube_grid)) eqn:Em; [|reflexivity].
    change (voxels cube_grid) with
      [(0, (mkVec3 0 0 0, 1)); (1, (mkVec3 1 0 0, 1));
       (256, (mkVec3 0 1 0, 1)); (257, (mkVec3 1 1 0, 1));
       (65536, (mkVec3 0 0 1, 1)); (65537, (mkVec3 1 0 1, 1));
       (65792, (mkVec3 0 1 1, 1)); (65793, (mkVec3 1 1 1, 1))] in *.
    unfold Dict.mem in Em. cbn [Dict.get] in *.
    repeat (destruct (decide _); [reflexivity|]).
    discriminate.
Qed.
End ParseFacts.

(** ** [MATL] chunks *)

(** In a table of 255 records, index -1 is index 254. *)
Lemma last_index : py_index 255 (0 - 1) = Ok 254%nat /\ py_index 255 (255 - 1) = Ok 254%nat.
Proof. split; reflexivity. Qed.

Lemma get_item_last {A} (l : list A) :
  length l = 255%nat -> get_item l (0 - 1) = get_item l (255 - 1).
Proof. intros Hl. unfold get_item. rewrite Hl. reflexivity. Qed.

Lemma set_item_length {A} (l l' : list A) i v :
  set_item l i v = Ok l' -> length l' = length l.
Proof.
  unfold set_item. destruct (py_index (length l) i) as [k|]; [|discriminate].
  cbn [mbind result_bind]. intros [= <-]. apply length_insert.
Qed.

Lemma set_item2_length {A} (m m' : list (list A)) i j v :
  set_item2 m i j v = Ok m' -> length m' = length m.
Proof.
  unfold set_item2. destruct (get_item m i) as [row|]; [|discriminate].
  cbn [mbind result_bind].
  destruct (set_item row j v) as [row'|]; [|discriminate].
  cbn [mbind result_bind]. apply set_item_length.
Qed.

Lemma set_item2_last {A} (m : list (list A)) j v :
  length m = 255%nat -> set_item2 m (0 - 1) j v = set_item2 m (255 - 1) j v.
Proof.
  intros Hl. unfold set_item2. rewrite (get_item_last m Hl).
  destruct (get_item m (255 - 1)) as [row|]; [|reflexivity].
  cbn [mbind result_bind].
  destruct (set_item row j v) as [row'|]; [|reflexivity].
  cbn [mbind result_bind]. unfold set_item. rewrite Hl. reflexivity.
Qed.

(** [m[-1][j] = v] touches the last record only. *)
Lemma set_item2_last_only {A} (m m' : list (list A)) j v (i : nat) :
  length m = 255%nat -> set_item2 m (0 - 1) j v = Ok m' ->
  i <> 254%nat -> m' !! i = m !! i.
Proof.
  intros Hl. unfold set_item2. destruct (get_item m (0 - 1)) as [row|]; [|discriminate].
  cbn [mbind result_bind].
  destruct (set_item row j v) as [row'|]; [|discriminate].
  cbn [mbind result_bind]. unfold set_item. rewrite Hl.
  change (py_index 255 (0 - 1)) with (Ok (A := nat) 254%nat).
  cbn [mbind result_bind]. intros [= <-] Hi.
  apply list_lookup_insert_ne. auto.
Qed.

Section MatlFacts.
Context `{PyBuiltins}.

(** One dictionary key leaves the size of the table as it is. *)
Lemma matl_key_length id st kv st' :
  matl_key id st kv = Ok st' -> length (fst st') = length (fst st).
Proof.
  destruct st as [materials mat_type], kv as [key value]. unfold matl_key.
  destruct (get_item materials (id - 1)); [|discriminate].
  cbn [mbind result_bind fst].
  repeat match goal with
  | |- context [if ?b then _ else _] => destruct b
  | |- context [float_of_bytes ?v] => destruct (float_of_bytes v); cbn [mbind result_bind]
  | |- context [set_item2 ?t ?i ?j ?v] =>
      let E := fresh "E" in
      destruct (set_item2 t i j v) eqn:E; cbn [mbind result_bind];
      [apply set_item2_length in E|]
  end;
  try discriminate; intros [= <-]; cbn [fst]; congruence.
Qed.

(** For the material id 0 a key does what it does for the id 255. *)
Lemma matl_key_id_0 st kv :
  length (fst st) = 255%nat -> matl_key 0 st kv = matl_key 255 st kv.
Proof.
  destruct st as [materials mat_type], kv as [key value]. cbn [fst].
  intros Hl. unfold matl_key.
  rewrite (get_item_last materials Hl).
  destruct (get_item materials (255 - 1)); [|reflexivity].
  cbn [mbind result_bind].
  repeat match goal with
  | |- context [if ?b then _ else _] => destruct b
  end; try reflexivity;
  (destruct (float_of_bytes value) as [r|]; [|reflexivity]);
  cbn [mbind result_bind];
  rewrite (set_item2_last materials) by exact Hl; try reflexivity.
  all: destruct (set_item2 materials (255 - 1) 3 r) as [m|] eqn:E; [|reflexivity].
  all: cbn [mbind result_bind].
  all: apply set_item2_length in E.
  all: rewrite (set_item2_last m) by congruence; reflexivity.
Qed.

Lemma matl_keys_id_0 mat_dict : forall st,
  length (fst st) = 255%nat ->
  foldM (matl_key 0) mat_dict st = foldM (matl_key 255) mat_dict st.
Proof.
  induction mat_dict as [|kv mat_dict IH]; intros st Hl; cbn [foldM]; [reflexivity|].
  rewrite (matl_key_id_0 st kv Hl).
  destruct (matl_key 255 st kv) as [st'|] eqn:E; cbn [mbind result_bind]; [|reflexivity].
  apply IH. apply matl_key_length in E. congruence.
Qed.

(** A key of a record for the id 0 changes the last record only. *)
Lemma matl_key_id_0_others st kv st' (i : nat) :
  length (fst st) = 255%nat -> matl_key 0 st kv = Ok st' ->
  i <> 254%nat -> fst st' !! i = fst st !! i.
Proof.
  destruct st as [materials mat_type], kv as [key value]. cbn [fst].
  intros Hl Hk Hi. revert Hk. unfold matl_key.
  destruct (get_item materials (0 - 1)); [|discriminate].
  cbn [mbind result_bind].
  repeat match goal with
  | |- context [if ?b then _ else _] => destruct b
  | |- context [float_of_bytes ?v] =>
      destruct (float_of_bytes v) as [r|]; cbn [mbind result_bind]
  end; try discriminate;
  try (intros [= <-]; reflexivity);
  try (destruct (set_item2 materials (0 - 1) _ _) as [m|] eqn:E;
       cbn [mbind result_bind]; [|discriminate];
       intros [= <-]; cbn [fst];
       apply (set_item2_last_only _ _ _ _ i Hl E Hi)).
  all: destruct (set_item2 materials (0 - 1) 3 r) as [m|] eqn:E;
    cbn [mbind result_bind]; [|discriminate].
  all: destruct (set_item2 m (0 - 1) 5 1%R) as [m2|] eqn:E2;
    cbn [mbind result_bind]; [|discriminate].
  all: intros [= <-]; cbn [fst].
  all: pose proof (set_item2_length _ _ _ _ _ E) as Hlm.
  all: assert (Hm : length m = 255%nat) by congruence.
  all: rewrite (set_item2_last_only m _ _ _ i Hm E2 Hi).
  all: apply (set_item2_last_only _ _ _ _ i Hl E Hi).
Qed.

Lemma matl_keys_id_0_others mat_dict (i : nat) : forall st st',
  length (fst st) = 255%nat -> foldM (matl_key 0) mat_dict st = Ok st' ->
  i <> 254%nat -> fst st' !! i = fst st !! i.
Proof.
  induction mat_dict as [|kv mat_dict IH]; intros st st' Hl; cbn [foldM].
  - intros [= <-] _. reflexivity.
  - destruct (matl_key 0 st kv) as [st1|] eqn:E; cbn [mbind result_bind]; [|discriminate].
    intros Hf Hi.
    rewrite (IH st1 st'); auto.
    + apply (matl_key_id_0_others st kv); auto.
    + apply matl_key_length in E. congruence.
Qed.

(** C10: a [MATL] chunk for the material id 0 is not passed over (ids
    above 255 are, as the id 256 shows): index -1 of the 255 records is
    the last one, index 254, so the chunk does to the table exactly what
    the same chunk for the id 255 does, changes no record other than the
    record 254, and for instance writes the roughness it carries into
    that record, the one of palette colour 255. *)
Theorem matl_id_0_overwrites_last (materials : list material) (rest : bytes) :
  length materials = 255%nat ->
  py_index (length materials) (0 - 1) = Ok 254%nat
  /\ matl_table (id_0 ++ rest) materials = matl_table (id_255 ++ rest) materials
  /\ matl_table (id_256 ++ rest) materials = Ok materials
  /\ (forall materials' (i : nat),
        matl_table (id_0 ++ rest) materials = Ok materials' ->
        i <> 254%nat -> materials' !! i = materials !! i)
  /\ (forall r, float_of_bytes (B "0.1") = Ok r ->
        matl_table (id_0 ++ rough_dict) default_materials
        = Ok (<[254%nat := [r; 0; 0; 0; 0; 0]%R]> default_materials)).
Proof.
  intros Hl. split; [rewrite Hl; reflexivity|].
  assert (Hid0 : forall l, read_int (id_0 ++ l) = Ok (0, l)) by reflexivity.
  assert (Hid255 : forall l, read_int (id_255 ++ l) = Ok (255, l)) by reflexivity.
  assert (Hid256 : forall l, read_int (id_256 ++ l) = Ok (256, l)) by reflexivity.
  split; [|split; [|split]].
  - unfold matl_table. rewrite Hid0, Hid255. cbn [mbind result_bind].
    change (255 <? 0) with false. change (255 <? 255) with false. cbv iota.
    destruct (read_dict rest) as [[mat_dict content]|]; [|reflexivity].
    cbn [mbind result_bind].
    rewrite (matl_keys_id_0 mat_dict (materials, B "_diffuse") Hl). reflexivity.
  - unfold matl_table. rewrite Hid256. reflexivity.
  - intros materials' i. unfold matl_table. rewrite Hid0.
    cbn [mbind result_bind]. change (255 <? 0) with false. cbv iota.
    destruct (read_dict rest) as [[mat_dict content]|]; [|discriminate].
    cbn [mbind result_bind].
    destruct (foldM (matl_key 0) mat_dict (materials, B "_diffuse")) as [[m t]|] eqn:E;
      [|discriminate].
    cbn [mbind result_bind]. intros [= <-] Hi.
    apply (matl_keys_id_0_others mat_dict i (materials, B "_diffuse") (m, t) Hl E Hi).
  - intros r Hr.
    unfold matl_table. rewrite Hid0. cbn [mbind result_bind].
    change (255 <? 0) with false. cbv iota.
    change (read_dict rough_dict)
      with (Ok (A := Dict.t bytes bytes * bytes) ([(B "_rough", B "0.1")], [])).
    cbn [mbind result_bind foldM]. unfold matl_key.
    change (get_item default_materials (0 - 1)) with (Ok default_material).
    cbn [mbind result_bind].
    change (bytes_eqb (B "_rough") (B "_type")) with false.
    change (bytes_eqb (B "_rough") (B "_rough")) with true. cbv iota.
    rewrite Hr. cbn [mbind result_bind]. reflexivity.
Qed.
End MatlFacts.

Lemma matl_id_0_overwrites_last_witness :
  @matl_table sample_builtins (id_0 ++ rough_dict) default_materials
  = Ok (<[254%nat := [(1 / 10); 0; 0; 0; 0; 0]%R]> default_materials).
Proof.
  refine (proj2 (proj2 (proj2 (proj2
            (@matl_id_0_overwrites_last sample_builtins default_materials rough_dict _))))
            (1 / 10)%R _); reflexivity.
Defined.

(** * Further properties of the code *)

(** ** The mesh of an object *)

Lemma all_quads_by_color (self : VoxelObject) :
  all_quads self
  = flat_map (fun Col => flat_map (entry_quads self Col) (voxels self))
             (used_colors self).
Proof.
  unfold all_quads, generate.
  destruct (len (used_colors self) =? 0) eqn:E.
  - apply Z.eqb_eq in E. unfold len in E.
    destruct (used_colors self); [reflexivity | discriminate].
  - rewrite map_map. cbn [snd]. rewrite flat_map_concat_map. f_equal.
    apply map_ext. intros Col. apply mesh_of_color_quads.
Qed.

Lemma exposed_iff self pos colID d :
  In d (exposed self pos colID) <-> getVox self (neighbour pos d) = 0.
Proof.
  unfold exposed. rewrite List.filter_In. unfold compareVox.
  destruct (getVox self (neighbour pos d) =? 0) eqn:E.
  - apply Z.eqb_eq in E. split; [tauto|]. intros _. split; [|reflexivity].
    destruct d; cbn; tauto.
  - apply Z.eqb_neq in E. split; [intros [_ ?]; discriminate | tauto].
Qed.

(** X1: the quads [generate] builds are, colour after colour in the order of
    the used colours and voxel after voxel in the order of the mapping, the
    faces of the voxels of that colour towards the cells where [getVox] is 0,
    each with the four corners of the face table; a face towards an occupied
    cell is never among them. *)
Theorem generate_quads_are_exposed_faces (self : VoxelObject) :
  all_quads self
  = flat_map (fun Col => flat_map (entry_quads self Col) (voxels self))
             (used_colors self)
  /\ (forall pos colID d,
        In d (exposed self pos colID) <-> getVox self (neighbour pos d) = 0).
Proof. split; [apply all_quads_by_color | apply exposed_iff]. Qed.

Lemma quad_faces_S n :
  quad_faces (S n)
  = quad_faces n
    ++ [[4 * Z.of_nat n; 4 * Z.of_nat n + 1; 4 * Z.of_nat n + 2; 4 * Z.of_nat n + 3]].
Proof. unfold quad_faces. rewrite seq_S, map_app. reflexivity. Qed.

Lemma add_quad_separate m a b c d :
  separate_quads m -> separate_quads (add_quad m a b c d).
Proof.
  intros [Hf Hv]. unfold separate_quads, add_quad. cbn [faces verts].
  rewrite !length_app. cbn [length]. split.
  - replace (length (faces m) + 1)%nat with (S (length (faces m))) by lia.
    rewrite quad_faces_S, <- Hf. f_equal. unfold len.
    rewrite !length_app. cbn [length]. rewrite Hv.
    repeat f_equal; lia.
  - lia.
Qed.

Lemma emit_face_separate self pos colID m d :
  separate_quads m -> separate_quads (emit_face self pos colID m d).
Proof.
  intros Hm. unfold emit_face.
  destruct (negb _); [|exact Hm].
  destruct pos as [x y z], d; cbn [add_face as_tup vx vy vz];
    apply add_quad_separate; exact Hm.
Qed.

Lemma emit_voxel_separate self pos colID m :
  separate_quads m -> separate_quads (emit_voxel self pos colID m).
Proof.
  rewrite emit_voxel_fold. generalize all_directions. intros ds. revert m.
  induction ds as [|d ds IH]; intros m Hm; cbn [fold_left]; [exact Hm|].
  apply IH, emit_face_separate, Hm.
Qed.

Lemma mesh_steps_separate self Col entries : forall m,
  separate_quads m -> separate_quads (fold_left (mesh_step self Col) entries m).
Proof.
  induction entries as [|[k [pos colID]] entries IH]; intros m Hm;
    cbn [fold_left]; [exact Hm|].
  apply IH. unfold mesh_step. destruct (negb _); [exact Hm|].
  apply emit_voxel_separate, Hm.
Qed.

(** X2: in the mesh of a colour every face is a quad of its own: the face
    number k is [4k, 4k+1, 4k+2, 4k+3], the mesh has four vertices for each
    face, and so every index of every face is the index of a vertex. *)
Theorem mesh_faces_are_separate_quads (self : VoxelObject) (Col : Z) :
  let m := mesh_of_color self Col in
  faces m = quad_faces (length (faces m))
  /\ length (verts m) = (4 * length (faces m))%nat
  /\ Forall (fun f => length f = 4%nat
                      /\ Forall (fun i => 0 <= i < len (verts m)) f) (faces m).
Proof.
  intros m.
  assert (Hs : separate_quads m).
  { unfold m, mesh_of_color. apply mesh_steps_separate. split; reflexivity. }
  destruct Hs as [Hf Hv]. split; [exact Hf|]. split; [exact Hv|].
  rewrite Hf. unfold quad_faces. apply List.Forall_forall. intros f Hin.
  apply in_map_iff in Hin as (k & <- & Hk). apply in_seq in Hk.
  split; [reflexivity|].
  unfold len. rewrite Hv. repeat constructor; lia.
Qed.

Lemma exposed_length self pos colID : (length (exposed self pos colID) <= 6)%nat.
Proof. unfold exposed. apply (List.filter_length_le _ all_directions). Qed.

Lemma entries_quads_bound self Col (entries : list (Z * (Vec3 Z * Z))) :
  (length (flat_map (entry_quads self Col) entries)
   <= 6 * length (List.filter (fun e : Z * (Vec3 Z * Z) => (snd (snd e) =? Col)%Z)
                   entries))%nat.
Proof.
  induction entries as [|[k [pos colID]] entries IH]; cbn [flat_map List.filter];
    [cbn; lia|].
  rewrite length_app. cbn [snd]. unfold entry_quads at 1.
  destruct (colID =? Col).
  - rewrite length_map. pose proof (exposed_length self pos colID) as He.
    cbn [length]. revert IH He.
    generalize (length (flat_map (entry_quads self Col) entries)).
    generalize (length (List.filter
                          (fun e : Z * (Vec3 Z * Z) => (snd (snd e) =? Col)%Z) entries)).
    generalize (length (exposed self pos colID)). intros. lia.
  - cbn [length]. exact IH.
Qed.

(** X3: the mesh of a colour has at most six quads for each voxel of that
    colour, and none at all for a colour no voxel has; an object without
    voxels is passed over, [generate] returns before building anything. *)
Theorem quads_at_most_six_per_voxel (self : VoxelObject) (Col : Z) :
  (length (quads (mesh_of_color self Col)) <= 6 * count_color self Col)%nat
  /\ (count_color self Col = 0%nat -> quads (mesh_of_color self Col) = [])
  /\ (forall sz, generate (VoxelObject_init [] sz) = None).
Proof.
  assert (Hb := entries_quads_bound self Col (voxels self)).
  rewrite <- mesh_of_color_quads in Hb. fold (count_color self Col) in Hb.
  split; [exact Hb|]. split; [|reflexivity].
  intros H0. rewrite H0 in Hb.
  destruct (quads (mesh_of_color self Col)); [reflexivity | cbn in Hb; lia].
Qed.

Lemma quads_at_most_six_per_voxel_witness :
  quads (mesh_of_color cube_grid 2) = [].
Proof.
  refine (proj1 (proj2 (quads_at_most_six_per_voxel cube_grid 2)) _).
  reflexivity.
Defined.

(** ** Packed keys *)

Lemma index_injective_bytes (p q : Vec3 Z) :
  byte_position p -> byte_position q ->
  0 <= _index p < 2 ^ 24 /\ (_index p = _index q -> p = q).
Proof.
  destruct p as [x y z], q as [x' y' z'].
  unfold byte_position, byte_coord, _index. cbn [vx vy vz].
  intros (Hx & Hy & Hz) (Hx' & Hy' & Hz'). split; [lia|].
  intros He. assert (x = x' /\ y = y' /\ z = z') as (-> & -> & ->) by lia.
  reflexivity.
Qed.

(** X4: on positions whose coordinates fit a byte, the packed key is
    one-to-one and lies below 2^24: two such positions with the same key are
    the same position. *)
Theorem index_injective_on_bytes (p q : Vec3 Z) :
  byte_position p -> byte_position q ->
  0 <= _index p < 2 ^ 24 /\ (_index p = _index q -> p = q).
Proof. apply index_injective_bytes. Qed.

Lemma index_injective_on_bytes_witness :
  0 <= _index (mkVec3 255 255 255) < 2 ^ 24.
Proof.
  refine (proj1 (index_injective_on_bytes (mkVec3 255 255 255) (mkVec3 0 0 0) _ _));
    unfold byte_position, byte_coord; cbn; lia.
Defined.

Lemma getVox_same_key self p q : _index p = _index q -> getVox self p = getVox self q.
Proof. intros He. rewrite !getVox_get, He. reflexivity. Qed.

(** X5: the neighbour tests use packed keys of cells outside of the byte
    range, and these are the keys of other cells: the cell one step in +X of
    [(255, y, z)] is read as [(0, y + 1, z)], and the cell one step in -X of
    [(0, y, z)] as [(255, y - 1, z)].  So a voxel at [(255, y, z)] loses its +X
    face as soon as [(0, y + 1, z)] is occupied, though the two cells do not
    touch; two such voxels of one colour give 10 quads, not 12. *)
Theorem neighbour_test_wraps_around (self : VoxelObject) (y z colID : Z) :
  getVox self (neighbour (mkVec3 255 y z) PX) = getVox self (mkVec3 0 (y + 1) z)
  /\ getVox self (neighbour (mkVec3 0 y z) NX) = getVox self (mkVec3 255 (y - 1) z)
  /\ (getVox self (mkVec3 0 (y + 1) z) <> 0 ->
      ~ In PX (exposed self (mkVec3 255 y z) colID))
  /\ (forall c sz, c <> 0 ->
        length (all_quads (VoxelObject_init [(255, y, z, c); (0, y + 1, z, c)] sz))
        = 10%nat).
Proof.
  assert (H1 : getVox self (neighbour (mkVec3 255 y z) PX)
               = getVox self (mkVec3 0 (y + 1) z))
    by (apply getVox_same_key; key_ne).
  split; [exact H1|]. split; [apply getVox_same_key; key_ne|]. split.
  - intros Hocc Hin. apply exposed_iff in Hin.
    rewrite H1 in Hin. contradiction.
  - intros c sz Hc.
    set (g := VoxelObject_init [(255, y, z, c); (0, y + 1, z, c)] sz).
    assert (Hv : voxels g =
                 [(_index (mkVec3 255 y z), (mkVec3 255 y z, c));
                  (_index (mkVec3 0 (y + 1) z), (mkVec3 0 (y + 1) z, c))]).
    { unfold g, VoxelObject_init. simpl. rewrite decide_False by key_ne. reflexivity. }
    assert (Hu : used_colors g = [c]).
    { unfold g, VoxelObject_init. simpl. rewrite Z.eqb_refl. reflexivity. }
    assert (Ha : exposed g (mkVec3 255 y z) c = [PY; PZ; NX; NY; NZ])
      by pair_exposed Hv Hc.
    assert (Hb : exposed g (mkVec3 0 (y + 1) z) c = [PX; PY; PZ; NY; NZ])
      by pair_exposed Hv Hc.
    rewrite all_quads_by_color, Hu, Hv.
    cbn [flat_map entry_quads vx vy vz]. rewrite Z.eqb_refl, Ha, Hb.
    reflexivity.
Qed.

Lemma neighbour_test_wraps_around_witness :
  ~ In PX (exposed (VoxelObject_init [(255, 0, 0, 1); (0, 1, 0, 1)] (mkVec3 256 2 1))
             (mkVec3 255 0 0) 1).
Proof.
  refine (proj1 (proj2 (proj2 (neighbour_test_wraps_around _ 0 0 1))) _).
  vm_compute. discriminate.
Defined.

(** ** Voxel lists without repeated positions *)

Lemma key_of_position vox : key_of vox = _index (position_of vox).
Proof. destruct vox as [[[x y] z] c]. reflexivity. Qed.

Lemma entry_of_parts vox : entry_of vox = (position_of vox, color_of vox).
Proof. destruct vox as [[[x y] z] c]. reflexivity. Qed.

Lemma last_entry_None k Voxels :
  ~ In k (map key_of Voxels) -> last_entry k Voxels = None.
Proof.
  induction Voxels as [|v rest IH]; cbn [map last_entry]; [reflexivity|].
  intros Hn. rewrite IH by (intros Hin; apply Hn; right; exact Hin).
  destruct (key_of v =? k) eqn:E; [|reflexivity].
  apply Z.eqb_eq in E. exfalso. apply Hn. left. exact E.
Qed.

Lemma last_entry_unique vox Voxels :
  List.NoDup (map key_of Voxels) -> In vox Voxels ->
  last_entry (key_of vox) Voxels = Some (entry_of vox).
Proof.
  induction Voxels as [|v rest IH]; cbn [map last_entry]; [intros _ []|].
  intros Hnd Hin. inversion Hnd as [|k ks Hk Hnd']; subst.
  destruct Hin as [-> | Hin].
  - rewrite last_entry_None by exact Hk. rewrite Z.eqb_refl. reflexivity.
  - rewrite (IH Hnd' Hin). reflexivity.
Qed.

Lemma keys_NoDup Voxels :
  (forall vox, In vox Voxels -> byte_position (position_of vox)) ->
  List.NoDup (map position_of Voxels) -> List.NoDup (map key_of Voxels).
Proof.
  induction Voxels as [|v rest IH]; cbn [map]; intros Hb Hnd; [constructor|].
  inversion Hnd as [|p ps Hp Hnd']; subst. constructor.
  - intros Hin. apply Hp. apply in_map_iff in Hin as (w & Hw & Hin).
    apply in_map_iff. exists w. split; [|exact Hin].
    rewrite !key_of_position in Hw.
    assert (Hbw : byte_position (position_of w)) by (apply Hb; right; exact Hin).
    assert (Hbv : byte_position (position_of v)) by (apply Hb; left; reflexivity).
    destruct (position_of w) as [x y z], (position_of v) as [x' y' z'].
    unfold byte_position, byte_coord, _index in *. cbn [vx vy vz] in *.
    assert (x = x' /\ y = y' /\ z = z') as (-> & -> & ->) by lia. reflexivity.
  - apply IH; [|exact Hnd']. intros w Hw. apply Hb. right. exact Hw.
Qed.

Lemma dict_set_length_new {V} k (v : V) (d : Dict.t Z V) :
  Dict.get k d = None -> length (Dict.set k v d) = S (length d).
Proof.
  induction d as [|[k' v'] d IH]; cbn [Dict.get Dict.set length]; [reflexivity|].
  destruct (decide (k' = k)); [discriminate|].
  intros Hg. cbn [length]. rewrite IH by exact Hg. reflexivity.
Qed.

Lemma store_voxels_length Voxels : forall vs,
  List.NoDup (map key_of Voxels) ->
  (forall vox, In vox Voxels -> Dict.get (key_of vox) vs = None) ->
  length (fold_left store_voxel Voxels vs) = (length vs + length Voxels)%nat.
Proof.
  induction Voxels as [|v rest IH]; intros vs Hnd Hfresh; cbn [fold_left length map] in *.
  - lia.
  - inversion Hnd as [|k ks Hk Hnd']; subst.
    rewrite IH; [| exact Hnd' |].
    + unfold store_voxel. rewrite dict_set_length_new by (apply Hfresh; left; reflexivity).
      lia.
    + intros w Hw. unfold store_voxel. rewrite dict_get_set_ne.
      * apply Hfresh. right. exact Hw.
      * intros He. apply Hk. rewrite He. apply in_map. exact Hw.
Qed.

(** X6: for a voxel list whose coordinates fit a byte and that names no
    position twice, the grid holds exactly one entry for each voxel, [getVox]
    at the position of a listed voxel is the colour listed for it, and
    [getVox] at any other position within the byte range is 0. *)
Theorem getVox_of_listed_voxels (Voxels : list voxel) (sz : Vec3 Z) :
  (forall vox, In vox Voxels -> byte_position (position_of vox)) ->
  List.NoDup (map position_of Voxels) ->
  let self := VoxelObject_init Voxels sz in
  length (voxels self) = length Voxels
  /\ (forall vox, In vox Voxels -> getVox self (position_of vox) = color_of vox)
  /\ (forall pos, byte_position pos -> ~ In pos (map position_of Voxels) ->
                  getVox self pos = 0).
Proof.
  intros Hb Hnd self. pose proof (keys_NoDup Voxels Hb Hnd) as Hk.
  split; [|split].
  - unfold self. destruct (VoxelObject_init_fields Voxels sz) as [-> _].
    rewrite store_voxels_length; [reflexivity | exact Hk | reflexivity].
  - intros vox Hin. unfold self. rewrite getVox_get, voxels_last_entry.
    rewrite <- key_of_position, (last_entry_unique vox Voxels Hk Hin).
    rewrite entry_of_parts. reflexivity.
  - intros pos Hp Hn. unfold self. rewrite getVox_get, voxels_last_entry.
    destruct (last_entry (_index pos) Voxels) as [[p c]|] eqn:E; [|reflexivity].
    exfalso. apply last_entry_In in E as (w & Hw & Hkw & _).
    apply Hn. apply in_map_iff. exists w. split; [|exact Hw].
    rewrite key_of_position in Hkw.
    apply (proj2 (index_injective_bytes (position_of w) pos (Hb w Hw) Hp)).
    exact Hkw.
Qed.

Lemma getVox_of_listed_voxels_witness :
  getVox cube_grid (mkVec3 1 0 1) = 1.
Proof.
  refine (proj1 (proj2 (getVox_of_listed_voxels cube_voxels (mkVec3 2 2 2) _ _))
            (1, 0, 1, 1) _).
  - intros vox Hin. unfold byte_position, byte_coord.
    repeat (destruct Hin as [<- | Hin]; [cbn; lia|]). destruct Hin.
  - repeat constructor; cbn; intuition discriminate.
  - cbn. tauto.
Defined.

(** ** Payloads: what the readers consume *)

Lemma read_content_app content size :
  fst (read_content content size) ++ snd (read_content content size) = content.
Proof. unfold read_content. cbn [fst snd]. apply firstn_skipn. Qed.

(** X7: [read_content] cuts the payload in two without losing a byte: what it
    returns followed by what it leaves is the payload it was given.  For a
    size of 0 or more it returns that many bytes, or all of them when the
    payload is shorter; for a negative size it returns all but the last
    [-size] bytes, as the slice [content[:size]] does. *)
Theorem read_content_splits (content : bytes) (size : Z) :
  fst (read_content content size) ++ snd (read_content content size) = content
  /\ (0 <= size -> len (fst (read_content content size)) = Z.min size (len content))
  /\ (size < 0 ->
      len (fst (read_content content size)) = Z.max 0 (len content + size)).
Proof.
  split; [apply read_content_app|].
  unfold read_content, slice_len, len. cbn [fst]. split; intros Hs.
  - rewrite (proj2 (Z.leb_le _ _) Hs), length_firstn. lia.
  - destruct (0 <=? size) eqn:E; [apply Z.leb_le in E; lia|].
    rewrite length_firstn. lia.
Qed.

Lemma read_content_splits_witness :
  len (fst (read_content (B "abcdef") (-2))) = 4.
Proof.
  refine (proj2 (proj2 (read_content_splits (B "abcdef") (-2))) _). lia.
Defined.

Lemma byte_val_byte_of u : byte_val (byte_of u) = u mod 256.
Proof.
  unfold byte_of, byte_val.
  pose proof (Z.mod_pos_bound u 256 ltac:(lia)) as Hm.
  destruct (Byte.of_N (Z.to_N (u mod 256))) as [b|] eqn:E.
  - apply Byte.to_of_N in E. rewrite E. apply Z2N.id. lia.
  - apply Byte.of_N_None_iff in E. lia.
Qed.

Lemma int32_pack_i n : int32_range n -> int32 (pack_i n) = n.
Proof.
  unfold int32_range. intros Hn. unfold int32, pack_i. cbn [le_unsigned].
  rewrite !byte_val_byte_of.
  change (2 ^ 8) with 256. change (2 ^ 16) with 65536.
  change (2 ^ 24) with 16777216. change (2 ^ 31) with 2147483648 in *.
  change (2 ^ 32) with 4294967296.
  set (u := n mod 4294967296).
  assert (Hu : 0 <= u < 4294967296) by (apply Z.mod_pos_bound; lia).
  assert (Hsum : u mod 256 + 256 * ((u / 256) mod 256 + 256 * ((u / 65536) mod 256
                 + 256 * ((u / 16777216) mod 256 + 256 * 0))) = u)
    by (Z.to_euclidean_division_equations; lia).
  rewrite Hsum.
  destruct (u <? 2147483648) eqn:E;
    [apply Z.ltb_lt in E | apply Z.ltb_ge in E];
    unfold u in *; Z.to_euclidean_division_equations; lia.
Qed.

Lemma read_int_pack n rest :
  int32_range n -> read_int (pack_i n ++ rest) = Ok (n, rest).
Proof.
  intros Hn. unfold read_int, read_content, slice_len.
  change (0 <=? 4) with true. change (Z.to_nat 4) with 4%nat. cbv iota.
  change (firstn 4 (pack_i n ++ rest)) with (pack_i n).
  change (skipn 4 (pack_i n ++ rest)) with rest.
  unfold unpack_i. change (sized 4 (pack_i n)) with (Ok (pack_i n)).
  cbn [mbind result_bind]. rewrite int32_pack_i by exact Hn. reflexivity.
Qed.

Lemma len_range {A} (l : list A) : len l < 2 ^ 31 -> int32_range (len l).
Proof. unfold int32_range, len. lia. Qed.

Lemma read_chars_app b rest : read_chars (b ++ rest) (len b) = Ok (b, rest).
Proof.
  unfold read_chars, read_content, slice_len, len.
  rewrite (proj2 (Z.leb_le 0 (Z.of_nat (length b)))) by lia.
  rewrite Nat2Z.id, take_app_length, drop_app_length.
  unfold unpack_nc. rewrite (proj2 (Z.ltb_ge (Z.of_nat (length b)) 0)) by lia.
  rewrite Nat2Z.id, sized_ok by reflexivity. reflexivity.
Qed.

Lemma read_dict_entries_packed entries : forall d rest,
  Forall short_entry entries ->
  read_dict_entries (length entries) d (flat_map pack_entry entries ++ rest)
  = Ok (fold_left (fun d kv => Dict.set (fst kv) (snd kv) d) entries d, rest).
Proof.
  induction entries as [|[k v] entries IH]; intros d rest Hs;
    cbn [length flat_map fold_left read_dict_entries]; [reflexivity|].
  inversion Hs as [|kv l [Hk Hv] Hs']; subst. cbn [fst snd] in *.
  unfold pack_entry, pack_bytes. cbn [fst snd]. rewrite <- !app_assoc.
  rewrite read_int_pack by (apply len_range, Hk). cbn [mbind result_bind].
  rewrite read_chars_app. cbn [mbind result_bind].
  rewrite read_int_pack by (apply len_range, Hv). cbn [mbind result_bind].
  rewrite read_chars_app. cbn [mbind result_bind].
  apply IH. exact Hs'.
Qed.

(** X8: [read_dict] reads back a dictionary as it is packed on the wire: the
    number of entries, then for each entry the length and the bytes of the
    key and of the value.  It returns the [dict] that assigning the entries
    in their order builds (a repeated key keeps its first place and its last
    value) and leaves exactly the bytes that follow the dictionary. *)
Theorem read_dict_of_packed (entries : list (bytes * bytes)) (rest : bytes) :
  len entries < 2 ^ 31 -> Forall short_entry entries ->
  read_dict (pack_dict entries ++ rest) = Ok (dict_of_entries entries, rest).
Proof.
  intros Hn Hs. unfold read_dict, pack_dict. rewrite <- app_assoc.
  rewrite read_int_pack by (apply len_range, Hn). cbn [mbind result_bind].
  unfold len. rewrite Nat2Z.id. apply read_dict_entries_packed. exact Hs.
Qed.

Lemma read_dict_of_packed_witness :
  read_dict (pack_dict [(B "_t", B "1 2 3"); (B "_r", B "4"); (B "_t", B "0 0 0")]
             ++ B "rest")
  = Ok ([(B "_t", B "0 0 0"); (B "_r", B "4")], B "rest").
Proof.
  refine (read_dict_of_packed
            [(B "_t", B "1 2 3"); (B "_r", B "4"); (B "_t", B "0 0 0")] (B "rest") _ _).
  - vm_compute. reflexivity.
  - repeat constructor; vm_compute; reflexivity.
Defined.

Lemma read_dict_short entries rest :
  short_dict entries ->
  read_dict (pack_dict entries ++ rest) = Ok (dict_of_entries entries, rest).
Proof.
  intros [Hn Hs]. unfold read_dict, pack_dict. rewrite <- app_assoc.
  rewrite read_int_pack by (apply len_range, Hn). cbn [mbind result_bind].
  unfold len. rewrite Nat2Z.id. apply read_dict_entries_packed. exact Hs.
Qed.

Lemma read_int_consumes content v rest :
  read_int content = Ok (v, rest) ->
  exists used, content = used ++ rest /\ length used = 4%nat.
Proof.
  unfold read_int. destruct (read_content content 4) as [out c] eqn:E.
  unfold unpack_i. destruct (sized 4 out) as [bs|] eqn:Es; [|discriminate].
  cbn [mbind result_bind]. intros [= <- <-].
  apply sized_length in Es as [_ Hl]. exists out. split; [|exact Hl].
  pose proof (read_content_app content 4) as Ha. rewrite E in Ha. symmetry. exact Ha.
Qed.

Lemma read_int_error content e : read_int content = Raise e -> e = StructError.
Proof.
  unfold read_int. destruct (read_content content 4) as [out c].
  unfold unpack_i, sized. destruct (Nat.eqb (length out) 4); [discriminate|].
  cbn [mbind result_bind]. intros [= <-]. reflexivity.
Qed.

Lemma read_chars_consumes content n v rest :
  read_chars content n = Ok (v, rest) -> content = v ++ rest.
Proof.
  unfold read_chars. destruct (read_content content n) as [out c] eqn:E.
  unfold unpack_nc. destruct (n <? 0); [discriminate|].
  destruct (sized (Z.to_nat n) out) as [bs|] eqn:Es; [|discriminate].
  cbn [mbind result_bind]. intros [= <- <-].
  apply sized_length in Es as [-> _].
  pose proof (read_content_app content n) as Ha. rewrite E in Ha. symmetry. exact Ha.
Qed.

Lemma read_chars_error content n e : read_chars content n = Raise e -> e = StructError.
Proof.
  unfold read_chars. destruct (read_content content n) as [out c].
  unfold unpack_nc, sized. destruct (n <? 0); [intros [= <-]; reflexivity|].
  destruct (Nat.eqb (length out) (Z.to_nat n)); [discriminate|].
  cbn [mbind result_bind]. intros [= <-]. reflexivity.
Qed.

Lemma read_dict_entries_consumes n : forall d content d' rest,
  read_dict_entries n d content = Ok (d', rest) ->
  exists used, content = used ++ rest.
Proof.
  induction n as [|n IH]; intros d content d' rest; cbn [read_dict_entries].
  - intros [= <- <-]. exists []. reflexivity.
  - destruct (read_int content) as [[kb c1]|] eqn:E1; [|discriminate].
    cbn [mbind result_bind].
    destruct (read_chars c1 kb) as [[k c2]|] eqn:E2; [|discriminate].
    cbn [mbind result_bind].
    destruct (read_int c2) as [[vb c3]|] eqn:E3; [|discriminate].
    cbn [mbind result_bind].
    destruct (read_chars c3 vb) as [[v c4]|] eqn:E4; [|discriminate].
    cbn [mbind result_bind]. intros Hr.
    apply IH in Hr as (u5 & ->).
    apply read_int_consumes in E1 as (u1 & -> & _).
    apply read_chars_consumes in E2 as ->.
    apply read_int_consumes in E3 as (u3 & -> & _).
    apply read_chars_consumes in E4 as ->.
    exists (u1 ++ k ++ u3 ++ v ++ u5). rewrite <- !app_assoc. reflexivity.
Qed.

Lemma read_dict_entries_error n : forall d content e,
  read_dict_entries n d content = Raise e -> e = StructError.
Proof.
  induction n as [|n IH]; intros d content e; cbn [read_dict_entries]; [discriminate|].
  destruct (read_int content) as [[kb c1]|] eqn:E1;
    [|cbn [mbind result_bind]; intros [= <-]; apply (read_int_error _ _ E1)].
  cbn [mbind result_bind].
  destruct (read_chars c1 kb) as [[k c2]|] eqn:E2;
    [|cbn [mbind result_bind]; intros [= <-]; apply (read_chars_error _ _ _ E2)].
  cbn [mbind result_bind].
  destruct (read_int c2) as [[vb c3]|] eqn:E3;
    [|cbn [mbind result_bind]; intros [= <-]; apply (read_int_error _ _ E3)].
  cbn [mbind result_bind].
  destruct (read_chars c3 vb) as [[v c4]|] eqn:E4;
    [|cbn [mbind result_bind]; intros [= <-]; apply (read_chars_error _ _ _ E4)].
  cbn [mbind result_bind]. apply IH.
Qed.

Lemma byte_val_range b : 0 <= byte_val b < 256.
Proof.
  unfold byte_val. pose proof (Byte.to_N_bounded b). lia.
Qed.

Lemma byte_of_byte_val x b : x mod 256 = byte_val b -> byte_of x = b.
Proof.
  intros Hx. unfold byte_of. rewrite Hx. unfold byte_val.
  rewrite N2Z.id, Byte.of_to_N. reflexivity.
Qed.

(** Four bytes are the packing of the integer they are unpacked to. *)
Lemma pack_i_int32 bs :
  length bs = 4%nat -> pack_i (int32 bs) = bs /\ int32_range (int32 bs).
Proof.
  destruct bs as [|a [|b [|c [|d [|? ?]]]]]; try discriminate. intros _.
  unfold int32, pack_i, int32_range. cbn [le_unsigned].
  pose proof (byte_val_range a). pose proof (byte_val_range b).
  pose proof (byte_val_range c). pose proof (byte_val_range d).
  change (2 ^ 8) with 256. change (2 ^ 16) with 65536.
  change (2 ^ 24) with 16777216. change (2 ^ 31) with 2147483648.
  change (2 ^ 32) with 4294967296.
  set (u := byte_val a + 256 * (byte_val b + 256 * (byte_val c
            + 256 * (byte_val d + 256 * 0)))).
  assert (Hu : 0 <= u < 4294967296) by (unfold u; lia).
  assert (Hm : (if u <? 2147483648 then u else u - 4294967296) mod 4294967296 = u).
  { destruct (u <? 2147483648); [apply Z.mod_small; lia|].
    replace (u - 4294967296) with (u + (-1) * 4294967296) by lia.
    rewrite Z.mod_add by lia. apply Z.mod_small. lia. }
  rewrite Hm. split.
  - repeat f_equal; apply byte_of_byte_val; unfold u;
      Z.to_euclidean_division_equations; lia.
  - destruct (u <? 2147483648) eqn:E;
      [apply Z.ltb_lt in E | apply Z.ltb_ge in E]; lia.
Qed.

Lemma read_int_exact content v rest :
  read_int content = Ok (v, rest) -> content = pack_i v ++ rest /\ int32_range v.
Proof.
  unfold read_int. destruct (read_content content 4) as [out c] eqn:E.
  unfold unpack_i. destruct (sized 4 out) as [bs|] eqn:Es; [|discriminate].
  cbn [mbind result_bind]. intros [= <- <-].
  apply sized_length in Es as [-> Hl].
  destruct (pack_i_int32 out Hl) as [Hp Hr]. rewrite Hp. split; [|exact Hr].
  pose proof (read_content_app content 4) as Ha. rewrite E in Ha. symmetry. exact Ha.
Qed.

Lemma read_chars_exact content n v rest :
  read_chars content n = Ok (v, rest) -> content = v ++ rest /\ len v = n.
Proof.
  unfold read_chars. destruct (read_content content n) as [out c] eqn:E.
  unfold unpack_nc. destruct (n <? 0) eqn:En; [discriminate|].
  destruct (sized (Z.to_nat n) out) as [bs|] eqn:Es; [|discriminate].
  cbn [mbind result_bind]. intros [= <- <-].
  apply sized_length in Es as [-> Hl]. apply Z.ltb_ge in En. split.
  - pose proof (read_content_app content n) as Ha. rewrite E in Ha. symmetry. exact Ha.
  - unfold len. rewrite Hl. lia.
Qed.

(** A declared length that is negative or runs past the payload. *)
Lemma read_chars_overlong content n :
  n < 0 \/ len content < n -> read_chars content n = Raise StructError.
Proof.
  intros Hn. unfold read_chars, read_content, unpack_nc.
  destruct (n <? 0) eqn:En; [reflexivity|]. apply Z.ltb_ge in En.
  rewrite sized_raise; [reflexivity|].
  unfold slice_len, len in *. rewrite (proj2 (Z.leb_le 0 n)) by lia.
  rewrite length_firstn. lia.
Qed.

Lemma read_dict_entries_exact n : forall d content d' rest,
  read_dict_entries n d content = Ok (d', rest) ->
  exists entries,
    content = flat_map pack_entry entries ++ rest
    /\ length entries = n /\ Forall short_entry entries
    /\ d' = fold_left (fun d kv => Dict.set (fst kv) (snd kv) d) entries d.
Proof.
  induction n as [|n IH]; intros d content d' rest; cbn [read_dict_entries].
  - intros [= <- <-]. exists []. repeat split. constructor.
  - destruct (read_int content) as [[kb c1]|] eqn:E1; [|discriminate].
    cbn [mbind result_bind].
    destruct (read_chars c1 kb) as [[k c2]|] eqn:E2; [|discriminate].
    cbn [mbind result_bind].
    destruct (read_int c2) as [[vb c3]|] eqn:E3; [|discriminate].
    cbn [mbind result_bind].
    destruct (read_chars c3 vb) as [[v c4]|] eqn:E4; [|discriminate].
    cbn [mbind result_bind]. intros Hr.
    apply IH in Hr as (entries & -> & Hlen & Hs & ->).
    apply read_int_exact in E1 as [-> Hkb].
    apply read_chars_exact in E2 as [-> Hk].
    apply read_int_exact in E3 as [-> Hvb].
    apply read_chars_exact in E4 as [-> Hv].
    exists ((k, v) :: entries). cbn [flat_map length fold_left fst snd].
    subst kb vb.
    change (pack_entry (k, v)) with ((pack_i (len k) ++ k) ++ pack_i (len v) ++ v).
    rewrite <- !app_assoc.
    split; [reflexivity|]. split; [congruence|]. split; [|reflexivity].
    constructor; [|exact Hs]. unfold short_entry, int32_range in *. cbn [fst snd]. lia.
Qed.

Lemma read_dict_entries_app entries : forall k d rest,
  Forall short_entry entries ->
  read_dict_entries (length entries + k) d (flat_map pack_entry entries ++ rest)
  = read_dict_entries k
      (fold_left (fun d kv => Dict.set (fst kv) (snd kv) d) entries d) rest.
Proof.
  induction entries as [|[key v] entries IH]; intros k d rest Hs;
    cbn [length flat_map fold_left Nat.add]; [reflexivity|].
  inversion Hs as [|kv l [Hk Hv] Hs']; subst. cbn [fst snd] in *.
  cbn [read_dict_entries].
  unfold pack_entry, pack_bytes. cbn [fst snd]. rewrite <- !app_assoc.
  rewrite read_int_pack by (apply len_range, Hk). cbn [mbind result_bind].
  rewrite read_chars_app. cbn [mbind result_bind].
  rewrite read_int_pack by (apply len_range, Hv). cbn [mbind result_bind].
  rewrite read_chars_app. cbn [mbind result_bind].
  apply IH. exact Hs'.
Qed.

(** X9: [read_dict] takes exactly what it is told to.  When it succeeds, the
    payload it was given is an entry count, that many entries with each key
    and each value in full behind its length, and the payload it leaves; the
    dictionary is the one the entries build.  On a payload of fewer than 4
    bytes it raises, and whenever it raises, the exception is
    [struct.error]; it raises when the length of a key or of a value is
    negative or runs past the payload, so such a length is never read as a
    shorter key or value. *)
Theorem read_dict_consumes_a_prefix (content : bytes) :
  (forall dict rest, read_dict content = Ok (dict, rest) ->
     exists used, content = used ++ rest /\ (4 <= length used)%nat)
  /\ ((length content < 4)%nat -> read_dict content = Raise StructError)
  /\ (forall e, read_dict content = Raise e -> e = StructError)
  /\ (forall dict rest, read_dict content = Ok (dict, rest) ->
        exists n entries,
          content = pack_i n ++ flat_map pack_entry entries ++ rest
          /\ int32_range n /\ length entries = Z.to_nat n
          /\ Forall short_entry entries
          /\ dict = dict_of_entries entries)
  /\ (forall entries (more : nat) klen tail,
        Forall short_entry entries ->
        int32_range (len entries + 1 + Z.of_nat more) -> int32_range klen ->
        klen < 0 \/ len tail < klen ->
        content = pack_i (len entries + 1 + Z.of_nat more)
                  ++ flat_map pack_entry entries ++ pack_i klen ++ tail ->
        read_dict content = Raise StructError)
  /\ (forall entries (more : nat) key vlen tail,
        Forall short_entry entries ->
        int32_range (len entries + 1 + Z.of_nat more) ->
        len key < 2 ^ 31 -> int32_range vlen ->
        vlen < 0 \/ len tail < vlen ->
        content = pack_i (len entries + 1 + Z.of_nat more)
                  ++ flat_map pack_entry entries
                  ++ pack_bytes key ++ pack_i vlen ++ tail ->
        read_dict content = Raise StructError).
Proof.
  repeat apply conj.
  - intros dict rest. unfold read_dict.
    destruct (read_int content) as [[n c1]|] eqn:E1; [|discriminate].
    cbn [mbind result_bind]. intros Hr.
    apply read_dict_entries_consumes in Hr as (u2 & ->).
    apply read_int_consumes in E1 as (u1 & -> & Hl).
    exists (u1 ++ u2). rewrite <- app_assoc. split; [reflexivity|].
    rewrite length_app. lia.
  - intros Hl. unfold read_dict, read_int, read_content, slice_len.
    change (0 <=? 4) with true. change (Z.to_nat 4) with 4%nat. cbv iota.
    unfold unpack_i. rewrite sized_raise; [reflexivity|].
    rewrite length_firstn. lia.
  - intros e. unfold read_dict.
    destruct (read_int content) as [[n c1]|] eqn:E1;
      [|cbn [mbind result_bind]; intros [= <-]; apply (read_int_error _ _ E1)].
    cbn [mbind result_bind]. apply read_dict_entries_error.
  - intros dict rest. unfold read_dict.
    destruct (read_int content) as [[n c1]|] eqn:E1; [|discriminate].
    cbn [mbind result_bind]. intros Hr.
    apply read_int_exact in E1 as [-> Hn].
    apply read_dict_entries_exact in Hr as (entries & -> & Hlen & Hs & ->).
    exists n, entries. split; [reflexivity|]. split; [exact Hn|].
    split; [exact Hlen|]. split; [exact Hs | reflexivity].
  - intros entries more klen tail Hs Hn Hk Hover ->. unfold read_dict.
    rewrite read_int_pack by exact Hn. cbn [mbind result_bind].
    replace (Z.to_nat (len entries + 1 + Z.of_nat more))
      with (length entries + S more)%nat by (unfold len; lia).
    rewrite read_dict_entries_app by exact Hs. cbn [read_dict_entries].
    rewrite read_int_pack by exact Hk. cbn [mbind result_bind].
    rewrite read_chars_overlong by exact Hover. reflexivity.
  - intros entries more key vlen tail Hs Hn Hkey Hv Hover ->. unfold read_dict.
    rewrite read_int_pack by exact Hn. cbn [mbind result_bind].
    replace (Z.to_nat (len entries + 1 + Z.of_nat more))
      with (length entries + S more)%nat by (unfold len; lia).
    rewrite read_dict_entries_app by exact Hs. cbn [read_dict_entries].
    unfold pack_bytes. rewrite <- app_assoc.
    rewrite read_int_pack by (apply len_range, Hkey). cbn [mbind result_bind].
    rewrite read_chars_app. cbn [mbind result_bind].
    rewrite read_int_pack by exact Hv. cbn [mbind result_bind].
    rewrite read_chars_overlong by exact Hover. reflexivity.
Qed.

Lemma read_dict_consumes_a_prefix_witness :
  read_dict (B "abc") = Raise StructError
  /\ read_dict (pack_i (len (@nil (bytes * bytes)) + 1 + Z.of_nat 0)
                ++ flat_map pack_entry [] ++ pack_bytes (B "k") ++ pack_i 9 ++ B "ab")
     = Raise StructError.
Proof.
  split.
  - refine (proj1 (proj2 (read_dict_consumes_a_prefix (B "abc"))) _).
    vm_compute. lia.
  - refine (proj2 (proj2 (proj2 (proj2 (proj2 (read_dict_consumes_a_prefix _)))))
              [] 0%nat (B "k") 9 (B "ab") _ _ _ _ _ eq_refl).
    + constructor.
    + vm_compute. split; [discriminate | reflexivity].
    + vm_compute. reflexivity.
    + vm_compute. split; [discriminate | reflexivity].
    + right. vm_compute. reflexivity.
Defined.

(** ** Chunks: round trip and negative lengths *)

Lemma read_chunk_after_header (f : stream) :
  (12 <= length (remaining f))%nat ->
  read_chunk f
  = ('(content, buffer) ← file_read {| data := data f; tell := (tell f + 12)%nat |}
                            (int32 (sub 4 4 (firstn 12 (remaining f))));
     Ok (sub 0 4 (firstn 12 (remaining f)), content, buffer)).
Proof.
  intros Hlen.
  assert (Hh : length (firstn 12 (remaining f)) = 12%nat)
    by (rewrite length_firstn; lia).
  assert (H1 : file_read f 12
               = Ok (firstn 12 (remaining f),
                     {| data := data f; tell := (tell f + 12)%nat |})).
  { unfold file_read. change (12 <? -1) with false. change (12 =? -1) with false.
    cbv iota. change (Z.to_nat 12) with 12%nat. rewrite Hh. reflexivity. }
  unfold read_chunk. rewrite H1. cbn [mbind result_bind].
  unfold unpack_4cii. rewrite (sized_ok 12 _ Hh). reflexivity.
Qed.

Lemma remaining_after_header (f : stream) :
  remaining {| data := data f; tell := (tell f + 12)%nat |} = skipn 12 (remaining f).
Proof. unfold remaining. cbn [data tell]. rewrite skipn_skipn. f_equal. lia. Qed.

Lemma read_chunk_packed (before name payload after : bytes) :
  length name = 4%nat -> len payload < 2 ^ 31 ->
  read_chunk {| data := before ++ pack_chunk name payload ++ after;
                tell := length before |}
  = Ok (name, payload,
        {| data := before ++ pack_chunk name payload ++ after;
           tell := (length before + 12 + length payload)%nat |}).
Proof.
  intros Hname Hp. set (file := before ++ pack_chunk name payload ++ after).
  destruct name as [|a [|b [|c [|d [|? ?]]]]]; try discriminate.
  set (f := {| data := file; tell := length before |}).
  assert (Hrem : remaining f
                 = [a; b; c; d] ++ pack_i (len payload) ++ pack_i 0 ++ payload ++ after).
  { unfold f, remaining, file, pack_chunk. cbn [data tell].
    rewrite drop_app_length, <- !app_assoc. reflexivity. }
  assert (Hlen : (12 <= length (remaining f))%nat).
  { rewrite Hrem.
    change (length ([a; b; c; d] ++ pack_i (len payload) ++ pack_i 0 ++ payload ++ after))
      with (12 + length (payload ++ after))%nat. lia. }
  rewrite (read_chunk_after_header f Hlen), Hrem.
  change (firstn 12 ([a; b; c; d] ++ pack_i (len payload) ++ pack_i 0 ++ payload ++ after))
    with ([a; b; c; d] ++ pack_i (len payload) ++ pack_i 0).
  change (sub 4 4 ([a; b; c; d] ++ pack_i (len payload) ++ pack_i 0))
    with (pack_i (len payload)).
  change (sub 0 4 ([a; b; c; d] ++ pack_i (len payload) ++ pack_i 0))
    with [a; b; c; d].
  rewrite int32_pack_i by (apply len_range, Hp).
  unfold file_read.
  rewrite (proj2 (Z.ltb_ge (len payload) (-1))) by (unfold len; lia).
  rewrite (proj2 (Z.eqb_neq (len payload) (-1))) by (unfold len; lia).
  rewrite remaining_after_header, Hrem.
  change (skipn 12 ([a; b; c; d] ++ pack_i (len payload) ++ pack_i 0 ++ payload ++ after))
    with (payload ++ after).
  unfold len. rewrite Nat2Z.id, take_app_length.
  cbn [mbind result_bind data tell f]. reflexivity.
Qed.

(** X10: [read_chunk] reads back a chunk as it is packed in a file: from the
    position where the chunk starts it returns the 4 bytes of the name and
    exactly the payload, whatever follows the chunk, and leaves the file at
    the first byte after the payload. *)
Theorem read_chunk_of_packed (before name payload after : bytes) :
  length name = 4%nat -> len payload < 2 ^ 31 ->
  let file := before ++ pack_chunk name payload ++ after in
  read_chunk {| data := file; tell := length before |}
  = Ok (name, payload,
        {| data := file; tell := (length before + 12 + length payload)%nat |}).
Proof. intros Hname Hp file. apply read_chunk_packed; assumption. Qed.

Lemma read_chunk_of_packed_witness :
  read_chunk {| data := B "junk" ++ pack_chunk (B "SIZE") (B "0123") ++ B "XYZI";
                tell := 4 |}
  = Ok (B "SIZE", B "0123",
        {| data := B "junk" ++ pack_chunk (B "SIZE") (B "0123") ++ B "XYZI";
           tell := 20 |}).
Proof.
  refine (read_chunk_of_packed (B "junk") (B "SIZE") (B "0123") (B "XYZI") _ _).
  - reflexivity.
  - vm_compute. reflexivity.
Defined.

(** X11: a chunk header with a negative payload length is not refused as
    such.  The length -1 makes [read_chunk] take the whole rest of the file
    as the payload, and any length below -1 makes the read raise a
    [ValueError]. *)
Theorem read_chunk_negative_length (f : stream) :
  (12 <= length (remaining f))%nat ->
  let hdr := firstn 12 (remaining f) in
  let h_size := int32 (sub 4 4 hdr) in
  (h_size = -1 ->
   read_chunk f = Ok (sub 0 4 hdr, skipn 12 (remaining f),
                      {| data := data f; tell := file_size f |}))
  /\ (h_size < -1 -> read_chunk f = Raise ValueError).
Proof.
  intros Hlen hdr h_size. rewrite (read_chunk_after_header f Hlen).
  fold hdr h_size. unfold file_read. split; intros Hs.
  - rewrite Hs. change (-1 <? -1) with false. change (-1 =? -1) with true.
    cbv iota. rewrite remaining_after_header. cbn [mbind result_bind data tell].
    repeat f_equal. rewrite length_skipn. unfold remaining in *.
    rewrite length_skipn in *. unfold file_size. lia.
  - rewrite (proj2 (Z.ltb_lt h_size (-1)) Hs). reflexivity.
Qed.

Lemma read_chunk_negative_length_witness :
  read_chunk {| data := B "SIZE" ++ pack_i (-7) ++ pack_i 0 ++ B "abc"; tell := 0 |}
  = Raise ValueError.
Proof.
  refine (proj2 (read_chunk_negative_length
                   {| data := B "SIZE" ++ pack_i (-7) ++ pack_i 0 ++ B "abc"; tell := 0 |}
                   _) _).
  - vm_compute. lia.
  - vm_compute. reflexivity.
Defined.

(** ** The file header and the chunk loop *)

(** [read_header] on a file with at least 20 bytes left: the three checks on
    the bytes at the offsets 0, 4, 8 and 12, and 20 bytes read. *)
Lemma read_header_checks (f : stream) :
  (20 <= length (remaining f))%nat ->
  read_header f
  = (_ ← assert (bytes_eqb (sub 0 4 (remaining f)) (B "VOX ")
                 && (int32 (sub 4 4 (remaining f)) =? 150));
     _ ← assert (bytes_eqb (sub 8 4 (remaining f)) (B "MAIN"));
     _ ← assert (int32 (sub 12 4 (remaining f)) =? 0);
     Ok {| data := data f; tell := (tell f + 20)%nat |}).
Proof.
  intros Hlen. unfold read_header, file_read.
  change (8 <? -1) with false. change (8 =? -1) with false.
  change (4 <? -1) with false. change (4 =? -1) with false.
  cbn [mbind result_bind]. change (Z.to_nat 8) with 8%nat.
  change (Z.to_nat 4) with 4%nat.
  set (r := remaining f) in *.
  assert (H8 : length (firstn 8 r) = 8%nat) by (rewrite length_firstn; lia).
  unfold unpack_4ci. rewrite (sized_ok 8 (firstn 8 r) H8). cbn [mbind result_bind].
  assert (E0 : sub 0 4 (firstn 8 r) = sub 0 4 r).
  { unfold sub. change (skipn 0 (firstn 8 r)) with (firstn 8 r).
    change (skipn 0 r) with r. rewrite firstn_firstn. reflexivity. }
  assert (E4 : sub 4 4 (firstn 8 r) = sub 4 4 r).
  { unfold sub. rewrite skipn_firstn_comm. cbn [Nat.sub]. rewrite firstn_firstn.
    reflexivity. }
  rewrite E0, E4.
  destruct (assert _) as [[]|e]; [|reflexivity]. cbn [mbind result_bind].
  rewrite H8.
  assert (R1 : remaining {| data := data f; tell := (tell f + 8)%nat |} = skipn 8 r)
    by (unfold r, remaining; cbn [data tell]; rewrite skipn_skipn; f_equal; lia).
  rewrite R1.
  assert (H4 : length (firstn 4 (skipn 8 r)) = 4%nat)
    by (rewrite length_firstn, length_skipn; lia).
  unfold unpack_4c. rewrite (sized_ok 4 (firstn 4 (skipn 8 r)) H4).
  cbn [mbind result_bind].
  change (firstn 4 (skipn 8 r)) with (sub 8 4 r) in *.
  destruct (assert (bytes_eqb (sub 8 4 r) (B "MAIN"))) as [[]|e]; [|reflexivity].
  cbn [mbind result_bind data tell]. rewrite H4.
  assert (R2 : remaining {| data := data f; tell := (tell f + 8 + 4)%nat |} = skipn 12 r)
    by (unfold r, remaining; cbn [data tell]; rewrite skipn_skipn; f_equal; lia).
  rewrite R2.
  assert (H8' : length (firstn 8 (skipn 12 r)) = 8%nat)
    by (rewrite length_firstn, length_skipn; lia).
  unfold unpack_ii. rewrite (sized_ok 8 (firstn 8 (skipn 12 r)) H8').
  cbn [mbind result_bind].
  assert (E12 : sub 0 4 (firstn 8 (skipn 12 r)) = sub 12 4 r).
  { unfold sub. change (skipn 0 (firstn 8 (skipn 12 r))) with (firstn 8 (skipn 12 r)).
    rewrite firstn_firstn. reflexivity. }
  rewrite E12.
  destruct (assert _) as [[]|e]; [|reflexivity]. cbn [mbind result_bind data tell].
  rewrite H8'. do 2 f_equal. lia.
Qed.

Lemma read_header_short (f : stream) :
  (length (remaining f) < 20)%nat -> is_ok (read_header f) = false.
Proof.
  intros Hlen. unfold read_header, file_read.
  change (8 <? -1) with false. change (8 =? -1) with false.
  change (4 <? -1) with false. change (4 =? -1) with false.
  cbn [mbind result_bind]. change (Z.to_nat 8) with 8%nat.
  change (Z.to_nat 4) with 4%nat.
  set (r := remaining f) in *.
  unfold unpack_4ci.
  destruct (sized 8 (firstn 8 r)) as [h1|] eqn:E1; [|reflexivity].
  apply sized_length in E1 as [-> H8]. cbn [mbind result_bind].
  destruct (assert _) as [[]|e]; [|reflexivity]. cbn [mbind result_bind].
  rewrite H8.
  assert (R1 : remaining {| data := data f; tell := (tell f + 8)%nat |} = skipn 8 r)
    by (unfold r, remaining; cbn [data tell]; rewrite skipn_skipn; f_equal; lia).
  rewrite R1. unfold unpack_4c.
  destruct (sized 4 (firstn 4 (skipn 8 r))) as [h2|] eqn:E2; [|reflexivity].
  apply sized_length in E2 as [-> H4]. cbn [mbind result_bind].
  destruct (assert _) as [[]|e]; [|reflexivity]. cbn [mbind result_bind data tell].
  rewrite H4.
  assert (R2 : remaining {| data := data f; tell := (tell f + 8 + 4)%nat |} = skipn 12 r)
    by (unfold r, remaining; cbn [data tell]; rewrite skipn_skipn; f_equal; lia).
  rewrite R2. unfold unpack_ii.
  rewrite sized_raise; [reflexivity|].
  rewrite length_firstn, length_skipn. lia.
Qed.

(** X12: [import_vox] goes on to the chunks exactly for the files of at
    least 20 bytes that start with [VOX ], the version 150, [MAIN] and a
    payload length 0; the fifth field, the size of the children, is not
    looked at.  The chunks then start at byte 20.  Any other file is
    refused with an exception. *)
Theorem read_header_accepts (f : stream) :
  let r := remaining f in
  (is_ok (read_header f) = true <->
   (20 <= length r)%nat
   /\ sub 0 4 r = B "VOX " /\ int32 (sub 4 4 r) = 150
   /\ sub 8 4 r = B "MAIN" /\ int32 (sub 12 4 r) = 0)
  /\ (forall f', read_header f = Ok f' ->
        f' = {| data := data f; tell := (tell f + 20)%nat |}).
Proof.
  intros r.
  destruct (Nat.le_gt_cases 20 (length r)) as [Hlen|Hlen].
  - rewrite (read_header_checks f Hlen). fold r.
    unfold bytes_eqb.
    destruct (bool_decide_reflect (sub 0 4 r = B "VOX ")) as [E1|E1];
      destruct (Z.eqb_spec (int32 (sub 4 4 r)) 150) as [E2|E2];
      destruct (bool_decide_reflect (sub 8 4 r = B "MAIN")) as [E3|E3];
      destruct (Z.eqb_spec (int32 (sub 12 4 r)) 0) as [E4|E4];
      cbn;
      (split;
       [ split;
         [ intros Hok; try discriminate; tauto
         | intros (_ & ? & ? & ? & ?); try reflexivity; contradiction ]
       | intros f' Hf; try discriminate; congruence ]).
  - rewrite (read_header_short f Hlen). split.
    + split; [discriminate | intros (? & _); lia].
    + intros f' Hf. pose proof (read_header_short f Hlen) as Hs.
      rewrite Hf in Hs. discriminate.
Qed.

Lemma read_header_accepts_witness :
  is_ok (read_header {| data := minimal_vox; tell := 0 |}) = true.
Proof.
  refine (proj2 (proj1 (read_header_accepts {| data := minimal_vox; tell := 0 |})) _).
  vm_compute. repeat split; try reflexivity. lia.
Defined.


(** ** The chunks of a file *)

(** Taking a handler apart: one [bind] or one destructuring [let] at a time. *)
Ltac break_bind :=
  match goal with
  | |- context [mbind _ ?r] =>
      let E := fresh "E" in
      destruct r as [?|?] eqn:E; cbn [mbind result_bind]
  | |- context [let '(_, _) := ?p in _] =>
      let E := fresh "E" in destruct p eqn:E
  end.

Ltac break_handler := repeat break_bind; try discriminate.

Lemma read_voxels_packed vs : forall acc rest,
  repeatM read_voxel (length vs) (acc, flat_map voxel_bytes vs ++ rest)
  = Ok (acc ++ map voxel_of vs, rest).
Proof.
  induction vs as [|[[[a b] c] d] vs IH]; intros acc rest;
    cbn [length flat_map map repeatM].
  - rewrite app_nil_r. reflexivity.
  - change (read_voxel (acc, (voxel_bytes (a, b, c, d) ++ flat_map voxel_bytes vs) ++ rest))
      with (Ok (A := list voxel * bytes)
              (acc ++ [voxel_of (a, b, c, d)], flat_map voxel_bytes vs ++ rest)).
    cbn [mbind result_bind]. rewrite IH, <- app_assoc. reflexivity.
Qed.

Section ChunkFacts.
Context `{PyBuiltins}.

(** X13: every chunk that is read moves the file position forward by at
    least the 12 bytes of its header and leaves the content of the file as
    it is; so the loop over the chunks comes to an end on every file, with
    the scene that was read or with an exception. *)
Theorem chunk_loop_terminates :
  (forall f name content f',
     read_chunk f = Ok (name, content, f') ->
     data f' = data f /\ (tell f + 12 <= tell f')%nat)
  /\ (forall buf, exists r, parse_vox buf = Some r).
Proof. split; [apply read_chunk_advances | apply parse_vox_total]. Qed.

(** X14: an [XYZI] chunk holding a count and that many voxels of four bytes
    adds one model under the next model id, built from these voxels, each
    coordinate and colour being the value of its byte, and from the size of
    the last [SIZE] chunk; bytes that follow the voxels in the payload are not
    looked at.  If no [SIZE] chunk came before, the chunk raises instead,
    whatever it holds. *)
Theorem chunk_XYZI_of_packed (vs : list (byte * byte * byte * byte))
    (rest : bytes) (sc : scene) :
  len vs < 2 ^ 31 ->
  chunk_XYZI (pack_i (len vs) ++ flat_map voxel_bytes vs ++ rest) sc
  = match pending_size sc with
    | None => Raise UnboundLocalError
    | Some size =>
        Ok {| models := <[mod_id sc := VoxelObject_init (map voxel_of vs) size]> (models sc);
              mod_id := mod_id sc + 1;
              transforms := transforms sc;
              groups := groups sc; shapes := shapes sc; palette := palette sc;
              materials := materials sc;
              pending_size := pending_size sc |}
    end
  /\ Forall (fun vox => byte_position (position_of vox)
                        /\ byte_coord (color_of vox)) (map voxel_of vs)
  /\ (forall content, pending_size sc = None -> is_ok (chunk_XYZI content sc) = false).
Proof.
  intros Hn. split; [|split].
  - unfold chunk_XYZI. rewrite read_int_pack by (apply len_range, Hn).
    cbn [mbind result_bind]. unfold len. rewrite Nat2Z.id.
    rewrite read_voxels_packed. cbn [mbind result_bind app]. reflexivity.
  - apply List.Forall_forall. intros vox Hin.
    apply in_map_iff in Hin as ([[[a b] c] d] & <- & _).
    unfold byte_position, byte_coord. cbn.
    pose proof (byte_val_range a). pose proof (byte_val_range b).
    pose proof (byte_val_range c). pose proof (byte_val_range d). lia.
  - intros content Hs. unfold chunk_XYZI.
    destruct (read_int content) as [[n c1]|]; [|reflexivity].
    cbn [mbind result_bind].
    destruct (repeatM read_voxel (Z.to_nat n) ([], c1)) as [[voxels c2]|]; [|reflexivity].
    cbn [mbind result_bind]. rewrite Hs. reflexivity.
Qed.

Lemma chunk_XYZI_of_packed_witness :
  is_ok (chunk_XYZI (pack_i 1 ++ [x01; x02; x03; x04]) initial_scene) = false.
Proof.
  refine (proj2 (proj2 (chunk_XYZI_of_packed [(x01, x02, x03, x04)] [] initial_scene _))
            (pack_i 1 ++ [x01; x02; x03; x04]) _).
  - vm_compute. reflexivity.
  - reflexivity.
Defined.

(** What a chunk can do to the models: nothing, or add one under the next id. *)
Lemma handle_chunk_models name content sc sc' :
  handle_chunk name content sc = Ok sc' ->
  (models sc' = models sc /\ mod_id sc' = mod_id sc)
  \/ (exists model, models sc' = <[mod_id sc := model]> (models sc)
                    /\ mod_id sc' = mod_id sc + 1).
Proof.
  unfold handle_chunk.
  repeat match goal with |- context [if ?b then _ else _] => destruct b end.
  - unfold chunk_SIZE. break_handler. intros [= <-]. left. split; reflexivity.
  - unfold chunk_XYZI. break_handler. destruct (pending_size sc); [|discriminate].
    intros [= <-]. right. eexists. split; reflexivity.
  - unfold chunk_nTRN. break_handler. intros [= <-]. left. split; reflexivity.
  - unfold chunk_nGRP. break_handler. intros [= <-]. left. split; reflexivity.
  - unfold chunk_nSHP. break_handler. intros [= <-]. left. split; reflexivity.
  - unfold chunk_RGBA. break_handler. intros [= <-]. left. split; reflexivity.
  - unfold chunk_MATL. break_handler. intros [= <-]. left. split; reflexivity.
  - intros [= <-]. left. split; reflexivity.
Qed.

(** A property of the scene that every chunk keeps holds of what is parsed. *)
Lemma parse_chunks_invariant (P : scene -> Prop) :
  (forall name content sc sc', P sc -> handle_chunk name content sc = Ok sc' -> P sc') ->
  forall fuel f sc sc', P sc -> parse_chunks fuel f sc = Some (Ok sc') -> P sc'.
Proof.
  intros Hstep. induction fuel as [|fuel IH]; intros f sc sc' HP; cbn [parse_chunks].
  - destruct (Nat.ltb _ _); [discriminate|]. intros [= <-]. exact HP.
  - destruct (Nat.ltb _ _); [|intros [= <-]; exact HP].
    destruct (read_chunk f) as [[[name content] f']|]; [|discriminate].
    destruct (handle_chunk name content sc) as [sc1|] eqn:Eh; [|discriminate].
    apply IH. apply (Hstep name content sc sc1 HP Eh).
Qed.

Lemma parse_vox_invariant (P : scene -> Prop) :
  P initial_scene ->
  (forall name content sc sc', P sc -> handle_chunk name content sc = Ok sc' -> P sc') ->
  forall buf sc, parse_vox buf = Some (Ok sc) -> P sc.
Proof.
  intros H0 Hstep buf sc. unfold parse_vox.
  destruct (read_header _) as [f|]; [|discriminate].
  apply (parse_chunks_invariant P Hstep). exact H0.
Qed.

(** X15: in the scene parsed from any file the models are numbered in the
    order of their [XYZI] chunks, from 0 on and without a gap: an id has a
    model exactly when it is at least 0 and below the number of models
    read. *)
Theorem parsed_model_ids_are_consecutive (buf : bytes) (sc : scene) :
  parse_vox buf = Some (Ok sc) ->
  0 <= mod_id sc
  /\ forall i, is_Some (models sc !! i) <-> 0 <= i < mod_id sc.
Proof.
  apply (parse_vox_invariant
           (fun sc => 0 <= mod_id sc
                      /\ forall i, is_Some (models sc !! i) <-> 0 <= i < mod_id sc)).
  - split; [cbn; lia|]. intros i. cbn [initial_scene models mod_id].
    rewrite lookup_empty. split; [intros [? ?]; discriminate | lia].
  - intros name content sc0 sc' [H0 Hc] Hh.
    apply handle_chunk_models in Hh as [[Hm Hi] | (model & Hm & Hi)];
      rewrite Hm, Hi.
    + split; assumption.
    + split; [lia|]. intros i. destruct (decide (mod_id sc0 = i)) as [<-|Hne].
      * rewrite lookup_insert_eq. split; [lia | eexists; reflexivity].
      * rewrite lookup_insert_ne by exact Hne. rewrite Hc. lia.
Qed.

End ChunkFacts.

Lemma parsed_model_ids_are_consecutive_witness :
  is_Some (models minimal_scene !! 0).
Proof.
  refine (proj2 (proj2 (@parsed_model_ids_are_consecutive sample_builtins
                          minimal_vox minimal_scene _) 0) _).
  - vm_compute. reflexivity.
  - cbn. lia.
Defined.

Lemma chunk_loop_terminates_witness :
  (tell truncated_chunk + 12 <= 15)%nat.
Proof.
  refine (proj2 (proj1 (@chunk_loop_terminates sample_builtins)
                   truncated_chunk (B "SIZE") [x02; x00; x00]
                   {| data := data truncated_chunk; tell := 15 |} _)).
  vm_compute. reflexivity.
Defined.

(** ** The palette and the material table *)

Lemma get_item_In {A} (l : list A) i a : get_item l i = Ok a -> In a l.
Proof.
  unfold get_item. destruct (py_index (length l) i) as [k|]; [|discriminate].
  cbn [mbind result_bind]. destruct (nth_error l k) eqn:E; [|discriminate].
  intros [= <-]. apply (nth_error_In _ _ E).
Qed.

Lemma set_item2_shape {A} (m m' : list (list A)) i j v n :
  set_item2 m i j v = Ok m' ->
  Forall (fun r => length r = n) m -> Forall (fun r => length r = n) m'.
Proof.
  unfold set_item2. destruct (get_item m i) as [row|] eqn:Eg; [|discriminate].
  cbn [mbind result_bind].
  destruct (set_item row j v) as [row'|] eqn:Es; [|discriminate].
  cbn [mbind result_bind]. unfold set_item.
  destruct (py_index (length m) i) as [k|]; [|discriminate].
  cbn [mbind result_bind]. intros [= <-] Hm.
  apply Forall_insert; [exact Hm|].
  apply set_item_length in Es. rewrite Es.
  rewrite List.Forall_forall in Hm. apply Hm. apply (get_item_In _ _ _ Eg).
Qed.

Lemma unit_component (v : Z) : 0 <= v < 256 -> (0 <= IZR v / 255 <= 1)%R.
Proof.
  intros [H0 H1]. apply IZR_le in H0.
  assert (H2 : (IZR v <= 255)%R) by (apply IZR_le; lia).
  split.
  - apply Rmult_le_pos; [exact H0 | lra].
  - apply (Rmult_le_reg_r 255); [lra|]. unfold Rdiv.
    rewrite Rmult_assoc, Rinv_l by lra. lra.
Qed.

Lemma read_color_step palette content palette' content' :
  read_color (palette, content) = Ok (palette', content') ->
  (exists c, palette' = palette ++ [c] /\ unit_color c)
  /\ (4 <= length content)%nat /\ content' = skipn 4 content.
Proof.
  unfold read_color, read_content, slice_len.
  change (0 <=? 4) with true. change (Z.to_nat 4) with 4%nat. cbv iota.
  unfold unpack_4B.
  destruct (sized 4 (firstn 4 content)) as [bs|] eqn:Es; [|discriminate].
  cbn [mbind result_bind]. apply sized_length in Es as [-> Hl].
  assert (Hlen : (4 <= length content)%nat) by (rewrite length_firstn in Hl; lia).
  destruct (firstn 4 content) as [|a [|b [|c [|d [|? ?]]]]]; try discriminate.
  cbn [map mbind result_bind]. intros [= <- <-].
  split; [|split; [exact Hlen | reflexivity]].
  eexists. split; [reflexivity|]. split; [reflexivity|].
  repeat (apply List.Forall_cons; [apply unit_component, byte_val_range|]).
  apply List.Forall_nil.
Qed.

Lemma read_colors n : forall palette content palette' content',
  repeatM read_color n (palette, content) = Ok (palette', content') ->
  (exists cols, palette' = palette ++ cols /\ length cols = n
                /\ Forall unit_color cols)
  /\ (4 * n <= length content)%nat.
Proof.
  induction n as [|n IH]; intros palette content palette' content'; cbn [repeatM].
  - intros [= <- <-]. split; [|lia]. exists []. rewrite app_nil_r. auto.
  - destruct (read_color (palette, content)) as [[p1 c1]|] eqn:E1; [|discriminate].
    cbn [mbind result_bind]. intros Hr.
    apply read_color_step in E1 as ((c & -> & Hc) & Hl & ->).
    apply IH in Hr as ((cols & -> & Hn & Hcols) & Hl').
    rewrite length_skipn in Hl'. split; [|lia].
    exists (c :: cols). rewrite <- app_assoc. cbn [length].
    repeat split; [congruence | constructor; assumption].
Qed.

Section TableFacts.
Context `{PyBuiltins}.

(** X16: an [RGBA] chunk appends exactly 255 colours to the palette, each of
    four components between 0 and 1, and keeps the colours of an earlier
    [RGBA] chunk in front of them; it needs a payload of at least 1020
    bytes, the 256th colour of the format is not needed. *)
Theorem chunk_RGBA_appends_255_colors (content : bytes) (sc sc' : scene) :
  chunk_RGBA content sc = Ok sc' ->
  (exists cols, palette sc' = palette sc ++ cols
                /\ length cols = 255%nat /\ Forall unit_color cols)
  /\ (1020 <= length content)%nat
  /\ materials sc' = materials sc /\ models sc' = models sc.
Proof.
  unfold chunk_RGBA.
  destruct (repeatM read_color 255 (palette sc, content)) as [[p c]|] eqn:E;
    [|discriminate].
  cbn [mbind result_bind]. intros [= <-]. cbn [palette materials models].
  apply read_colors in E as [Hc Hl]. split; [exact Hc|].
  split; [lia|]. split; reflexivity.
Qed.

Lemma matl_key_shape id st kv st' :
  matl_key id st kv = Ok st' ->
  Forall (fun m => length m = 6%nat) (fst st) ->
  Forall (fun m => length m = 6%nat) (fst st').
Proof.
  destruct st as [materials mat_type], kv as [key value]. unfold matl_key.
  destruct (get_item materials (id - 1)); [|discriminate].
  cbn [mbind result_bind fst].
  repeat match goal with
  | |- context [if ?b then _ else _] => destruct b
  | |- context [float_of_bytes ?v] => destruct (float_of_bytes v); cbn [mbind result_bind]
  | |- context [set_item2 ?t ?i ?j ?v] =>
      let E := fresh "E" in
      destruct (set_item2 t i j v) eqn:E; cbn [mbind result_bind]
  end;
  try discriminate; intros [= <-] Hs; cbn [fst];
  repeat match goal with
  | E : set_item2 _ _ _ _ = Ok _ |- _ => apply set_item2_shape with (n := 6%nat) in E; [|assumption]
  end; assumption.
Qed.

Lemma matl_keys_table mat_dict id : forall st st',
  foldM (matl_key id) mat_dict st = Ok st' ->
  material_table (fst st) -> material_table (fst st').
Proof.
  induction mat_dict as [|kv mat_dict IH]; intros st st'; cbn [foldM].
  - intros [= <-]. auto.
  - destruct (matl_key id st kv) as [st1|] eqn:E; cbn [mbind result_bind]; [|discriminate].
    intros Hf [Hl Hs]. apply (IH st1 st' Hf). split.
    + rewrite (matl_key_length _ _ _ _ E). exact Hl.
    + apply (matl_key_shape _ _ _ _ E Hs).
Qed.

Lemma matl_table_shape content t t' :
  matl_table content t = Ok t' -> material_table t -> material_table t'.
Proof.
  unfold matl_table. destruct (read_int content) as [[id c]|]; [|discriminate].
  cbn [mbind result_bind]. destruct (255 <? id); [intros [= <-]; auto|].
  destruct (read_dict c) as [[mat_dict c']|]; [|discriminate].
  cbn [mbind result_bind].
  destruct (foldM (matl_key id) mat_dict (t, B "_diffuse")) as [[m ty]|] eqn:E;
    [|discriminate].
  cbn [mbind result_bind]. intros [= <-] Ht.
  apply (matl_keys_table _ _ _ _ E Ht).
Qed.

Lemma handle_chunk_materials name content sc sc' :
  handle_chunk name content sc = Ok sc' ->
  material_table (materials sc) -> material_table (materials sc').
Proof.
  unfold handle_chunk.
  repeat match goal with |- context [if ?b then _ else _] => destruct b end.
  - unfold chunk_SIZE. break_handler. intros [= <-]. auto.
  - unfold chunk_XYZI. break_handler. destruct (pending_size sc); [|discriminate].
    intros [= <-]. auto.
  - unfold chunk_nTRN. break_handler. intros [= <-]. auto.
  - unfold chunk_nGRP. break_handler. intros [= <-]. auto.
  - unfold chunk_nSHP. break_handler. intros [= <-]. auto.
  - unfold chunk_RGBA. break_handler. intros [= <-]. auto.
  - unfold chunk_MATL.
    destruct (matl_table content (materials sc)) as [t|] eqn:E; [|discriminate].
    cbn [mbind result_bind]. intros [= <-]. cbn [materials].
    apply (matl_table_shape _ _ _ E).
  - intros [= <-]. auto.
Qed.

(** X17: whatever chunks a file has, the material table of the parsed scene
    has exactly 255 records of 6 values: [MATL] chunks write into the
    records and never add, drop or resize one. *)
Theorem parsed_material_table_shape (buf : bytes) (sc : scene) :
  parse_vox buf = Some (Ok sc) ->
  length (materials sc) = 255%nat
  /\ Forall (fun m => length m = 6%nat) (materials sc).
Proof.
  apply (parse_vox_invariant (fun sc => material_table (materials sc))).
  - split; [reflexivity|]. cbn [initial_scene materials].
    apply List.Forall_forall. intros m Hm. apply repeat_spec in Hm. subst m.
    reflexivity.
  - intros name content sc0 sc' Ht Hh. apply (handle_chunk_materials _ _ _ _ Hh Ht).
Qed.

Lemma matl_key_type id t mat_type value :
  matl_key id (t, mat_type) (B "_type", value)
  = (_ ← get_item t (id - 1); Ok (t, value)).
Proof.
  unfold matl_key.
  change (bytes_eqb (B "_type") (B "_type")) with true.
  change (bytes_eqb (B "_type") (B "_rough")) with false.
  change (bytes_eqb (B "_type") (B "_metal")) with false.
  change (bytes_eqb (B "_type") (B "_alpha")) with false.
  change (bytes_eqb (B "_type") (B "_emit")) with false.
  change (bytes_eqb (B "_type") (B "_flux")) with false.
  change (bytes_eqb (B "_type") (B "_sp")) with false.
  reflexivity.
Qed.

Lemma matl_key_metal id t mat_type value :
  matl_key id (t, mat_type) (B "_metal", value)
  = (_ ← get_item t (id - 1);
     if bytes_eqb mat_type (B "_metal")
     then v ← float_of_bytes value;
          t' ← set_item2 t (id - 1) 1 v;
          Ok (t', mat_type)
     else Ok (t, mat_type)).
Proof.
  unfold matl_key.
  change (bytes_eqb (B "_metal") (B "_type")) with false.
  change (bytes_eqb (B "_metal") (B "_rough")) with false.
  change (bytes_eqb (B "_metal") (B "_metal")) with true.
  reflexivity.
Qed.

(** X19: the material kind a property is checked against is the one set by
    a [_type] key earlier in the same dictionary.  With [_type] before
    [_metal] the value is written into the field 1 of the record; with
    [_metal] before [_type] the table is left as it is, since the kind is
    still [_diffuse] when [_metal] is met. *)
Theorem matl_type_must_come_first (id : Z) (t : list material) (value : bytes) (r : R) :
  float_of_bytes value = Ok r ->
  foldM (matl_key id) [(B "_type", B "_metal"); (B "_metal", value)] (t, B "_diffuse")
  = (_ ← get_item t (id - 1);
     t' ← set_item2 t (id - 1) 1 r;
     Ok (t', B "_metal"))
  /\ foldM (matl_key id) [(B "_metal", value); (B "_type", B "_metal")] (t, B "_diffuse")
     = (_ ← get_item t (id - 1); Ok (t, B "_metal")).
Proof.
  intros Hr. split; cbn [foldM].
  - rewrite matl_key_type.
    destruct (get_item t (id - 1)) as [mat|] eqn:Eg; [|reflexivity].
    cbn [mbind result_bind]. rewrite matl_key_metal, Eg. cbn [mbind result_bind].
    change (bytes_eqb (B "_metal") (B "_metal")) with true. cbv iota.
    rewrite Hr. cbn [mbind result_bind].
    destruct (set_item2 t (id - 1) 1 r); reflexivity.
  - rewrite matl_key_metal.
    destruct (get_item t (id - 1)) as [mat|] eqn:Eg; [|reflexivity].
    cbn [mbind result_bind].
    change (bytes_eqb (B "_diffuse") (B "_metal")) with false. cbv iota.
    cbn [mbind result_bind]. rewrite matl_key_type, Eg. reflexivity.
Qed.
End TableFacts.

Lemma nth_error_list_lookup {A} (l : list A) (k : nat) : nth_error l k = l !! k.
Proof.
  revert k. induction l as [|a l IH]; intros [|k]; cbn; auto.
Qed.

Lemma py_index_addressed id :
  -254 <= id <= 255 -> py_index 255 (id - 1) = Ok (addressed_record id).
Proof.
  intros Hid. unfold py_index, addressed_record.
  destruct (Z.leb_spec 1 id) as [H1|H1].
  - rewrite (proj2 (Z.leb_le 0 (id - 1))) by lia.
    rewrite (proj2 (Z.ltb_lt (id - 1) (Z.of_nat 255))) by lia. reflexivity.
  - rewrite (proj2 (Z.leb_gt 0 (id - 1))) by lia. cbn [andb].
    rewrite (proj2 (Z.leb_le (- Z.of_nat 255) (id - 1))) by lia.
    rewrite (proj2 (Z.ltb_lt (id - 1) 0)) by lia. cbn [andb].
    f_equal. lia.
Qed.

Lemma py_index_below id : id < -254 -> py_index 255 (id - 1) = Raise IndexError.
Proof.
  intros Hid. unfold py_index.
  rewrite (proj2 (Z.leb_gt 0 (id - 1))) by lia. cbn [andb].
  rewrite (proj2 (Z.leb_gt (- Z.of_nat 255) (id - 1))) by lia. reflexivity.
Qed.

(** [m[i][j] = v] touches the record [i] refers to only. *)
Lemma set_item2_only {A} (m m' : list (list A)) i j v (k i' : nat) :
  py_index (length m) i = Ok k -> set_item2 m i j v = Ok m' ->
  i' <> k -> m' !! i' = m !! i'.
Proof.
  intros Hk. unfold set_item2. destruct (get_item m i) as [row|]; [|discriminate].
  cbn [mbind result_bind].
  destruct (set_item row j v) as [row'|]; [|discriminate].
  cbn [mbind result_bind]. unfold set_item. rewrite Hk.
  cbn [mbind result_bind]. intros [= <-] Hi.
  apply list_lookup_insert_ne. auto.
Qed.

Lemma dict_of_entries_nonempty kv kvs : dict_of_entries (kv :: kvs) <> [].
Proof.
  unfold dict_of_entries. cbn [fold_left].
  assert (Hgen : forall entries (d : Dict.t bytes bytes),
             d <> [] ->
             fold_left (fun d kv => Dict.set (fst kv) (snd kv) d) entries d <> []).
  { induction entries as [|e entries IH]; intros d Hd; cbn [fold_left]; [exact Hd|].
    apply IH. destruct d as [|[k' v'] d]; cbn [Dict.set]; [discriminate|].
    destruct (decide (k' = fst e)); discriminate. }
  apply Hgen. discriminate.
Qed.

Section AddressingFacts.
Context `{PyBuiltins}.

(** A key of a record changes the record the id refers to only. *)
Lemma matl_key_others id st kv st' (k i : nat) :
  length (fst st) = 255%nat -> py_index 255 (id - 1) = Ok k ->
  matl_key id st kv = Ok st' ->
  i <> k -> fst st' !! i = fst st !! i.
Proof.
  destruct st as [materials mat_type], kv as [key value]. cbn [fst].
  intros Hl Hk Hkey Hi. revert Hkey. unfold matl_key.
  assert (Hk' : py_index (length materials) (id - 1) = Ok k) by (rewrite Hl; exact Hk).
  destruct (get_item materials (id - 1)); [|discriminate].
  cbn [mbind result_bind].
  repeat match goal with
  | |- context [if ?b then _ else _] => destruct b
  | |- context [float_of_bytes ?v] =>
      destruct (float_of_bytes v) as [r|]; cbn [mbind result_bind]
  end; try discriminate;
  try (intros [= <-]; reflexivity);
  try (destruct (set_item2 materials (id - 1) _ _) as [m|] eqn:E;
       cbn [mbind result_bind]; [|discriminate];
       intros [= <-]; cbn [fst];
       apply (set_item2_only _ _ _ _ _ k i Hk' E Hi)).
  all: destruct (set_item2 materials (id - 1) 3 r) as [m|] eqn:E;
    cbn [mbind result_bind]; [|discriminate].
  all: destruct (set_item2 m (id - 1) 5 1%R) as [m2|] eqn:E2;
    cbn [mbind result_bind]; [|discriminate].
  all: intros [= <-]; cbn [fst].
  all: pose proof (set_item2_length _ _ _ _ _ E) as Hlm.
  all: assert (Hm : py_index (length m) (id - 1) = Ok k) by (rewrite Hlm; exact Hk').
  all: rewrite (set_item2_only m _ _ _ _ k i Hm E2 Hi).
  all: apply (set_item2_only _ _ _ _ _ k i Hk' E Hi).
Qed.

Lemma matl_keys_others id mat_dict (k i : nat) : forall st st',
  length (fst st) = 255%nat -> py_index 255 (id - 1) = Ok k ->
  foldM (matl_key id) mat_dict st = Ok st' ->
  i <> k -> fst st' !! i = fst st !! i.
Proof.
  induction mat_dict as [|kv mat_dict IH]; intros st st' Hl Hk; cbn [foldM].
  - intros [= <-] _. reflexivity.
  - destruct (matl_key id st kv) as [st1|] eqn:E; cbn [mbind result_bind]; [|discriminate].
    intros Hf Hi.
    rewrite (IH st1 st'); auto.
    + apply (matl_key_others id st kv st1 k); auto.
    + apply matl_key_length in E. congruence.
Qed.

(** The key [_rough] writes the field 0 of the record the id refers to. *)
Lemma matl_key_rough id t mat_type value r (k : nat) m :
  float_of_bytes value = Ok r ->
  py_index (length t) (id - 1) = Ok k -> t !! k = Some m -> (0 < length m)%nat ->
  matl_key id (t, mat_type) (B "_rough", value)
  = Ok (<[k := <[0%nat := r]> m]> t, mat_type).
Proof.
  intros Hr Hk Hm Hlen. unfold matl_key.
  assert (Hget : get_item t (id - 1) = Ok m).
  { unfold get_item. rewrite Hk. cbn [mbind result_bind].
    rewrite nth_error_list_lookup, Hm. reflexivity. }
  rewrite Hget. cbn [mbind result_bind].
  change (bytes_eqb (B "_rough") (B "_type")) with false.
  change (bytes_eqb (B "_rough") (B "_rough")) with true. cbv iota.
  rewrite Hr. cbn [mbind result_bind].
  unfold set_item2. rewrite Hget. cbn [mbind result_bind].
  unfold set_item. rewrite Hk.
  assert (H0 : py_index (length m) 0 = Ok 0%nat).
  { unfold py_index. change (0 <=? 0) with true.
    rewrite (proj2 (Z.ltb_lt 0 (Z.of_nat (length m)))) by lia. reflexivity. }
  rewrite H0. reflexivity.
Qed.

(** X18: the material id of a [MATL] chunk is used as it is read.  A chunk
    with an id above 255 is passed over, whatever it holds.  With an id from
    -254 to 255 the chunk writes into one record and changes no other: the
    record [id - 1] for an id from 1 on, and for an id from -254 to 0 the
    record [id + 254], counted from the end of the table; a [_rough] key, for
    one, writes its value into the field 0 of that record.  With an id below
    -254 the chunk raises an [IndexError] at its first property; without any
    property it leaves the table as it is, for every id. *)
Theorem matl_id_addressing (id : Z) (t : list material) :
  material_table t -> int32_range id ->
  (255 < id -> forall content, matl_table (pack_i id ++ content) t = Ok t)
  /\ (-254 <= id <= 255 ->
      (forall content t' (i : nat),
         matl_table (pack_i id ++ content) t = Ok t' ->
         i <> addressed_record id -> t' !! i = t !! i)
      /\ (forall value r m rest,
            len value < 2 ^ 31 ->
            float_of_bytes value = Ok r -> t !! addressed_record id = Some m ->
            matl_table (pack_i id ++ pack_dict [(B "_rough", value)] ++ rest) t
            = Ok (<[addressed_record id := <[0%nat := r]> m]> t)))
  /\ (id < -254 ->
      forall kv kvs rest,
        short_dict (kv :: kvs) ->
        matl_table (pack_i id ++ pack_dict (kv :: kvs) ++ rest) t = Raise IndexError)
  /\ (id <= 255 ->
      forall rest, matl_table (pack_i id ++ pack_dict [] ++ rest) t = Ok t).
Proof.
  intros [Hl Hs] Hid.
  assert (Hread : forall content, read_int (pack_i id ++ content) = Ok (id, content))
    by (intros content; apply read_int_pack, Hid).
  split; [|split; [|split]].
  - intros Hbig content. unfold matl_table. rewrite Hread. cbn [mbind result_bind].
    rewrite (proj2 (Z.ltb_lt 255 id)) by lia. reflexivity.
  - intros Hin. pose proof (py_index_addressed id Hin) as Hk. split.
    + intros content t' i. unfold matl_table. rewrite Hread. cbn [mbind result_bind].
      rewrite (proj2 (Z.ltb_ge 255 id)) by lia.
      destruct (read_dict content) as [[mat_dict c]|]; [|discriminate].
      cbn [mbind result_bind].
      destruct (foldM (matl_key id) mat_dict (t, B "_diffuse")) as [[m ty]|] eqn:E;
        [|discriminate].
      cbn [mbind result_bind]. intros [= <-] Hi.
      apply (matl_keys_others id mat_dict (addressed_record id) i
               (t, B "_diffuse") (m, ty) Hl Hk E Hi).
    + intros value r m rest Hv Hr Hm. unfold matl_table. rewrite Hread.
      cbn [mbind result_bind]. rewrite (proj2 (Z.ltb_ge 255 id)) by lia.
      rewrite read_dict_short.
      2:{ split; [vm_compute; reflexivity|].
          apply List.Forall_cons; [|apply List.Forall_nil].
          split; [vm_compute; reflexivity | exact Hv]. }
      cbn [mbind result_bind].
      change (dict_of_entries [(B "_rough", value)]) with [(B "_rough", value)].
      cbn [foldM].
      rewrite (matl_key_rough id t (B "_diffuse") value r (addressed_record id) m Hr).
      * reflexivity.
      * rewrite Hl. exact Hk.
      * exact Hm.
      * rewrite <- nth_error_list_lookup in Hm. apply nth_error_In in Hm.
        rewrite List.Forall_forall in Hs. rewrite (Hs m Hm). lia.
  - intros Hlow kv kvs rest Hd. unfold matl_table. rewrite Hread.
    cbn [mbind result_bind]. rewrite (proj2 (Z.ltb_ge 255 id)) by lia.
    rewrite read_dict_short by exact Hd. cbn [mbind result_bind].
    pose proof (dict_of_entries_nonempty kv kvs) as Hne.
    destruct (dict_of_entries (kv :: kvs)) as [|[key value] d]; [contradiction|].
    cbn [foldM]. unfold matl_key, get_item. rewrite Hl, (py_index_below id Hlow).
    reflexivity.
  - intros Hle rest. unfold matl_table. rewrite Hread. cbn [mbind result_bind].
    rewrite (proj2 (Z.ltb_ge 255 id)) by lia.
    rewrite read_dict_short by (split; [vm_compute; reflexivity | constructor]).
    reflexivity.
Qed.
End AddressingFacts.

Lemma chunk_RGBA_appends_255_colors_witness :
  (1020 <= length (repeat x80 1024))%nat.
Proof.
  refine (proj1 (proj2 (chunk_RGBA_appends_255_colors
                          (repeat x80 1024) initial_scene
                          {| models := ∅; mod_id := 0; transforms := ∅; groups := ∅;
                             shapes := ∅;
                             palette := repeat (repeat (IZR 128 / 255)%R 4) 255;
                             materials := default_materials;
                             pending_size := None |} _))).
  vm_compute. reflexivity.
Defined.

Lemma parsed_material_table_shape_witness :
  length (materials minimal_scene) = 255%nat.
Proof.
  refine (proj1 (@parsed_material_table_shape sample_builtins
                   minimal_vox minimal_scene _)).
  vm_compute. reflexivity.
Defined.

Lemma matl_id_addressing_witness :
  @matl_table sample_builtins
    (pack_i (-3) ++ pack_dict [(B "_rough", B "0.1")] ++ []) default_materials
  = Ok (<[addressed_record (-3) := <[0%nat := (1 / 10)%R]> default_material]>
          default_materials).
Proof.
  refine (proj2 (proj1 (proj2 (@matl_id_addressing sample_builtins (-3)
                                 default_materials _ _)) _)
            (B "0.1") (1 / 10)%R default_material [] _ _ _).
  - split; [reflexivity|]. apply List.Forall_forall. intros m Hm.
    apply repeat_spec in Hm. subst m. reflexivity.
  - unfold int32_range. lia.
  - lia.
  - vm_compute. reflexivity.
  - reflexivity.
  - reflexivity.
Defined.

Lemma matl_type_must_come_first_witness :
  foldM (@matl_key sample_builtins 7) [(B "_metal", B "0.1"); (B "_type", B "_metal")]
        (default_materials, B "_diffuse")
  = Ok (default_materials, B "_metal").
Proof.
  refine (proj2 (@matl_type_must_come_first sample_builtins 7 default_materials
                   (B "0.1") (1 / 10)%R _)).
  reflexivity.
Defined.


(** ** Scene graphs: copies, cycles and translations *)

Lemma foldM_extends {A B} (P : B -> Prop) (f : list B -> A -> result (list B))
    (l : list A) :
  (forall s a s', In a l -> f s a = Ok s' -> exists new, s' = s ++ new /\ Forall P new) ->
  forall s s', foldM f l s = Ok s' -> exists new, s' = s ++ new /\ Forall P new.
Proof.
  induction l as [|a l IH]; intros Hf s s'; cbn [foldM].
  - intros [= <-]. exists []. rewrite app_nil_r. auto.
  - destruct (f s a) as [s1|] eqn:E; cbn [mbind result_bind]; [|discriminate].
    intros Hr.
    destruct (Hf s a s1 (or_introl eq_refl) E) as (n1 & -> & H1).
    destruct (IH (fun s a s' Hin => Hf s a s' (or_intror Hin)) _ _ Hr)
      as (n2 & -> & H2).
    exists (n1 ++ n2). rewrite app_assoc. split; [reflexivity|].
    apply List.Forall_app. auto.
Qed.

Section ResolveFacts.
Variable transforms : gmap Z transform_node.
Variable groups : gmap Z (list Z).
Variable shapes : gmap Z (list Z).
Variable models : gmap Z VoxelObject.

Lemma traverse_extends depth : forall loc rot id acc l,
  traverse_scene_graph transforms groups shapes models depth loc rot id acc = Ok l ->
  exists new, l = acc ++ new /\ Forall (placed_model models) new.
Proof.
  induction depth as [|depth IH]; intros loc rot id acc l;
    cbn [traverse_scene_graph]; [discriminate|].
  destruct (transforms !! id) as [[[child t] r]|]; [apply IH|].
  destruct (groups !! id) as [children|].
  - apply (foldM_extends (placed_model models)). intros s a s' _. apply IH.
  - destruct (shapes !! id) as [ids|].
    + apply (foldM_extends (placed_model models)). intros s m s' _. unfold place_model.
      destruct (models !! m) as [model|] eqn:Em; [|discriminate].
      destruct (Vec3_of_list rot) as [v|]; [|discriminate].
      cbn [mbind result_bind]. intros [= <-]. eexists. split; [reflexivity|].
      constructor; [|constructor]. exists m, model.
      split; [exact Em|]. repeat split.
    + intros [= <-]. exists []. rewrite app_nil_r. auto.
Qed.

Lemma traverse_only_transforms depth : forall id loc rot acc,
  (forall id', reach transforms groups id id' -> is_Some (transforms !! id')) ->
  traverse_scene_graph transforms groups shapes models depth loc rot id acc
  = Raise RecursionError.
Proof.
  induction depth as [|depth IH]; intros id loc rot acc Hall;
    cbn [traverse_scene_graph]; [reflexivity|].
  destruct (Hall id (reach_here _ _ id)) as [[[child t] r] Ht]. rewrite Ht.
  apply IH. intros id' Hr. apply Hall.
  apply (reach_step _ _ id child id'); [|exact Hr].
  unfold edge. rewrite Ht. reflexivity.
Qed.

Lemma foldM_shift {A} (delta : Vec3 Z)
    (f g : list VoxelObject -> A -> result (list VoxelObject)) (l : list A) :
  (forall s a, g (map (shift delta) s) a = shift_result delta (f s a)) ->
  forall s, foldM g l (map (shift delta) s) = shift_result delta (foldM f l s).
Proof.
  intros Hfg. induction l as [|a l IH]; intros s; cbn [foldM]; [reflexivity|].
  rewrite Hfg. destruct (f s a) as [s1|]; cbn [shift_result mbind result_bind];
    [apply IH | reflexivity].
Qed.

Lemma traverse_shift (delta : Vec3 Z) depth : forall loc rot id acc,
  traverse_scene_graph transforms groups shapes models depth
    (vec_add delta loc) rot id (map (shift delta) acc)
  = shift_result delta
      (traverse_scene_graph transforms groups shapes models depth loc rot id acc).
Proof.
  induction depth as [|depth IH]; intros loc rot id acc;
    cbn [traverse_scene_graph]; [reflexivity|].
  destruct (transforms !! id) as [[[child t] r]|].
  - rewrite <- IH. f_equal. unfold vec_add. cbn [vx vy vz]. f_equal; lia.
  - destruct (groups !! id) as [children|].
    + apply foldM_shift. intros s a. apply IH.
    + destruct (shapes !! id) as [ids|]; [|reflexivity].
      apply foldM_shift. intros s m. unfold place_model.
      destruct (models !! m) as [model|]; [|reflexivity].
      destruct (Vec3_of_list rot) as [v|]; [|reflexivity].
      cbn [mbind result_bind shift_result]. rewrite map_app. reflexivity.
Qed.
End ResolveFacts.

(** X20: every instance the resolution returns is one of the models of the
    model table with its voxels, used colours and size as they are; only
    the position and the rotation of an instance are set by the
    resolution. *)
Theorem resolved_instances_are_placed_models
    (transforms : gmap Z transform_node) (groups shapes : gmap Z (list Z))
    (models : gmap Z VoxelObject) (depth : nat) (l : list VoxelObject) :
  solve_scene_graph transforms groups shapes models depth = Ok l ->
  Forall (fun inst =>
            exists m model, models !! m = Some model
                            /\ voxels inst = voxels model
                            /\ used_colors inst = used_colors model
                            /\ size inst = size model) l.
Proof.
  unfold solve_scene_graph. destruct (negb _); [discriminate|].
  intros Hr. apply traverse_extends in Hr as (new & -> & Hn).
  cbn [app]. eapply List.Forall_impl; [|exact Hn].
  intros inst (m & model & Hm & Hv & Hu & Hs). exists m, model. auto.
Qed.

Lemma resolved_instances_are_placed_models_witness :
  Forall (fun inst =>
            exists m model, (<[0 := cube_grid]> ∅ : gmap Z VoxelObject) !! m = Some model
                            /\ voxels inst = voxels model
                            /\ used_colors inst = used_colors model
                            /\ size inst = size model)
         [set_placement cube_grid (mkVec3 (PyInt 0) (PyInt 0) (PyInt 0)) (mkVec3 1 2 0)].
Proof.
  refine (resolved_instances_are_placed_models
            nested_transforms ∅ nested_shapes (<[0 := cube_grid]> ∅) 5 _ _).
  vm_compute. reflexivity.
Defined.

(** X21: when every node that can be reached from the root is a transform
    node, as in a cycle of transform nodes, the traversal never comes to a
    shape and the resolution ends with a [RecursionError], however deep the
    interpreter lets it recurse; it never returns a list of instances. *)
Theorem transform_cycle_raises
    (transforms : gmap Z transform_node) (groups shapes : gmap Z (list Z))
    (models : gmap Z VoxelObject) :
  (forall id, reach transforms groups 0 id -> is_Some (transforms !! id)) ->
  forall depth,
    solve_scene_graph transforms groups shapes models depth = Raise RecursionError.
Proof.
  intros Hall depth. unfold solve_scene_graph.
  rewrite bool_decide_true by (apply Hall, reach_here). cbn [negb].
  apply traverse_only_transforms. exact Hall.
Qed.

Lemma transform_cycle_raises_witness :
  solve_scene_graph looping_transforms ∅ nested_shapes ∅ 1000 = Raise RecursionError.
Proof.
  refine (transform_cycle_raises looping_transforms ∅ nested_shapes ∅ _ 1000%nat).
  intros id Hr.
  assert (Hid : id = 0).
  { remember 0 as root eqn:Hroot in Hr. induction Hr as [a|a b c He Hr IH].
    - exact Hroot.
    - subst a. apply IH. unfold edge in He. cbn in He. exact He. }
  subst id. eexists. reflexivity.
Defined.

(** X22: the position a traversal starts from enters the result by addition
    only.  Started [delta] away, the traversal of the same node returns the
    same instances in the same order, the position of each being the
    position it has otherwise with [delta] added component by component, and
    its rotation, voxels, colours and size being the same; and it raises
    exactly when the other raises, with the same exception. *)
Theorem traversal_commutes_with_translation
    (transforms : gmap Z transform_node) (groups shapes : gmap Z (list Z))
    (models : gmap Z VoxelObject) (delta : Vec3 Z) (depth : nat)
    (loc : Vec3 Z) (rot : list pynum) (id : Z) (acc : list VoxelObject) :
  traverse_scene_graph transforms groups shapes models depth
    (vec_add delta loc) rot id (map (shift delta) acc)
  = shift_result delta
      (traverse_scene_graph transforms groups shapes models depth loc rot id acc)
  /\ (forall l,
        traverse_scene_graph transforms groups shapes models depth loc rot id [] = Ok l ->
        exists l',
          traverse_scene_graph transforms groups shapes models depth
            (mkVec3 (vx delta + vx loc) (vy delta + vy loc) (vz delta + vz loc))
            rot id []
          = Ok l'
          /\ map position l'
             = map (fun inst => mkVec3 (vx delta + vx (position inst))
                                       (vy delta + vy (position inst))
                                       (vz delta + vz (position inst))) l
          /\ map rotation l' = map rotation l
          /\ map voxels l' = map voxels l
          /\ map used_colors l' = map used_colors l
          /\ map size l' = map size l)
  /\ (forall e,
        traverse_scene_graph transforms groups shapes models depth loc rot id []
        = Raise e ->
        traverse_scene_graph transforms groups shapes models depth
          (mkVec3 (vx delta + vx loc) (vy delta + vy loc) (vz delta + vz loc))
          rot id []
        = Raise e).
Proof.
  split; [apply traverse_shift|].
  pose proof (traverse_shift transforms groups shapes models delta depth loc rot id [])
    as Hs.
  change (map (shift delta) []) with (@nil VoxelObject) in Hs.
  change (vec_add delta loc)
    with (mkVec3 (vx delta + vx loc) (vy delta + vy loc) (vz delta + vz loc)) in Hs.
  split.
  - intros l Hl. rewrite Hl in Hs. cbn [shift_result] in Hs.
    exists (map (shift delta) l). split; [exact Hs|].
    rewrite !List.map_map. repeat split; apply List.map_ext; intros inst; reflexivity.
  - intros e He. rewrite He in Hs. exact Hs.
Qed.

Lemma traversal_commutes_with_translation_witness :
  exists l',
    traverse_scene_graph nested_transforms ∅ nested_shapes (<[0 := cube_grid]> ∅) 3
      (mkVec3 (5 + 0) (5 + 0) (5 + 0)) no_rotation 0 []
    = Ok l'
    /\ map position l' = [mkVec3 6 7 5].
Proof.
  destruct (proj1 (proj2 (traversal_commutes_with_translation
                            nested_transforms ∅ nested_shapes (<[0 := cube_grid]> ∅)
                            (mkVec3 5 5 5) 3 (mkVec3 0 0 0) no_rotation 0 []))
              [{| size := size cube_grid; voxels := voxels cube_grid;
                  used_colors := used_colors cube_grid;
                  position := mkVec3 1 2 0;
                  rotation := mkVec3 (PyInt 0) (PyInt 0) (PyInt 0) |}])
    as (l' & Hl' & Hpos & _).
  - vm_compute. reflexivity.
  - exists l'. split; [exact Hl' | exact Hpos].
Defined.

(** ** Rotation bytes: refusal and the unused bit *)

(** X23: for a byte from 0 to 255, [parse_rotation_matrix] raises a
    [ValueError] exactly when the two selector fields are equal or one of
    them is 3, and every matrix it returns has exactly one 1 or -1 in each
    row and each column: it never returns a matrix that is not a signed
    permutation. *)
Theorem rotation_byte_refused_or_permutation (byte : Z) :
  0 <= byte < 256 ->
  (well_formed_selectors byte = false ->
   parse_rotation_matrix byte = Raise ValueError)
  /\ (forall M, parse_rotation_matrix byte = Ok M ->
                well_formed_selectors byte = true
                /\ is_signed_permutation M = true)
  /\ (forall e, parse_rotation_matrix byte = Raise e ->
                e = ValueError /\ well_formed_selectors byte = false).
Proof.
  intros Hb. pose proof (rotation_byte_checked byte Hb) as Hc.
  unfold rotation_byte_check in Hc.
  destruct (parse_rotation_matrix byte) as [M|e].
  - apply andb_prop in Hc as [Hc Hp]. apply andb_prop in Hc as [Hw _].
    split; [intros Hf; congruence|]. split.
    + intros M' [= <-]. auto.
    + discriminate.
  - apply andb_prop in Hc as [Hw He]. apply negb_true_iff in Hw.
    destruct e; try discriminate.
    split; [reflexivity|]. split; [discriminate|].
    intros e' Hraise. inversion Hraise. auto.
Qed.

Lemma rotation_byte_refused_or_permutation_witness :
  parse_rotation_matrix 5 = Raise ValueError.
Proof.
  refine (proj1 (rotation_byte_refused_or_permutation 5 _) _).
  - lia.
  - reflexivity.
Defined.

Lemma low_bytes_checked : forallb bit7_check low_bytes = true.
Proof. vm_compute. reflexivity. Qed.

Lemma same_outcome_eq a b : same_outcome a b = true -> a = b.
Proof.
  destruct a as [M|e], b as [N|e'].
  - cbn. unfold matrix_eqb. intros Hb. apply bool_decide_eq_true in Hb. congruence.
  - discriminate.
  - destruct e; discriminate.
  - destruct e, e'; try discriminate; reflexivity.
Qed.

(** X24: bit 7 of a rotation byte is not used: a byte and the same byte with
    bit 7 set are decoded alike, to the same matrix or to the same
    exception. *)
Theorem rotation_bit7_unused (byte : Z) :
  0 <= byte < 128 ->
  parse_rotation_matrix (byte + 128) = parse_rotation_matrix byte.
Proof.
  intros Hb. apply same_outcome_eq.
  pose proof low_bytes_checked as Hall. rewrite forallb_forall in Hall.
  apply (Hall byte). unfold low_bytes. apply in_map_iff.
  exists (Z.to_nat byte). split; [lia|]. apply in_seq. lia.
Qed.

Lemma rotation_bit7_unused_witness :
  parse_rotation_matrix (4 + 128) = Ok identity_matrix.
Proof.
  refine (eq_trans (rotation_bit7_unused 4 _) _).
  - lia.
  - vm_compute. reflexivity.
Defined.

(** ** The chunks of the scene graph and of the grid, read back *)

Lemma read_child_packed acc c rest :
  int32_range c -> read_child (acc, pack_i c ++ rest) = Ok (acc ++ [c], rest).
Proof.
  intros Hc. unfold read_child. rewrite read_int_pack by exact Hc. reflexivity.
Qed.

Lemma read_model_ref_packed acc m attrs rest :
  int32_range m -> short_dict attrs ->
  read_model_ref (acc, pack_model_ref (m, attrs) ++ rest) = Ok (acc ++ [m], rest).
Proof.
  intros Hm Hd. unfold read_model_ref, pack_model_ref. cbn [fst snd].
  rewrite <- app_assoc, read_int_pack by exact Hm. cbn [mbind result_bind].
  rewrite read_dict_short by exact Hd. reflexivity.
Qed.

Lemma read_children_packed children : forall acc rest,
  Forall int32_range children ->
  repeatM read_child (length children) (acc, flat_map pack_i children ++ rest)
  = Ok (acc ++ children, rest).
Proof.
  induction children as [|c children IH]; intros acc rest Hr;
    cbn [length flat_map repeatM].
  - rewrite app_nil_r. reflexivity.
  - inversion Hr as [|c' l Hc Hr']; subst.
    rewrite <- app_assoc, read_child_packed by exact Hc.
    cbn [mbind result_bind]. rewrite IH by exact Hr'.
    rewrite <- app_assoc. reflexivity.
Qed.

Lemma read_model_refs_packed refs : forall acc rest,
  Forall (fun ref => int32_range (fst ref) /\ short_dict (snd ref)) refs ->
  repeatM read_model_ref (length refs) (acc, flat_map pack_model_ref refs ++ rest)
  = Ok (acc ++ map fst refs, rest).
Proof.
  induction refs as [|[m attrs] refs IH]; intros acc rest Hr;
    cbn [length flat_map map repeatM].
  - rewrite app_nil_r. reflexivity.
  - inversion Hr as [|r l [Hm Hd] Hr']; subst. cbn [fst snd] in *.
    rewrite <- app_assoc, read_model_ref_packed by assumption.
    cbn [mbind result_bind]. rewrite IH by exact Hr'.
    rewrite <- app_assoc. reflexivity.
Qed.

(** X25: an [nGRP] chunk packed as node id, attribute dictionary, number of
    children and the child ids is read back as that list of children, in
    their order, under the node id; the attributes are read and dropped, a
    group of the same id read earlier is replaced, and nothing else of the
    scene changes. *)
Theorem chunk_nGRP_of_packed (id : Z) (attrs : list (bytes * bytes))
    (children : list Z) (rest : bytes) (sc : scene) :
  int32_range id -> short_dict attrs ->
  len children < 2 ^ 31 -> Forall int32_range children ->
  chunk_nGRP (pack_i id ++ pack_dict attrs ++ pack_i (len children)
              ++ flat_map pack_i children ++ rest) sc
  = Ok {| models := models sc; mod_id := mod_id sc; transforms := transforms sc;
          groups := <[id := children]> (groups sc);
          shapes := shapes sc; palette := palette sc;
          materials := materials sc;
          pending_size := pending_size sc |}.
Proof.
  intros Hid Hd Hn Hc. unfold chunk_nGRP.
  rewrite read_int_pack by exact Hid. cbn [mbind result_bind].
  rewrite read_dict_short by exact Hd. cbn [mbind result_bind].
  rewrite read_int_pack by (apply len_range, Hn). cbn [mbind result_bind].
  unfold len. rewrite Nat2Z.id, read_children_packed by exact Hc.
  cbn [mbind result_bind app]. reflexivity.
Qed.

Lemma chunk_nGRP_of_packed_witness :
  chunk_nGRP (pack_i 1 ++ pack_dict [] ++ pack_i (len [2; 3])
              ++ flat_map pack_i [2; 3] ++ []) initial_scene
  = Ok {| models := models initial_scene; mod_id := mod_id initial_scene;
          transforms := transforms initial_scene;
          groups := <[1 := [2; 3]]> (groups initial_scene);
          shapes := shapes initial_scene; palette := palette initial_scene;
          materials := materials initial_scene;
          pending_size := pending_size initial_scene |}.
Proof.
  apply (chunk_nGRP_of_packed 1 [] [2; 3] [] initial_scene).
  - unfold int32_range. lia.
  - split; [vm_compute; reflexivity | constructor].
  - vm_compute. reflexivity.
  - repeat constructor; unfold int32_range; lia.
Defined.

(** X26: an [nSHP] chunk packed as node id, attribute dictionary, number of
    model references and, for each, the model id and its attribute
    dictionary is read back as the list of the model ids, in their order,
    under the node id; all attributes are read and dropped. *)
Theorem chunk_nSHP_of_packed (id : Z) (attrs : list (bytes * bytes))
    (refs : list (Z * list (bytes * bytes))) (rest : bytes) (sc : scene) :
  int32_range id -> short_dict attrs ->
  len refs < 2 ^ 31 ->
  Forall (fun ref => int32_range (fst ref) /\ short_dict (snd ref)) refs ->
  chunk_nSHP (pack_i id ++ pack_dict attrs ++ pack_i (len refs)
              ++ flat_map pack_model_ref refs ++ rest) sc
  = Ok {| models := models sc; mod_id := mod_id sc; transforms := transforms sc;
          groups := groups sc;
          shapes := <[id := map fst refs]> (shapes sc);
          palette := palette sc;
          materials := materials sc;
          pending_size := pending_size sc |}.
Proof.
  intros Hid Hd Hn Hr. unfold chunk_nSHP.
  rewrite read_int_pack by exact Hid. cbn [mbind result_bind].
  rewrite read_dict_short by exact Hd. cbn [mbind result_bind].
  rewrite read_int_pack by (apply len_range, Hn). cbn [mbind result_bind].
  unfold len. rewrite Nat2Z.id, read_model_refs_packed by exact Hr.
  cbn [mbind result_bind app]. reflexivity.
Qed.

Lemma chunk_nSHP_of_packed_witness :
  chunk_nSHP (pack_i 2 ++ pack_dict [] ++ pack_i (len [(0, [] : list (bytes * bytes))])
              ++ flat_map pack_model_ref [(0, [])] ++ []) initial_scene
  = Ok {| models := models initial_scene; mod_id := mod_id initial_scene;
          transforms := transforms initial_scene;
          groups := groups initial_scene;
          shapes := <[2 := map fst [(0, [] : list (bytes * bytes))]]> (shapes initial_scene);
          palette := palette initial_scene;
          materials := materials initial_scene;
          pending_size := pending_size initial_scene |}.
Proof.
  apply (chunk_nSHP_of_packed 2 [] [(0, [])] [] initial_scene).
  - unfold int32_range. lia.
  - split; [vm_compute; reflexivity | constructor].
  - vm_compute. reflexivity.
  - repeat constructor; unfold int32_range; cbn; lia.
Defined.

Lemma dict_set_keys (P : bytes -> Prop) k v (d : Dict.t bytes bytes) :
  P k -> Forall (fun kv => P (fst kv)) d ->
  Forall (fun kv => P (fst kv)) (Dict.set k v d).
Proof.
  intros Hk. induction d as [|[k' v'] d IH]; cbn [Dict.set]; intros Hd.
  - constructor; [exact Hk | constructor].
  - inversion Hd as [|kv l Hk' Hd']; subst. cbn [fst] in Hk'.
    destruct (decide (k' = k)); constructor; auto.
Qed.

Lemma dict_of_entries_keys (P : bytes -> Prop) entries :
  Forall (fun kv => P (fst kv)) entries ->
  Forall (fun kv => P (fst kv)) (dict_of_entries entries).
Proof.
  unfold dict_of_entries.
  assert (Hgen : forall d : Dict.t bytes bytes,
             Forall (fun kv => P (fst kv)) entries ->
             Forall (fun kv => P (fst kv)) d ->
             Forall (fun kv => P (fst kv))
                    (fold_left (fun d kv => Dict.set (fst kv) (snd kv) d) entries d)).
  { induction entries as [|[k v] entries IH]; intros d He Hd; cbn [fold_left]; [exact Hd|].
    inversion He as [|kv l Hk He']; subst. cbn [fst snd] in *.
    apply IH; [exact He'|]. apply dict_set_keys; assumption. }
  intros He. apply Hgen; [exact He | constructor].
Qed.

Lemma frame_key_other `{PyBuiltins} node kv :
  frame_attribute (fst kv) = false -> frame_key node kv = Ok node.
Proof.
  destruct node as [[child t] r], kv as [k v]. unfold frame_attribute, frame_key.
  cbn [fst]. intros Hf. apply orb_false_iff in Hf as [-> ->]. reflexivity.
Qed.

Lemma frame_keys_other `{PyBuiltins} (d : list (bytes * bytes)) node :
  Forall (fun kv => frame_attribute (fst kv) = false) d ->
  foldM frame_key d node = Ok node.
Proof.
  induction 1 as [|kv d Hk Hd IH]; cbn [foldM]; [reflexivity|].
  rewrite (frame_key_other node kv Hk). cbn [mbind result_bind]. exact IH.
Qed.

Lemma chunk_SIZE_packed x y z rest sc :
  int32_range x -> int32_range y -> int32_range z ->
  chunk_SIZE (pack_i x ++ pack_i y ++ pack_i z ++ rest) sc
  = Ok {| models := models sc; mod_id := mod_id sc; transforms := transforms sc;
          groups := groups sc; shapes := shapes sc; palette := palette sc;
          materials := materials sc;
          pending_size := Some (mkVec3 x y z) |}.
Proof.
  intros Hx Hy Hz. unfold chunk_SIZE, read_content, slice_len.
  change (0 <=? 12) with true. cbv iota. change (Z.to_nat 12) with 12%nat.
  change (firstn 12 (pack_i x ++ pack_i y ++ pack_i z ++ rest))
    with (pack_i x ++ pack_i y ++ pack_i z).
  unfold unpack_3i.
  change (sized 12 (pack_i x ++ pack_i y ++ pack_i z))
    with (Ok (pack_i x ++ pack_i y ++ pack_i z)).
  cbn [mbind result_bind].
  change (sub 0 4 (pack_i x ++ pack_i y ++ pack_i z)) with (pack_i x).
  change (sub 4 4 (pack_i x ++ pack_i y ++ pack_i z)) with (pack_i y).
  change (sub 8 4 (pack_i x ++ pack_i y ++ pack_i z)) with (pack_i z).
  rewrite !int32_pack_i by assumption. reflexivity.
Qed.

(** X27: a [SIZE] chunk is read exactly when its payload has 12 bytes or
    more, and a shorter one raises a [struct.error]; of a payload that starts
    with three packed integers the chunk keeps these as the size of the
    models that follow, ignores the bytes behind them and changes nothing
    else of the scene. *)
Theorem chunk_SIZE_reads_three_ints (content : bytes) (sc : scene) :
  (is_ok (chunk_SIZE content sc) = true <-> (12 <= length content)%nat)
  /\ ((length content < 12)%nat -> chunk_SIZE content sc = Raise StructError)
  /\ (forall x y z rest,
        int32_range x -> int32_range y -> int32_range z ->
        content = pack_i x ++ pack_i y ++ pack_i z ++ rest ->
        chunk_SIZE content sc
        = Ok {| models := models sc; mod_id := mod_id sc; transforms := transforms sc;
                groups := groups sc; shapes := shapes sc; palette := palette sc;
                materials := materials sc;
                pending_size := Some (mkVec3 x y z) |}).
Proof.
  assert (Hshort : (length content < 12)%nat -> chunk_SIZE content sc = Raise StructError).
  { intros Hl. unfold chunk_SIZE, read_content, slice_len.
    change (0 <=? 12) with true. cbv iota. change (Z.to_nat 12) with 12%nat.
    unfold unpack_3i. rewrite sized_raise; [reflexivity|].
    rewrite length_firstn. lia. }
  split; [|split].
  - destruct (Nat.le_gt_cases 12 (length content)) as [Hl|Hl].
    + split; [intros _; exact Hl|]. intros _.
      unfold chunk_SIZE, read_content, slice_len.
      change (0 <=? 12) with true. cbv iota. change (Z.to_nat 12) with 12%nat.
      unfold unpack_3i. rewrite sized_ok by (rewrite length_firstn; lia).
      reflexivity.
    + rewrite (Hshort Hl). split; [discriminate | lia].
  - exact Hshort.
  - intros x y z rest Hx Hy Hz ->. apply chunk_SIZE_packed; assumption.
Qed.

Lemma chunk_SIZE_reads_three_ints_witness :
  chunk_SIZE (B "short") initial_scene = Raise StructError.
Proof.
  refine (proj1 (proj2 (chunk_SIZE_reads_three_ints (B "short") initial_scene)) _).
  vm_compute. lia.
Defined.

Lemma length_pack_i n : length (pack_i n) = 4%nat.
Proof. reflexivity. Qed.

Lemma length_pack_chunk name payload :
  length (pack_chunk name payload) = (length name + 8 + length payload)%nat.
Proof. unfold pack_chunk. rewrite !length_app, !length_pack_i. lia. Qed.

Lemma length_pack_chunks chunks : (length chunks <= length (pack_chunks chunks))%nat.
Proof.
  unfold pack_chunks. induction chunks as [|[name payload] chunks IH];
    cbn [flat_map length fst snd]; [lia|].
  rewrite length_app, length_pack_chunk. lia.
Qed.

Lemma length_voxel_bytes vs : length (flat_map voxel_bytes vs) = (4 * length vs)%nat.
Proof.
  induction vs as [|[[[a b] c] d] vs IH]; cbn [flat_map length]; [reflexivity|].
  rewrite length_app, IH. cbn [voxel_bytes length]. lia.
Qed.

Lemma read_header_packed `{PyBuiltins} M rest :
  read_header {| data := vox_header M ++ rest; tell := 0 |}
  = Ok {| data := vox_header M ++ rest; tell := 20 |}.
Proof.
  set (f := {| data := vox_header M ++ rest; tell := 0 |}).
  assert (Hr : remaining f
               = B "VOX " ++ pack_i 150 ++ B "MAIN" ++ pack_i 0 ++ pack_i M ++ rest)
    by reflexivity.
  assert (Hlen : (20 <= length (remaining f))%nat).
  { rewrite Hr.
    change (length (B "VOX " ++ pack_i 150 ++ B "MAIN" ++ pack_i 0 ++ pack_i M ++ rest))
      with (20 + length rest)%nat. lia. }
  rewrite (read_header_checks f Hlen), Hr.
  change (sub 0 4 (B "VOX " ++ pack_i 150 ++ B "MAIN" ++ pack_i 0 ++ pack_i M ++ rest))
    with (B "VOX ").
  change (sub 4 4 (B "VOX " ++ pack_i 150 ++ B "MAIN" ++ pack_i 0 ++ pack_i M ++ rest))
    with (pack_i 150).
  change (sub 8 4 (B "VOX " ++ pack_i 150 ++ B "MAIN" ++ pack_i 0 ++ pack_i M ++ rest))
    with (B "MAIN").
  change (sub 12 4 (B "VOX " ++ pack_i 150 ++ B "MAIN" ++ pack_i 0 ++ pack_i M ++ rest))
    with (pack_i 0).
  reflexivity.
Qed.

Section FileFacts.
Context `{PyBuiltins}.

(** X28: an [nTRN] chunk is read as the node id, the node attributes, the
    child id with three integers that are not looked at, and one frame
    dictionary.  The node starts with the translation (0, 0, 0) and the
    rotation [0, 0, 0], and the keys of the frame are then gone through in
    the order of the dictionary; keys other than [_r] and [_t] leave the node
    as it is, so a frame with neither key stores the node unplaced. *)
Theorem chunk_nTRN_of_packed (id : Z) (attrs : list (bytes * bytes))
    (child r1 r2 r3 : Z) (frames : list (bytes * bytes)) (rest : bytes) (sc : scene) :
  int32_range id -> short_dict attrs -> int32_range child -> short_dict frames ->
  let content := pack_i id ++ pack_dict attrs
                 ++ pack_i child ++ pack_i r1 ++ pack_i r2 ++ pack_i r3
                 ++ pack_dict frames ++ rest in
  let store node :=
    {| models := models sc; mod_id := mod_id sc;
       transforms := <[id := node]> (transforms sc);
       groups := groups sc; shapes := shapes sc; palette := palette sc;
       materials := materials sc;
       pending_size := pending_size sc |} in
  chunk_nTRN content sc
  = (node ← foldM frame_key (dict_of_entries frames) (unplaced child); Ok (store node))
  /\ (Forall (fun kv => frame_attribute (fst kv) = false) frames ->
      chunk_nTRN content sc = Ok (store (unplaced child))).
Proof.
  intros Hid Ha Hc Hf content store.
  assert (Hread : chunk_nTRN content sc
                  = (node ← foldM frame_key (dict_of_entries frames) (unplaced child);
                     Ok (store node))).
  { unfold chunk_nTRN, content.
    rewrite read_int_pack by exact Hid. cbn [mbind result_bind].
    rewrite read_dict_short by exact Ha. cbn [mbind result_bind].
    unfold read_content, slice_len.
    change (0 <=? 16) with true. cbv iota. change (Z.to_nat 16) with 16%nat.
    change (firstn 16 (pack_i child ++ pack_i r1 ++ pack_i r2 ++ pack_i r3
                       ++ pack_dict frames ++ rest))
      with (pack_i child ++ pack_i r1 ++ pack_i r2 ++ pack_i r3).
    change (skipn 16 (pack_i child ++ pack_i r1 ++ pack_i r2 ++ pack_i r3
                      ++ pack_dict frames ++ rest))
      with (pack_dict frames ++ rest).
    unfold unpack_4i.
    change (sized 16 (pack_i child ++ pack_i r1 ++ pack_i r2 ++ pack_i r3))
      with (Ok (pack_i child ++ pack_i r1 ++ pack_i r2 ++ pack_i r3)).
    cbn [mbind result_bind].
    change (sub 0 4 (pack_i child ++ pack_i r1 ++ pack_i r2 ++ pack_i r3))
      with (pack_i child).
    rewrite int32_pack_i by exact Hc.
    rewrite read_dict_short by exact Hf. cbn [mbind result_bind].
    reflexivity. }
  split; [exact Hread|].
  intros Hk. rewrite Hread, frame_keys_other; [reflexivity|].
  apply (dict_of_entries_keys (fun k => frame_attribute k = false)). exact Hk.
Qed.

Lemma parse_chunks_packed chunks : forall before sc fuel,
  (length chunks <= fuel)%nat -> Forall well_formed_chunk chunks ->
  parse_chunks fuel {| data := before ++ pack_chunks chunks; tell := length before |} sc
  = Some (handle_chunks chunks sc).
Proof.
  induction chunks as [|[name payload] chunks IH]; intros before sc fuel Hfuel Hw.
  - unfold pack_chunks, handle_chunks. cbn [flat_map foldM].
    set (f := {| data := before ++ []; tell := length before |}).
    assert (Hend : Nat.ltb (tell f) (file_size f) = false).
    { apply Nat.ltb_ge. unfold f, file_size. cbn [data tell]. rewrite app_nil_r. lia. }
    destruct fuel; cbn [parse_chunks]; rewrite Hend; reflexivity.
  - inversion Hw as [|c l [Hn Hp] Hw']; subst. cbn [fst snd] in Hn, Hp.
    destruct fuel as [|fuel]; [cbn [length] in Hfuel; lia|].
    change (pack_chunks ((name, payload) :: chunks))
      with (pack_chunk name payload ++ pack_chunks chunks).
    change (handle_chunks ((name, payload) :: chunks) sc)
      with (sc1 ← handle_chunk name payload sc; handle_chunks chunks sc1).
    set (f := {| data := before ++ pack_chunk name payload ++ pack_chunks chunks;
                 tell := length before |}).
    assert (Hlt : Nat.ltb (tell f) (file_size f) = true).
    { apply Nat.ltb_lt. unfold f, file_size. cbn [data tell].
      rewrite !length_app, length_pack_chunk. lia. }
    cbn [parse_chunks]. rewrite Hlt. unfold f.
    rewrite read_chunk_packed by assumption.
    destruct (handle_chunk name payload sc) as [sc1|e]; cbn [mbind result_bind];
      [|reflexivity].
    replace {| data := before ++ pack_chunk name payload ++ pack_chunks chunks;
               tell := (length before + 12 + length payload)%nat |}
      with {| data := (before ++ pack_chunk name payload) ++ pack_chunks chunks;
              tell := length (before ++ pack_chunk name payload) |}.
    + apply IH; [cbn [length] in Hfuel; lia | exact Hw'].
    + f_equal; [rewrite <- app_assoc; reflexivity|].
      rewrite length_app, length_pack_chunk. lia.
Qed.

(** X29: on a file made of the header and of chunks written one after the
    other, each with a name of 4 bytes and its payload length in the header,
    the loop of [import_vox] hands every chunk to its handler with exactly its
    payload, in the order of the file, and ends with the scene after the last
    chunk or with the exception of the first handler that raises. *)
Theorem parse_vox_of_packed (M : Z) (chunks : list (bytes * bytes)) :
  Forall well_formed_chunk chunks ->
  parse_vox (pack_file M chunks) = Some (handle_chunks chunks initial_scene).
Proof.
  intros Hw. unfold parse_vox, pack_file. rewrite read_header_packed.
  apply (parse_chunks_packed chunks (vox_header M)); [|exact Hw].
  rewrite length_app. pose proof (length_pack_chunks chunks). lia.
Qed.

(** X30: a file of the header, a [SIZE] chunk and an [XYZI] chunk is read
    as the scene of one model with the id 0, built from the voxels of the
    file in their order and the size of the file; the size of the children
    in the header can be anything. *)
Theorem one_model_file_parsed (M x y z : Z) (vs : list (byte * byte * byte * byte)) :
  int32_range x -> int32_range y -> int32_range z -> 4 + 4 * len vs < 2 ^ 31 ->
  parse_vox (one_model_file M x y z vs) = Some (Ok (one_model_scene x y z vs)).
Proof.
  intros Hx Hy Hz Hn. unfold one_model_file, parse_vox, pack_file.
  rewrite read_header_packed.
  rewrite (parse_chunks_packed _ (vox_header M)).
  - f_equal. unfold handle_chunks. cbn [foldM fst snd].
    assert (Hsize : forall content sc, handle_chunk (B "SIZE") content sc
                                       = chunk_SIZE content sc) by reflexivity.
    assert (Hxyzi : forall content sc, handle_chunk (B "XYZI") content sc
                                       = chunk_XYZI content sc) by reflexivity.
    rewrite Hsize, <- (app_nil_r (pack_i z)).
    rewrite chunk_SIZE_packed by assumption. cbn [mbind result_bind].
    rewrite Hxyzi. unfold chunk_XYZI. rewrite read_int_pack by (apply len_range; unfold len in *; lia).
    cbn [mbind result_bind]. unfold len. rewrite Nat2Z.id.
    rewrite <- (app_nil_r (flat_map voxel_bytes vs)), read_voxels_packed.
    cbn [mbind result_bind app pending_size]. reflexivity.
  - rewrite length_app. etransitivity; [apply length_pack_chunks|]. lia.
  - repeat constructor; cbn [fst snd]; unfold len;
      rewrite ?length_app, ?length_voxel_bytes, ?length_pack_i; unfold len in Hn;
      try reflexivity; lia.
Qed.

End FileFacts.

Lemma chunk_nTRN_of_packed_witness :
  @chunk_nTRN sample_builtins
    (pack_i 0 ++ pack_dict [] ++ pack_i 1 ++ pack_i (-1) ++ pack_i (-1) ++ pack_i 1
     ++ pack_dict [(B "_f", B "0")] ++ []) initial_scene
  = Ok {| models := models initial_scene; mod_id := mod_id initial_scene;
          transforms := <[0 := unplaced 1]> (transforms initial_scene);
          groups := groups initial_scene; shapes := shapes initial_scene;
          palette := palette initial_scene;
          materials := materials initial_scene;
          pending_size := pending_size initial_scene |}.
Proof.
  refine (proj2 (@chunk_nTRN_of_packed sample_builtins 0 [] 1 (-1) (-1) 1
                   [(B "_f", B "0")] [] initial_scene _ _ _ _) _).
  - unfold int32_range. lia.
  - split; [vm_compute; reflexivity | constructor].
  - unfold int32_range. lia.
  - split; [vm_compute; reflexivity|]. repeat constructor; vm_compute; reflexivity.
  - repeat constructor.
Defined.

Lemma parse_vox_of_packed_witness :
  @parse_vox sample_builtins (pack_file 0 [(B "PACK", pack_i 1)])
  = Some (@handle_chunks sample_builtins [(B "PACK", pack_i 1)] initial_scene).
Proof.
  refine (@parse_vox_of_packed sample_builtins 0 [(B "PACK", pack_i 1)] _).
  repeat constructor; vm_compute; reflexivity.
Defined.

Lemma one_model_file_parsed_witness :
  @parse_vox sample_builtins (one_model_file 0 1 1 1 [(x00, x00, x00, x01)])
  = Some (Ok (one_model_scene 1 1 1 [(x00, x00, x00, x01)])).
Proof.
  refine (@one_model_file_parsed sample_builtins 0 1 1 1 [(x00, x00, x00, x01)] _ _ _ _);
    try (unfold int32_range; lia).
  vm_compute. reflexivity.
Defined.
